(** * Verification of the nesting engine of the AI Auto Nesting System

    The development embeds [NestingAlgorithm.run] of [src/nesting_app.py]
    and the part of the geometry library it calls, and settles the
    invariants of the placement engine on that embedding.  It also embeds
    the parts of the page script around the engine that work on plain
    data: the copy of the placement loop, [calc_metrics], the quantities,
    [_init_state], the colours of the styles and the renaming of the
    columns of the BOM.

    Numbers.  Python floats are modelled as exact rationals ([Q]); the
    rounding of floating-point arithmetic is not modelled.  Coordinates
    are kept in lowest terms ([Qred]), which does not change their value.
    [int(...)] is truncation towards zero, [math.ceil] is [Qceiling],
    [float("inf")] is the absent score ([None]).

    Geometry.  A polygon is the vertex list of its exterior ring.  The
    affine maps ([rotate], [scale], [translate]), [bounds], [area] and
    [centroid] follow the formulas of the geometry library.  The exact
    intersection predicate of the library is a parameter of the engine
    ([intersects]); [poly_intersects] is a concrete closed point-set test
    used to run the engine on examples.  The empty geometry has no vertex
    and is kept apart: [Raw] has the panel loop on panels that may hold
    it.

    Page.  The calls of the page script to the page library are a
    parameter of the copy of the loop ([returns]): each of them may raise
    and end the script. *)

From Stdlib Require Import QArith Qround Qabs Qminmax Qfield Lqa.
From Stdlib Require Import ZArith List String Ascii Bool Lia Permutation Sorted.
From Stdlib Require Import Setoid Morphisms.
Import ListNotations.

Set Warnings "-notation-for-abbreviation".

Open Scope Q_scope.

(* ------------------------------------------------------------------ *)
(** ** Python numerics *)

Module Py.

(** [a < b] on floats, as a boolean. *)
Definition Qlt_bool (a b : Q) : bool := negb (Qle_bool b a).

(** [int(q)]: truncation towards zero. *)
Definition int (q : Q) : Z :=
  if Qlt_bool q 0 then Qceiling q else Qfloor q.

(** [range(a, b)] over the integers. *)
Definition range (a b : Z) : list Z :=
  map (fun i => (a + Z.of_nat i)%Z) (seq 0 (Z.to_nat (b - a))).

(** [s.endswith(suf)]. *)
Definition endswith (s suf : string) : bool :=
  let n := String.length s in
  let m := String.length suf in
  (m <=? n)%nat && String.eqb (substring (n - m) m s) suf.

End Py.

(* ------------------------------------------------------------------ *)
(** ** Geometry kernel *)

Module Geometry.

Definition point : Type := (Q * Q)%type.

(** The exterior ring of a polygon: its vertices in order.  The closing
    edge from the last vertex back to the first is implicit.  An empty
    geometry (whose bounds are NaN in the library) is not representable. *)
Record Polygon : Type := mkPolygon { first_pt : point; more_pts : list point }.

Definition coords (p : Polygon) : list point := first_pt p :: more_pts p.

Definition map_poly (f : point -> point) (p : Polygon) : Polygon :=
  mkPolygon (f (first_pt p)) (map f (more_pts p)).

(** The 4-tuple [(minx, miny, maxx, maxy)] returned by [.bounds]. *)
Record Bounds : Type := mkBounds { minx : Q; miny : Q; maxx : Q; maxy : Q }.

Definition list_min (a : Q) (l : list Q) : Q := fold_left Qmin l a.
Definition list_max (a : Q) (l : list Q) : Q := fold_left Qmax l a.

Definition bounds (p : Polygon) : Bounds :=
  let xs := map fst (more_pts p) in
  let ys := map snd (more_pts p) in
  {| minx := list_min (fst (first_pt p)) xs;
     miny := list_min (snd (first_pt p)) ys;
     maxx := list_max (fst (first_pt p)) xs;
     maxy := list_max (snd (first_pt p)) ys |}.

(** [affine_transform(geom, [a, b, d, e, xoff, yoff])]. *)
Definition affine_transform (p : Polygon) (a b d e xoff yoff : Q) : Polygon :=
  map_poly (fun '(x, y) => (Qred (a * x + b * y + xoff),
                            Qred (d * x + e * y + yoff))) p.

(** [translate(geom, xoff, yoff)]: the affine map with the identity matrix;
    the products with 1 and 0 are exact, so only the sum remains. *)
Definition translate (p : Polygon) (xoff yoff : Q) : Polygon :=
  map_poly (fun '(x, y) => (Qred (x + xoff), Qred (y + yoff))) p.

(** Consecutive vertex pairs of the closed ring. *)
Definition edges (p : Polygon) : list (point * point) :=
  combine (coords p) (more_pts p ++ [first_pt p]).

Definition cross (a b : point) : Q := fst a * snd b - fst b * snd a.

Definition sumQ (l : list Q) : Q := fold_right Qplus 0 l.

(** Twice the signed area of the ring (shoelace formula). *)
Definition area2 (p : Polygon) : Q :=
  sumQ (map (fun e => cross (fst e) (snd e)) (edges p)).

(** [.area] *)
Definition area (p : Polygon) : Q := Qabs (area2 p) / 2.

(** Length of a segment in the 1-norm.  On a ring whose vertices are
    collinear it is proportional to the Euclidean length, so it yields the
    same length-weighted centroid; on another ring without area the
    Euclidean weights of the library give another point.  The engine uses
    the centroid only as the origin of [rotate] and [scale], and the
    translation that normalises an orientation cancels the origin. *)
Definition seg_len1 (e : point * point) : Q :=
  Qabs (fst (snd e) - fst (fst e)) + Qabs (snd (snd e) - snd (fst e)).

(** [.centroid]: area-weighted for a ring of non-zero area; the
    length-weighted centroid of the ring when the area vanishes; the first
    vertex when the length vanishes too. *)
Definition centroid (p : Polygon) : point :=
  let es := edges p in
  let a2 := area2 p in
  if negb (Qeq_bool a2 0) then
    (Qred (sumQ (map (fun e => (fst (fst e) + fst (snd e)) * cross (fst e) (snd e)) es)
           / (3 * a2)),
     Qred (sumQ (map (fun e => (snd (fst e) + snd (snd e)) * cross (fst e) (snd e)) es)
           / (3 * a2)))
  else
    let len := sumQ (map seg_len1 es) in
    if negb (Qeq_bool len 0) then
      (Qred (sumQ (map (fun e => seg_len1 e * ((fst (fst e) + fst (snd e)) / 2)) es) / len),
       Qred (sumQ (map (fun e => seg_len1 e * ((snd (fst e) + snd (snd e)) / 2)) es) / len))
    else first_pt p.

(** Cosine and sine of an angle in degrees that is a multiple of 90; the
    library snaps values below 2.5e-16 to zero, so they are exact. *)
Definition quadrant (angle : Z) : Z := ((angle / 90) mod 4)%Z.

Definition cosd (angle : Z) : Q :=
  match quadrant angle with
  | 0%Z => 1 | 2%Z => -1 | _ => 0
  end.

Definition sind (angle : Z) : Q :=
  match quadrant angle with
  | 1%Z => 1 | 3%Z => -1 | _ => 0
  end.

(** [rotate(geom, angle, origin="centroid")]. *)
Definition rotate (p : Polygon) (angle : Z) : Polygon :=
  let cosp := cosd angle in
  let sinp := sind angle in
  let '(x0, y0) := centroid p in
  affine_transform p cosp (- sinp) sinp cosp
    (x0 - x0 * cosp + y0 * sinp) (y0 - x0 * sinp - y0 * cosp).

(** [scale(geom, xfact, yfact, origin="centroid")]. *)
Definition scale (p : Polygon) (xfact yfact : Q) : Polygon :=
  let '(x0, y0) := centroid p in
  affine_transform p xfact 0 0 yfact (x0 - x0 * xfact) (y0 - y0 * yfact).

(** *** A concrete intersection test

    Two polygons intersect when they share a point, boundary included:
    two edges meet, or one ring contains a vertex of the other. *)

Definition orient (a b c : point) : comparison :=
  ((fst b - fst a) * (snd c - snd a) - (snd b - snd a) * (fst c - fst a)) ?= 0.

Definition comparison_eqb (c1 c2 : comparison) : bool :=
  match c1, c2 with
  | Eq, Eq | Lt, Lt | Gt, Gt => true
  | _, _ => false
  end.

Definition within (lo hi v : Q) : bool :=
  Qle_bool (Qmin lo hi) v && Qle_bool v (Qmax lo hi).

(** [c] lies on the closed segment [a b], given that the three are collinear. *)
Definition on_segment (a b c : point) : bool :=
  within (fst a) (fst b) (fst c) && within (snd a) (snd b) (snd c).

Definition segments_meet (s t : point * point) : bool :=
  let '(a, b) := s in
  let '(c, d) := t in
  let o1 := orient a b c in
  let o2 := orient a b d in
  let o3 := orient c d a in
  let o4 := orient c d b in
  (negb (comparison_eqb o1 o2) && negb (comparison_eqb o3 o4))
  || (comparison_eqb o1 Eq && on_segment a b c)
  || (comparison_eqb o2 Eq && on_segment a b d)
  || (comparison_eqb o3 Eq && on_segment c d a)
  || (comparison_eqb o4 Eq && on_segment c d b).

(** The horizontal ray from [q] to the right crosses the edge [a b]. *)
Definition ray_crosses (q : point) (e : point * point) : bool :=
  let '(a, b) := e in
  let above_a := Py.Qlt_bool (snd q) (snd a) in
  let above_b := Py.Qlt_bool (snd q) (snd b) in
  xorb above_a above_b
  && Py.Qlt_bool (fst q)
       (fst a + (snd q - snd a) * (fst b - fst a) / (snd b - snd a)).

Definition odd_count (l : list bool) : bool := fold_right xorb false l.

Definition contains_point (p : Polygon) (q : point) : bool :=
  existsb (fun e => comparison_eqb (orient (fst e) (snd e) q) Eq
                    && on_segment (fst e) (snd e) q) (edges p)
  || odd_count (map (ray_crosses q) (edges p)).

Definition poly_intersects (p q : Polygon) : bool :=
  existsb (fun s => existsb (segments_meet s) (edges q)) (edges p)
  || contains_point p (first_pt q)
  || contains_point q (first_pt p).

End Geometry.

(* ------------------------------------------------------------------ *)
(** ** The nesting engine: [NestingAlgorithm] *)

Module Nesting.
Import Geometry.

(** A pattern dict [{"style": .., "id": .., "poly": ..}]; the entries of
    [placed_items] are dicts with the same three keys. *)
Record item : Type := mkItem { style : string; id : string; poly : Polygon }.

(** The dict [{"poly": cp, "bounds": cp.bounds}] kept as [best_placement]. *)
Record placement : Type := mkPlacement { pl_poly : Polygon; pl_bounds : Bounds }.

(** The fields of a [NestingAlgorithm] object. *)
Record NestingAlgorithm : Type := mkAlgo {
  patterns : list item;
  fabric_width : Q;
  max_length : Q;
  placed_items : list item;
  unplaced_items : list item
}.

(** What identifies a panel in the two result lists. *)
Definition tag (i : item) : string * string := (style i, id i).

(** [__init__] *)
Definition init (pats : list item) (fw ml : Q) : NestingAlgorithm :=
  mkAlgo pats fw ml [] [].

(** The local variables of [run] that live across panels, together with
    what the run does to its surroundings: the number of calls made to
    [cancel_flag] so far and the arguments of the calls to [progress_cb]. *)
Record locals : Type := mkLocals {
  placed_polys : list Polygon;
  placed_bounds : list Bounds;
  polls : nat;
  progress : list (list item * nat * nat)
}.

(** [best_score] and [best_placement]; [None] is [float("inf")], resp. [None]. *)
Record best : Type := mkBest {
  best_score : option Q;
  best_placement : option placement
}.

Definition step_x : Q := 3.
Definition step_y : Q := 3.

(** [[(a, m) for a in (0, 90, 180, 270) for m in (1, -1)]] *)
Definition variants : list (Z * Z) :=
  flat_map (fun a => map (fun m => (a, m)) [1; -1]%Z) [0; 90; 180; 270]%Z.

(** *** Panel sequencer: [self.patterns.sort(key=..., reverse=True)] *)

Definition sort_key (x : item) : Q * Q :=
  let b := bounds (poly x) in
  (area (poly x), Qmax (maxx b - minx b) (maxy b - miny b)).

(** Tuples compare lexicographically. *)
Definition key_lt (k1 k2 : Q * Q) : bool :=
  Py.Qlt_bool (fst k1) (fst k2)
  || (Qeq_bool (fst k1) (fst k2) && Py.Qlt_bool (snd k1) (snd k2)).

(** The sort is stable, also with [reverse=True]: an element goes behind
    every element whose key is not smaller. *)
Fixpoint insert_desc (x : item) (l : list item) : list item :=
  match l with
  | [] => [x]
  | y :: r =>
      if key_lt (sort_key y) (sort_key x) then x :: y :: r
      else y :: insert_desc x r
  end.

Definition sort_desc (l : list item) : list item :=
  fold_left (fun acc x => insert_desc x acc) l [].

(** *** Lane order of the y scan *)

Definition start_y_of (st : string) (fw : Q) : Z :=
  if Py.endswith st "_A" || String.eqb st "Style_A" then 0%Z
  else Py.int (fw / 2).

Definition y_of (yy : Z) : Q := inject_Z yy * step_y.

Definition y_candidates (start_y : Z) (fw h : Q) : list Q :=
  if (0 <? start_y)%Z then
    map y_of (Py.range (Py.int (inject_Z start_y / step_y))
                       (Py.int ((fw - h) / step_y) + 1))
    ++ map y_of (Py.range 0 (Py.int (inject_Z start_y / step_y)))
  else
    map y_of (Py.range 0 (Py.int ((fw - h) / step_y) + 1)).

(** *** Orientation variants *)

(** The rotated, mirrored and normalised polygon with its width and height. *)
Definition oriented (base_poly : Polygon) (angle mirror : Z) : Polygon * Q * Q :=
  let vpoly := rotate base_poly angle in
  let vpoly := if (mirror =? -1)%Z then scale vpoly (-1) 1 else vpoly in
  let b := bounds vpoly in
  (translate vpoly (- minx b) (- miny b), maxx b - minx b, maxy b - miny b).

(** [cp.bounds[2] + cp.bounds[1] * 0.001] *)
Definition score (cp : Polygon) : Q :=
  maxx (bounds cp) + miny (bounds cp) * (1 # 1000).

(** [x > best_score] *)
Definition exceeds (x : Q) (bs : option Q) : bool :=
  match bs with
  | None => false
  | Some s => Py.Qlt_bool s x
  end.

(** [sc < best_score] *)
Definition improves (sc : Q) (bs : option Q) : bool :=
  match bs with
  | None => true
  | Some s => Py.Qlt_bool sc s
  end.

(** The bounding-box pre-check: the boxes do not overlap (they may touch). *)
Definition boxes_apart (cb pb : Bounds) : bool :=
  Qle_bool (maxx cb) (minx pb) || Qle_bool (maxx pb) (minx cb)
  || Qle_bool (maxy cb) (miny pb) || Qle_bool (maxy pb) (miny cb).

(** Two placements are in conflict when their boxes overlap and their
    polygons intersect. *)
Definition conflict (intersects : Polygon -> Polygon -> bool) (a b : Polygon) : bool :=
  negb (boxes_apart (bounds a) (bounds b)) && intersects a b.

(** The y scan in the words of the specification: lane A ascends from 0 to
    [fw - h]; every other style starts at the half-height [fw / 2], ascends
    to [fw - h], and then scans from 0 up to the half-height. *)
Definition y_candidates_spec (lane_a : bool) (fw h : Q) : list Q :=
  if lane_a then
    map y_of (Py.range 0 (Qfloor ((fw - h) / step_y) + 1))
  else
    map (fun i => fw / 2 + inject_Z i * step_y)
        (Py.range 0 (Qfloor ((fw - h - fw / 2) / step_y) + 1))
    ++ map y_of (Py.range 0 (Qceiling (fw / 2 / step_y))).

(** The image of a point under a rotation about the origin by a multiple of
    90 degrees, a mirror of the x axis when [mirror] is [-1], and a
    translation. *)
Definition iso_pt (angle mirror : Z) (dx dy : Q) (p : point) : point :=
  (inject_Z mirror * (cosd angle * fst p - sind angle * snd p) + dx,
   sind angle * fst p + cosd angle * snd p + dy).

Definition same_pt (a b : point) : Prop := fst a == fst b /\ snd a == snd b.

(** [q] is the image of [base] under such a map, vertex by vertex. *)
Definition isometric_image (base q : Polygon) : Prop :=
  exists angle mirror dx dy,
    In (angle, mirror) variants
    /\ Forall2 same_pt (coords q) (map (iso_pt angle mirror dx dy) (coords base)).

(** A polygon that comes from [base] by the maps the engine applies. *)
Definition derived (base q : Polygon) : Prop :=
  isometric_image base q /\ area q == area base.

(** An entry of the placed list that stems from a panel of [pats]. *)
Definition traced (pats : list item) (e : item) : Prop :=
  exists it, In it pats /\ style e = style it /\ id e = id it
             /\ derived (poly it) (poly e).

(** The score of the first search is no greater than that of the second. *)
Definition no_worse (bu bp : best) : Prop :=
  match best_score bu, best_score bp with
  | None, None => True
  | Some su, Some sp => su <= sp
  | _, _ => False
  end.

(** How many panels a flag that is first set at poll [j] lets through when
    the next poll is number [p]: a panel takes one poll before its search
    and one before each of its eight orientations. *)
Definition let_through (j p : nat) : nat :=
  if (j <? p)%nat then 0%nat else ((j - p + 8) / 9)%nat.

(** The polygon lies in the quadrant of the sheet. *)
Definition in_quadrant (q : Polygon) : Prop :=
  0 <= minx (bounds q) /\ 0 <= miny (bounds q).

(** A polygon with fewer than three vertices or without area. *)
Definition degenerate (p : Polygon) : Prop :=
  (List.length (coords p) < 3)%nat \/ area p == 0.

Section Engine.

(** The exact intersection test of the geometry library. *)
Variable intersects : Polygon -> Polygon -> bool.

(** [cancel_flag]: absent, or a callable whose answer may depend on how
    often it has been asked before. *)
Variable cancel_flag : option (nat -> bool).

(** Whether a [progress_cb] was passed. *)
Variable progress_cb : bool.

(** [cancel_flag and cancel_flag()] *)
Definition poll (n : nat) : bool * nat :=
  match cancel_flag with
  | None => (false, n)
  | Some f => (f n, S n)
  end.

Section Sheet.

Variable fw ml : Q.
Variable pbs : list Bounds.
Variable pps : list Polygon.

(** The conflict loop over [placed_bounds] / [placed_polys]. *)
Definition overlap (cp : Polygon) : bool :=
  existsb (fun '(pb, pp) => negb (boxes_apart (bounds cp) pb) && intersects cp pp)
          (combine pbs pps).

(** One compaction move: shift by [(xoff, yoff)] when the shifted polygon
    keeps the given lower bound at or above zero and is conflict-free. *)
Definition shift (cp : Polygon) (xoff yoff : Q) (low : Bounds -> Q) : option Polygon :=
  let t := translate cp xoff yoff in
  let tb := bounds t in
  if Qle_bool 0 (low tb) then
    if overlap t then None else Some t
  else None.

(** The body of [while moved]: a down-shift, then a left-shift, by 0.5. *)
Definition gravity_pass (cp : Polygon) : Polygon * bool :=
  let '(cp1, moved1) :=
    match shift cp 0 (- (1 # 2)) miny with
    | Some t => (t, true)
    | None => (cp, false)
    end in
  match shift cp1 (- (1 # 2)) 0 minx with
  | Some t => (t, true)
  | None => (cp1, moved1)
  end.

(** The [while moved] loop, with the number of passes bounded by [fuel]. *)
Fixpoint gravity_loop (fuel : nat) (cp : Polygon) : option Polygon :=
  match fuel with
  | O => None
  | S fuel' =>
      let '(cp', moved) := gravity_pass cp in
      if moved then gravity_loop fuel' cp' else Some cp'
  end.

(** The number of half-centimetre steps between the polygon and the two
    axes: no more moves than that can succeed. *)
Definition slack (cp : Polygon) : nat :=
  (Z.to_nat (Qfloor (2 * miny (bounds cp)))
   + Z.to_nat (Qfloor (2 * minx (bounds cp))))%nat.

(** A number of passes that always suffices (see [gravity_loop_enough]). *)
Definition gravity_fuel (cp : Polygon) : nat := S (slack cp).

Definition gravity (cp : Polygon) : Polygon :=
  match gravity_loop (gravity_fuel cp) cp with
  | Some r => r
  | None => cp
  end.

(** [for y in yc]: the first conflict-free candidate at this [x]. *)
Fixpoint first_free (vpoly : Polygon) (x : Q) (yc : list Q) : option Polygon :=
  match yc with
  | [] => None
  | y :: yc' =>
      let cp := translate vpoly x y in
      if overlap cp then first_free vpoly x yc' else Some cp
  end.

(** [for xi in range(x_range + 1)] with the pruning [break]. *)
Fixpoint scan_x (bs : option Q) (vpoly : Polygon) (yc : list Q) (xis : list Z)
  : option Polygon :=
  match xis with
  | [] => None
  | xi :: xis' =>
      let x := inject_Z xi * step_x in
      if exceeds x bs then None
      else match first_free vpoly x yc with
           | Some cp => Some cp
           | None => scan_x bs vpoly yc xis'
           end
  end.

(** The raw candidate of one orientation, if the orientation survives and
    the scan finds a position. *)
Definition search (bs : option Q) (start_y : Z) (base_poly : Polygon) (v : Z * Z)
  : option Polygon :=
  let '(vpoly, w, h) := oriented base_poly (fst v) (snd v) in
  if Py.Qlt_bool ml w || Py.Qlt_bool fw h then None
  else
    let x_range := Qceiling ((ml - w) / step_x) in
    scan_x bs vpoly (y_candidates start_y fw h) (Py.range 0 (x_range + 1)).

(** The compacted candidate of one orientation. *)
Definition candidate (bs : option Q) (start_y : Z) (base_poly : Polygon) (v : Z * Z)
  : option Polygon :=
  option_map gravity (search bs start_y base_poly v).

(** The body of the orientation loop after the cancellation poll. *)
Definition try_variant (start_y : Z) (base_poly : Polygon) (b : best) (v : Z * Z) : best :=
  match search (best_score b) start_y base_poly v with
  | None => b
  | Some cp =>
      let cp := gravity cp in
      let sc := score cp in
      if improves sc (best_score b)
      then mkBest (Some sc) (Some (mkPlacement cp (bounds cp)))
      else b
  end.

(** The body of the orientation loop with the pruning [break] taken out:
    the scan of every orientation runs over its whole x range. *)
Definition try_variant_unpruned (start_y : Z) (base_poly : Polygon) (b : best) (v : Z * Z)
  : best :=
  match candidate None start_y base_poly v with
  | None => b
  | Some cp =>
      if improves (score cp) (best_score b)
      then mkBest (Some (score cp)) (Some (mkPlacement cp (bounds cp)))
      else b
  end.

(** The score and the placement are set together. *)
Definition in_step (b : best) : Prop :=
  match best_score b, best_placement b with
  | None, None => True
  | Some s, Some pl => s = score (pl_poly pl) /\ pl_bounds pl = bounds (pl_poly pl)
  | _, _ => False
  end.

(** [for angle, mirror in variants], polling [cancel_flag] first. *)
Fixpoint orient_loop (start_y : Z) (base_poly : Polygon) (vs : list (Z * Z))
    (n : nat) (b : best) : nat * best :=
  match vs with
  | [] => (n, b)
  | v :: vs' =>
      let '(c, n') := poll n in
      if c then (n', b)
      else orient_loop start_y base_poly vs' n' (try_variant start_y base_poly b v)
  end.

End Sheet.

(** The body of the panel loop after the cancellation poll. *)
Definition process_item (total idx : nat) (s : NestingAlgorithm * locals) (it : item)
  : NestingAlgorithm * locals :=
  let '(self, l) := s in
  let start_y := start_y_of (style it) (fabric_width self) in
  let '(n, b) :=
    orient_loop (fabric_width self) (max_length self)
                (placed_bounds l) (placed_polys l)
                start_y (poly it) variants (polls l) (mkBest None None) in
  let '(self', pps', pbs') :=
    match best_placement b with
    | Some pl =>
        (mkAlgo (patterns self) (fabric_width self) (max_length self)
                (placed_items self ++ [mkItem (style it) (id it) (pl_poly pl)])
                (unplaced_items self),
         placed_polys l ++ [pl_poly pl],
         placed_bounds l ++ [pl_bounds pl])
    | None =>
        (mkAlgo (patterns self) (fabric_width self) (max_length self)
                (placed_items self)
                (unplaced_items self ++ [it]),
         placed_polys l, placed_bounds l)
    end in
  (self',
   mkLocals pps' pbs' n
     (if progress_cb
      then progress l ++ [(placed_items self', S idx, total)]
      else progress l)).

(** [for idx, item in enumerate(self.patterns)], polling [cancel_flag] first. *)
Fixpoint run_loop (total idx : nat) (items : list item) (s : NestingAlgorithm * locals)
  : NestingAlgorithm * locals :=
  match items with
  | [] => s
  | it :: rest =>
      let '(c, n') := poll (polls (snd s)) in
      let s1 := (fst s, mkLocals (placed_polys (snd s)) (placed_bounds (snd s)) n'
                                (progress (snd s))) in
      if c then s1
      else run_loop total (S idx) rest (process_item total idx s1 it)
  end.

(** [run]: the object after the call together with the final locals; the
    value returned is [(self.placed_items, self.unplaced_items)]. *)
Definition run (self : NestingAlgorithm) : NestingAlgorithm * locals :=
  let pats := sort_desc (patterns self) in
  run_loop (List.length pats) 0 pats
    (mkAlgo pats (fabric_width self) (max_length self)
            (placed_items self) (unplaced_items self),
     mkLocals [] [] 0 []).

(** Cancellation is never requested: no flag, or a flag that is never set. *)
Definition never_requested : Prop :=
  match cancel_flag with
  | None => True
  | Some f => forall n, f n = false
  end.

(** The panels recorded so far, in either list. *)
Definition recorded (s : NestingAlgorithm * locals) : list (string * string) :=
  map tag (placed_items (fst s)) ++ map tag (unplaced_items (fst s)).

(** The sheet holds the polygons of the placed entries with their boxes,
    and none of them is in conflict with an earlier one. *)
Definition sheet_ok (s : NestingAlgorithm * locals) : Prop :=
  placed_bounds (snd s) = map bounds (placed_polys (snd s))
  /\ placed_polys (snd s) = map poly (placed_items (fst s))
  /\ ForallOrdPairs (fun a b => conflict intersects b a = false) (placed_polys (snd s)).

Definition placed_of (self : NestingAlgorithm) : list item := placed_items (fst (run self)).
Definition unplaced_of (self : NestingAlgorithm) : list item := unplaced_items (fst (run self)).

End Engine.

End Nesting.

(* ------------------------------------------------------------------ *)
(** ** Inputs used to run the engine *)

Module Inputs.
Import Geometry Nesting.

(** The rectangle with corners [(0,0)] and [(w,h)], counter-clockwise. *)
Definition rect (w h : Q) : Polygon := mkPolygon (0, 0) [(w, 0); (w, h); (0, h)].

Definition panel (i : string) (p : Polygon) : item := mkItem "S" i p.

(** Two 3 x 4 rectangles for a sheet of width 4 and maximal length 5. *)
Definition two_rects : list item := [panel "1" (rect 3 4); panel "2" (rect 3 4)].

(** A 5 x 5 square and a 16 x 1 strip for a sheet of width 20. *)
Definition square_and_strip : list item := [panel "1" (rect 5 5); panel "2" (rect 16 1)].

(** Two 4 x 4 squares for a sheet of width 4. *)
Definition two_squares : list item := [panel "1" (rect 4 4); panel "2" (rect 4 4)].

(** A 0.5 x 4 bar and a 2 x 1 rectangle for a sheet of width 4. *)
Definition bar_and_rect : list item := [panel "1" (rect (1 # 2) 4); panel "2" (rect 2 1)].

(** A ring of three collinear vertices: its area is zero. *)
Definition flat_ring : Polygon := mkPolygon (0, 0) [(2, 0); (1, 0)].

(** A cancellation flag that is clear when first asked and set from then on. *)
Definition set_after_first : nat -> bool := fun n => (1 <=? n)%nat.

(** A cancellation flag that is set from its tenth poll on, which is the
    poll before the second panel. *)
Definition set_from_tenth_poll : nat -> bool := fun n => (9 <=? n)%nat.

End Inputs.

(* ------------------------------------------------------------------ *)
(** ** Panels that may hold the empty geometry *)

Module Raw.
Import Geometry Nesting.

(** A pattern dict as the engine receives it.  Its polygon may be the
    empty geometry [Polygon()], which [buffer(0)] returns for a ring
    without area: [None].  The empty geometry has area 0 and the bounds
    [(nan, nan, nan, nan)]. *)
Record pattern : Type := mkPattern {
  p_style : string;
  p_id : string;
  p_poly : option Polygon
}.

Definition of_item (i : item) : pattern :=
  mkPattern (style i) (id i) (Some (poly i)).

(** The two result lists and the locals of [run].  An entry of
    [placed_items] has a polygon that was found a position; a panel of
    [unplaced_items] is the dict that was passed in. *)
Record run_state : Type := mkState {
  placed : list item;
  unplaced : list pattern;
  loc : locals
}.

Definition start : run_state := mkState [] [] (mkLocals [] [] 0 []).

Section Engine.

Variable intersects : Polygon -> Polygon -> bool.
Variable cancel_flag : option (nat -> bool).
Variable progress_cb : bool.
Variable fabric_width max_length : Q.

(** The body of the panel loop after the cancellation poll.  A panel with
    a polygon is handled by [process_item].  For the empty geometry the
    orientation loop first polls [cancel_flag]: when the flag is set the
    loop is left and the panel is appended to [unplaced_items]; otherwise
    [rotate] and [translate] return the empty geometry, [w] and [h] are
    NaN, both comparisons of the size guard are false, and
    [math.ceil((self.max_length - w) / step_x)] raises [ValueError]:
    [None]. *)
Definition process_pattern (total idx : nat) (s : run_state) (p : pattern) : option run_state :=
  match p_poly p with
  | Some q =>
      let '(self', l') :=
        process_item intersects cancel_flag progress_cb total idx
          (mkAlgo [] fabric_width max_length (placed s) [], loc s)
          (mkItem (p_style p) (p_id p) q) in
      Some (mkState (placed_items self')
                    (unplaced s ++ map of_item (unplaced_items self'))
                    l')
  | None =>
      let '(c, n) := poll cancel_flag (polls (loc s)) in
      if c then
        Some (mkState (placed s) (unplaced s ++ [p])
                (mkLocals (placed_polys (loc s)) (placed_bounds (loc s)) n
                   (if progress_cb
                    then progress (loc s) ++ [(placed s, S idx, total)]
                    else progress (loc s))))
      else None
  end.

(** [for idx, item in enumerate(self.patterns)] over the panels in the
    order in which the sort left them; [None] is an exception that leaves
    [run]. *)
Fixpoint panel_loop (total idx : nat) (items : list pattern) (s : run_state) : option run_state :=
  match items with
  | [] => Some s
  | p :: rest =>
      let '(c, n') := poll cancel_flag (polls (loc s)) in
      let s1 := mkState (placed s) (unplaced s)
                  (mkLocals (placed_polys (loc s)) (placed_bounds (loc s)) n'
                            (progress (loc s))) in
      if c then Some s1
      else match process_pattern total idx s1 p with
           | None => None
           | Some s2 => panel_loop total (S idx) rest s2
           end
  end.

End Engine.

(** The state of [Nesting.run_loop] as a state of this loop. *)
Definition lift (s : NestingAlgorithm * locals) : run_state :=
  mkState (placed_items (fst s)) (map of_item (unplaced_items (fst s))) (snd s).

End Raw.

(* ------------------------------------------------------------------ *)
(** ** Further notions about a run *)

Module Layout.
Import Geometry Nesting.

(** Two sort keys of which neither is smaller. *)
Definition same_key (a b : item) : bool :=
  negb (key_lt (sort_key a) (sort_key b)) && negb (key_lt (sort_key b) (sort_key a)).

(** Descending order of the keys: no panel has a smaller key than one
    that comes after it. *)
Definition descending (l : list item) : Prop :=
  StronglySorted (fun a b => key_lt (sort_key a) (sort_key b) = false) l.

(** [r] has the bounding box of [cp] moved [a] half-centimetre steps to the
    left and [b] half-centimetre steps down. *)
Definition moved_by (cp r : Polygon) (a b : nat) : Prop :=
  minx (bounds r) == minx (bounds cp) - inject_Z (Z.of_nat a) * (1 # 2)
  /\ maxx (bounds r) == maxx (bounds cp) - inject_Z (Z.of_nat a) * (1 # 2)
  /\ miny (bounds r) == miny (bounds cp) - inject_Z (Z.of_nat b) * (1 # 2)
  /\ maxy (bounds r) == maxy (bounds cp) - inject_Z (Z.of_nat b) * (1 # 2).

(** The entries of [l] whose decision in [mask] is [b], in order. *)
Fixpoint pick (b : bool) (mask : list bool) (l : list item) : list item :=
  match mask, l with
  | m :: mask', x :: l' =>
      if Bool.eqb m b then x :: pick b mask' l' else pick b mask' l'
  | _, _ => []
  end.

(** Every polygon of [l] is at rest with respect to the polygons before it
    ([pre] and the earlier ones of [l]): a further pass of the compaction
    loop leaves it where it is. *)
Fixpoint each_settled (intersects : Polygon -> Polygon -> bool)
    (pre l : list Polygon) : Prop :=
  match l with
  | [] => True
  | p :: r =>
      gravity_pass intersects (map bounds pre) pre p = (p, false)
      /\ each_settled intersects (pre ++ [p]) r
  end.

(** The sheet holds the polygons of the placed entries with their boxes,
    each at rest with respect to the earlier ones. *)
Definition at_rest (intersects : Polygon -> Polygon -> bool)
    (s : NestingAlgorithm * locals) : Prop :=
  placed_bounds (snd s) = map bounds (placed_polys (snd s))
  /\ placed_polys (snd s) = map poly (placed_items (fst s))
  /\ each_settled intersects [] (placed_polys (snd s)).

(** [s] is [s'] with the entries [a] and [b] in front of its two lists. *)
Definition ahead (a b : list item) (s s' : NestingAlgorithm * locals) : Prop :=
  fabric_width (fst s) = fabric_width (fst s')
  /\ max_length (fst s) = max_length (fst s')
  /\ placed_items (fst s) = a ++ placed_items (fst s')
  /\ unplaced_items (fst s) = b ++ unplaced_items (fst s')
  /\ placed_polys (snd s) = placed_polys (snd s')
  /\ placed_bounds (snd s) = placed_bounds (snd s')
  /\ polls (snd s) = polls (snd s').

(** Some orientation of the polygon passes the size guard
    [if w > max_length or h > fabric_width: continue]. *)
Definition fits (fw ml : Q) (p : Polygon) : bool :=
  existsb (fun v => let '(_, w, h) := oriented p (fst v) (snd v) in
                    negb (Py.Qlt_bool ml w || Py.Qlt_bool fw h))
          variants.

(** The calls to [progress_cb] number the panels from 1, pass the number of
    panels, and pass a beginning of the list [placed]. *)
Definition progress_ok (total : nat) (placed : list item)
    (calls : list (list item * nat * nat)) : Prop :=
  map (fun c => snd (fst c)) calls = seq 1 (List.length calls)
  /\ Forall (fun c => snd c = total) calls
  /\ Forall (fun c => exists rest, placed = fst (fst c) ++ rest) calls.

End Layout.

(* ------------------------------------------------------------------ *)
(** ** The page script around the engine *)

Module Page.
Import Geometry Nesting.

(** *** Metrics *)

(** [round(x, ndigits)]: the nearest multiple of [10 ** -ndigits], and the
    even one of two that are equally near. *)
Definition round (x : Q) (ndigits : nat) : Q :=
  let m := inject_Z (10 ^ Z.of_nat ndigits) in
  let s := x * m in
  let f := Qfloor s in
  let n := match (s - inject_Z f) ?= (1 # 2) with
           | Lt => f
           | Gt => (f + 1)%Z
           | Eq => if Z.even f then f else (f + 1)%Z
           end in
  Qred (inject_Z n / m).

(** [max(i["poly"].bounds[2] for i in placed_items)] on a list that is not
    empty. *)
Definition used_length (i : item) (rest : list item) : Q :=
  list_max (maxx (bounds (poly i))) (map (fun j => maxx (bounds (poly j))) rest).

(** [sum(i["poly"].area for i in placed_items)] *)
Definition total_area (placed_items : list item) : Q :=
  fold_left Qplus (map (fun j => area (poly j)) placed_items) 0.

(** [calc_metrics]; [None] is the [ZeroDivisionError] of the division by
    [used_len * fabric_width]. *)
Definition calc_metrics (placed_items : list item) (fabric_width : Q) : option (Q * Q) :=
  match placed_items with
  | [] => Some (0, 0)
  | i :: rest =>
      let used_len := used_length i rest in
      if Py.Qlt_bool 0 used_len then
        if Qeq_bool (used_len * fabric_width) 0 then None
        else Some (round used_len 2,
                   round (total_area placed_items / (used_len * fabric_width) * 100) 2)
      else Some (round used_len 2, round 0 2)
  end.

(** *** The panels handed to the engine *)

(** [math.ceil(oqty / layers)]; [None] is the [ZeroDivisionError]. *)
Definition marker_qty (oqty layers : Z) : option Z :=
  if (layers =? 0)%Z then None
  else Some (Qceiling (inject_Z oqty / inject_Z layers)).

(** [qty_values.get(style, 1)] *)
Definition qty_of (qty_values : list (string * Z)) (st : string) : Z :=
  match find (fun kv => String.eqb (fst kv) st) qty_values with
  | Some kv => snd kv
  | None => 1%Z
  end.

(** The loop over the rows of the selected material: [marker_qty] copies
    of each row, in the order of the rows. *)
Fixpoint patterns_to_nest (rows : list item) (qty_values : list (string * Z)) (layers : Z)
  : option (list item) :=
  match rows with
  | [] => Some []
  | row :: rows' =>
      match marker_qty (qty_of qty_values (style row)) layers with
      | None => None
      | Some m =>
          option_map (app (repeat row (Z.to_nat m)))
                     (patterns_to_nest rows' qty_values layers)
      end
  end.

(** *** The session state *)

(** The values the script keeps in [st.session_state]. *)
Inductive value : Type :=
| Records (l : list item)
| Frame (rows : list (list (string * string)))
| Num (q : Q)
| Flag (b : bool)
| Text (s : string).

(** A dict with string keys, in insertion order. *)
Definition state : Type := list (string * value).

(** [k in st.session_state] *)
Definition contains (s : state) (k : string) : bool :=
  existsb (fun kv => String.eqb (fst kv) k) s.

Definition defaults : state :=
  [ ("xml_data", Records []);
    ("bom_data", Frame []);
    ("merged_data", Frame []);
    ("placed_items", Records []);
    ("unplaced_items", Records []);
    ("scale_factor", Num 1);
    ("nesting_running", Flag false);
    ("nesting_done", Flag false);
    ("cancel_requested", Flag false);
    ("progress", Num 0);
    ("used_length", Num 0);
    ("efficiency", Num 0);
    ("status_msg", Text EmptyString) ]%string.

(** [_init_state]: a key that is absent is a new key, which a dict puts
    last. *)
Definition _init_state (session_state : state) : state :=
  fold_left (fun s kv => if contains s (fst kv) then s else s ++ [kv])
            defaults session_state.

(** *** Colours of the styles *)

Definition COLORS : list string :=
  [ "rgba(100,149,237,0.65)"; "rgba(80,200,120,0.65)"; "rgba(255,127,80,0.65)";
    "rgba(255,215,0,0.65)"; "rgba(218,112,214,0.65)"; "rgba(64,224,208,0.65)";
    "rgba(255,182,193,0.65)"; "rgba(152,251,152,0.65)" ]%string.

Definition colors_mpl : list string :=
  [ "lightblue"; "lightgreen"; "lightsalmon"; "wheat"; "plum"; "cyan"; "pink"; "lime" ]%string.

(** [s in l] for strings. *)
Definition mem (s : string) (l : list string) : bool := existsb (String.eqb s) l.

(** [list(dict.fromkeys(l))]: the first occurrences, in order. *)
Fixpoint fromkeys (seen l : list string) : list string :=
  match l with
  | [] => seen
  | x :: r => if mem x seen then fromkeys seen r else fromkeys (seen ++ [x]) r
  end.

Definition unique_styles (placed_items : list item) : list string :=
  fromkeys [] (map style placed_items).

Definition enumerate {A : Type} (l : list A) : list (nat * A) :=
  combine (seq 0 (List.length l)) l.

(** [{s: palette[i % len(palette)] for i, s in enumerate(unique_styles)}] *)
Definition color_map (palette unique : list string) : list (string * string) :=
  map (fun '(i, s) => (s, nth (i mod List.length palette) palette EmptyString))
      (enumerate unique).

(** [d.get(k, default)] *)
Definition dict_get (d : list (string * string)) (k default : string) : string :=
  match find (fun kv => String.eqb (fst kv) k) d with
  | Some kv => snd kv
  | None => default
  end.

(** [style_color] of [build_figure] and the fill colour of an entry. *)
Definition style_color (placed_items : list item) : list (string * string) :=
  color_map COLORS (unique_styles placed_items).

Definition fillcolor (placed_items : list item) (it : item) : string :=
  dict_get (style_color placed_items) (style it) "rgba(160,160,160,0.5)".

(** [sc] of [build_pdf_bytes] and the face colour of an entry. *)
Definition sc (placed_items : list item) : list (string * string) :=
  color_map colors_mpl (unique_styles placed_items).

Definition fc (placed_items : list item) (it : item) : string :=
  dict_get (sc placed_items) (style it) "gray".

(** *** The header of the BOM *)

Definition unique_aliases : list string :=
  [ "PIECE UNIQUE"; "PIECE_UNIQUE"; "PIECEUNIQUE"; "PATTERN ID"; "PATTERN_ID";
    "UNIQUE ID"; "UNIQUE_ID" ]%string.

Definition code_aliases : list string :=
  [ "ITEM CODE"; "ITEM_CODE"; "ITEMCODE" ]%string.

Definition name_aliases : list string :=
  [ "ITEM NAME"; "ITEM_NAME"; "ITEMNAME"; "MATERIAL NAME"; "자재명"; "MATERIAL"; "ITEM" ]%string.

(** [rmap] with the three flags of the loop over the columns. *)
Record renaming : Type := mkRenaming {
  rmap : list (string * string);
  found_u : bool;
  found_i : bool;
  found_n : bool
}.

(** The body of [for col in bom.columns]. *)
Definition rename_step (r : renaming) (col : string) : renaming :=
  if negb (found_u r) && mem col unique_aliases then
    mkRenaming (rmap r ++ [(col, "UNIQUE_ID"%string)]) true (found_i r) (found_n r)
  else if negb (found_i r) && mem col code_aliases then
    mkRenaming (rmap r ++ [(col, "ITEM_CODE"%string)]) (found_u r) true (found_n r)
  else if negb (found_n r) && mem col name_aliases then
    mkRenaming (rmap r ++ [(col, "ITEM_NAME"%string)]) (found_u r) (found_i r) true
  else r.

Definition build_rmap (columns : list string) : renaming :=
  fold_left rename_step columns (mkRenaming [] false false false).

(** [bom.rename(columns=rmap)]: the header after the renaming. *)
Definition renamed (columns : list string) : list string :=
  map (fun c => dict_get (rmap (build_rmap columns)) c c) columns.

(** Neither of the two columns the merge needs is missing. *)
Definition accepted (columns : list string) : bool :=
  mem "UNIQUE_ID" (renamed columns) && mem "ITEM_CODE" (renamed columns).

(** Every entry of [rmap] maps an alias to the name of its group. *)
Definition typed (r : renaming) : Prop :=
  forall c t, In (c, t) (rmap r) ->
    (t = "UNIQUE_ID"%string /\ mem c unique_aliases = true)
    \/ (t = "ITEM_CODE"%string /\ mem c code_aliases = true)
    \/ (t = "ITEM_NAME"%string /\ mem c name_aliases = true).

(** A flag is set only together with an entry of [rmap]. *)
Definition flagged (r : renaming) : Prop :=
  (found_u r = true -> exists c, In (c, "UNIQUE_ID"%string) (rmap r))
  /\ (found_i r = true -> exists c, In (c, "ITEM_CODE"%string) (rmap r)).

End Page.

(* ------------------------------------------------------------------ *)
(** ** The copy of the placement loop in the page script *)

Module Inline.
Import Geometry Nesting.

(** The variables of the loop: [current_placed], [current_unplaced],
    [placed_polys] and [placed_bounds]. *)
Record vars : Type := mkVars {
  current_placed : list item;
  current_unplaced : list item;
  sheet_polys : list Polygon;
  sheet_bounds : list Bounds
}.

(** The calls of the script that write to the page: [st.progress(0, ...)],
    [st.empty()], [progress_bar.progress(pct, text=...)] with the numbers
    its text shows, and [st.plotly_chart(build_figure(current_placed,
    ...), ...)]. *)
Inductive output : Type :=
| Bar
| Slot
| Progress (pct : Q) (done total : nat) (used_l eff : Q)
| Chart (current_placed : list item).

Section Loop.

Variable intersects : Polygon -> Polygon -> bool.

(** Whether the call to the page library that is number [n] of the run
    returns.  [false] is an exception that leaves the script: the library
    refuses the call, or it stops the run of the script because the user
    has used a widget of the page. *)
Variable returns : nat -> output -> bool.

Variable fabric_width_cm max_length : Q.

(** The body of the loop for one panel, up to the update of the lists.  The
    orientation loop has no poll; its body is the one of
    [NestingAlgorithm.run], with the conflict loops written as [any(...)]. *)
Definition place_item (s : vars) (it : item) : vars :=
  let start_y := start_y_of (style it) fabric_width_cm in
  let b := fold_left (try_variant intersects fabric_width_cm max_length
                        (sheet_bounds s) (sheet_polys s) start_y (poly it))
                     variants (mkBest None None) in
  match best_placement b with
  | Some pl =>
      mkVars (current_placed s ++ [mkItem (style it) (id it) (pl_poly pl)])
             (current_unplaced s)
             (sheet_polys s ++ [pl_poly pl])
             (sheet_bounds s ++ [pl_bounds pl])
  | None =>
      mkVars (current_placed s) (current_unplaced s ++ [it])
             (sheet_polys s) (sheet_bounds s)
  end.

(** [for idx, item in enumerate(algo.patterns)].  [cancel_requested] is
    [st.session_state.cancel_requested], which the loop reads and nothing
    in the loop writes.  After the update of the lists the body calls
    [calc_metrics], moves the progress bar and, after every fifth panel and
    after the last, draws the chart.  [n] counts the calls to the page
    library; [None] is an exception, which ends the script. *)
Fixpoint loop (cancel_requested : bool) (total idx : nat) (items : list item)
    (s : vars) (n : nat) : option (vars * nat) :=
  match items with
  | [] => Some (s, n)
  | it :: rest =>
      if cancel_requested then Some (s, n)
      else
        let s' := place_item s it in
        match Page.calc_metrics (current_placed s') fabric_width_cm with
        | None => None
        | Some (used_l, eff) =>
            let pct := inject_Z (Z.of_nat (S idx)) / inject_Z (Z.of_nat total) in
            if returns n (Progress pct (S idx) total used_l eff) then
              if (S idx mod 5 =? 0)%nat || (S idx =? total)%nat then
                if returns (S n) (Chart (current_placed s'))
                then loop cancel_requested total (S idx) rest s' (S (S n))
                else None
              else loop cancel_requested total (S idx) rest s' (S n)
            else None
        end
  end.

(** The script from the line that clears [cancel_requested] to the end of
    the loop: the progress bar and the two slots are created, the panels
    are sorted, and the loop runs. *)
Definition nest (patterns_to_nest : list item) : option (vars * nat) :=
  if returns 0 Bar then
    if returns 1 Slot then
      if returns 2 Slot then
        let patterns := sort_desc patterns_to_nest in
        loop false (List.length patterns) 0 patterns (mkVars [] [] [] []) 3
      else None
    else None
  else None.

End Loop.

(** The variables of the loop hold what the object and the locals of
    [NestingAlgorithm.run] hold. *)
Definition agrees (fw ml : Q) (s : NestingAlgorithm * locals) (v : vars) : Prop :=
  placed_items (fst s) = current_placed v
  /\ unplaced_items (fst s) = current_unplaced v
  /\ placed_polys (snd s) = sheet_polys v
  /\ placed_bounds (snd s) = sheet_bounds v
  /\ fabric_width (fst s) = fw
  /\ max_length (fst s) = ml.

End Inline.

(* ------------------------------------------------------------------ *)
(** ** Facts about the Python numerics *)

Module PyFacts.
Import Py.

Lemma Qlt_bool_iff (a b : Q) : Qlt_bool a b = true <-> a < b.
Proof.
  unfold Qlt_bool. rewrite negb_true_iff.
  split; intro H.
  - apply Qnot_le_lt. intro Hle. apply Qle_bool_iff in Hle. congruence.
  - destruct (Qle_bool b a) eqn:E; [|reflexivity].
    apply Qle_bool_iff in E. exfalso. exact (Qlt_not_le _ _ H E).
Qed.

Lemma Qlt_bool_false_iff (a b : Q) : Qlt_bool a b = false <-> b <= a.
Proof.
  unfold Qlt_bool. rewrite negb_false_iff. apply Qle_bool_iff.
Qed.

Lemma int_nonneg (q : Q) : 0 <= q -> int q = Qfloor q.
Proof.
  intro H. unfold int.
  destruct (Qlt_bool q 0) eqn:E; [|reflexivity].
  apply Qlt_bool_iff in E. exfalso. exact (Qlt_not_le _ _ E H).
Qed.

Lemma in_range (a b k : Z) : In k (range a b) <-> (a <= k < b)%Z.
Proof.
  unfold range. rewrite in_map_iff. split.
  - intros [i [<- Hi]]. apply in_seq in Hi. lia.
  - intros Hk. exists (Z.to_nat (k - a)). split; [lia|].
    apply in_seq. lia.
Qed.

Lemma range_nil (a b : Z) : (b <= a)%Z -> range a b = [].
Proof.
  intro H. unfold range. replace (Z.to_nat (b - a)) with 0%nat by lia. reflexivity.
Qed.

Lemma range_cons (a b : Z) : (a < b)%Z -> range a b = a :: range (a + 1) b.
Proof.
  intro H. unfold range.
  replace (Z.to_nat (b - a)) with (S (Z.to_nat (b - (a + 1)))) by lia.
  cbn [seq map]. f_equal; [lia|].
  rewrite <- seq_shift, map_map.
  apply map_ext. intro i. lia.
Qed.

Lemma Forall2_Qeq_hd (l1 l2 : list Q) : Forall2 Qeq l1 l2 -> hd 0 l1 == hd 0 l2.
Proof. intros [|a b la lb Hab _]; [reflexivity | exact Hab]. Qed.

End PyFacts.

(* ------------------------------------------------------------------ *)
(** ** Facts about bounding boxes *)

Module GeometryFacts.
Import Geometry.

Lemma list_min_shift (d : Q) (l : list Q) :
  forall a a', a' == a + d ->
    list_min a' (map (fun x => Qred (x + d)) l) == list_min a l + d.
Proof.
  unfold list_min. induction l as [|x l IH]; intros a a' Ha; cbn [map fold_left].
  - exact Ha.
  - apply IH. rewrite Ha, Qred_correct. apply Q.plus_min_distr_r.
Qed.

Lemma list_max_shift (d : Q) (l : list Q) :
  forall a a', a' == a + d ->
    list_max a' (map (fun x => Qred (x + d)) l) == list_max a l + d.
Proof.
  unfold list_max. induction l as [|x l IH]; intros a a' Ha; cbn [map fold_left].
  - exact Ha.
  - apply IH. rewrite Ha, Qred_correct. apply Q.plus_max_distr_r.
Qed.

Lemma list_min_le_max (l : list Q) :
  forall a b, a <= b -> list_min a l <= list_max b l.
Proof.
  unfold list_min, list_max. induction l as [|x l IH]; intros a b Hab; cbn [fold_left].
  - exact Hab.
  - apply IH. apply Q.min_le_iff.
    destruct (Q.max_spec b x) as [[_ ->]|[_ ->]].
    + right. apply Qle_refl.
    + left. exact Hab.
Qed.

Lemma map_fst_shift (dx dy : Q) (ps : list point) :
  map fst (map (fun '(x, y) => (Qred (x + dx), Qred (y + dy))) ps)
  = map (fun x => Qred (x + dx)) (map fst ps).
Proof. induction ps as [|[x y] ps IH]; cbn [map fst snd]; [reflexivity | now f_equal]. Qed.

Lemma map_snd_shift (dx dy : Q) (ps : list point) :
  map snd (map (fun '(x, y) => (Qred (x + dx), Qred (y + dy))) ps)
  = map (fun y => Qred (y + dy)) (map snd ps).
Proof. induction ps as [|[x y] ps IH]; cbn [map fst snd]; [reflexivity | now f_equal]. Qed.

(** The bounding box moves with the polygon. *)
Lemma bounds_translate (p : Polygon) (dx dy : Q) :
  let b := bounds p in
  let b' := bounds (translate p dx dy) in
  minx b' == minx b + dx /\ miny b' == miny b + dy /\
  maxx b' == maxx b + dx /\ maxy b' == maxy b + dy.
Proof.
  destruct p as [[x0 y0] ps]. unfold bounds, translate, map_poly.
  cbn [first_pt more_pts fst snd minx miny maxx maxy].
  rewrite map_fst_shift, map_snd_shift.
  repeat split.
  - apply list_min_shift, Qred_correct.
  - apply list_min_shift, Qred_correct.
  - apply list_max_shift, Qred_correct.
  - apply list_max_shift, Qred_correct.
Qed.

(** A bounding box has non-negative extent. *)
Lemma bounds_extent (p : Polygon) :
  minx (bounds p) <= maxx (bounds p) /\ miny (bounds p) <= maxy (bounds p).
Proof.
  unfold bounds; cbn [minx miny maxx maxy].
  split; apply list_min_le_max, Qle_refl.
Qed.

End GeometryFacts.

(* ------------------------------------------------------------------ *)
(** ** Gravity compaction *)

Module GravityFacts.
Import Geometry Nesting PyFacts GeometryFacts.

Section Compaction.

Variable intersects : Polygon -> Polygon -> bool.
Variable pbs : list Bounds.
Variable pps : list Polygon.

Local Notation overlap := (overlap intersects pbs pps).
Local Notation shift := (shift intersects pbs pps).
Local Notation gravity_pass := (gravity_pass intersects pbs pps).
Local Notation gravity_loop := (gravity_loop intersects pbs pps).
Local Notation gravity := (gravity intersects pbs pps).

Lemma shift_inv (cp : Polygon) (xoff yoff : Q) (low : Bounds -> Q) (t : Polygon) :
  shift cp xoff yoff low = Some t ->
  t = translate cp xoff yoff /\ 0 <= low (bounds t) /\ overlap t = false.
Proof.
  unfold Nesting.shift. intro H.
  destruct (Qle_bool 0 (low (bounds (translate cp xoff yoff)))) eqn:Hlow; [|discriminate].
  destruct (Nesting.overlap intersects pbs pps (translate cp xoff yoff)) eqn:Hov; [discriminate|].
  injection H as <-. repeat split; [|exact Hov].
  now apply Qle_bool_iff.
Qed.

Lemma floor_half_step (q q' : Q) :
  q' == q + - (1 # 2) -> 0 <= q' ->
  (Z.to_nat (Qfloor (2 * q')) < Z.to_nat (Qfloor (2 * q)))%nat.
Proof.
  intros Hq Hpos.
  assert (H1 : 2 * q' == 2 * q - 1) by (rewrite Hq; ring).
  assert (Hb0 : (0 <= Qfloor (2 * q'))%Z).
  { rewrite <- (Qfloor_Z 0). apply Qfloor_resp_le.
    rewrite <- (Qmult_0_r 2). apply Qmult_le_l; [reflexivity | exact Hpos]. }
  assert (Hlt : (Qfloor (2 * q') < Qfloor (2 * q))%Z).
  { assert (Ha := Qfloor_le (2 * q')).
    assert (Hb := Qlt_floor (2 * q)).
    assert (Hc := Qfloor_le (2 * q)).
    assert (Hd := Qlt_floor (2 * q')).
    assert (He : (Qfloor (2 * q') + 1 <= Qfloor (2 * q))%Z).
    { rewrite <- (Qfloor_Z (Qfloor (2 * q') + 1)).
      apply Qfloor_resp_le. rewrite inject_Z_plus.
      apply Qle_trans with (2 * q' + 1).
      - apply Qplus_le_l. exact Ha.
      - rewrite H1. ring_simplify. apply Qle_refl. }
    lia. }
  lia.
Qed.

Lemma floor_same (q q' : Q) :
  q' == q + 0 -> Z.to_nat (Qfloor (2 * q')) = Z.to_nat (Qfloor (2 * q)).
Proof.
  intro H. assert (E : 2 * q' == 2 * q) by (rewrite H; ring).
  now rewrite E.
Qed.

Lemma shift_down_slack (cp t : Polygon) :
  shift cp 0 (- (1 # 2)) miny = Some t -> (slack t < slack cp)%nat.
Proof.
  intro H. apply shift_inv in H. destruct H as [-> [Hlow _]].
  destruct (bounds_translate cp 0 (- (1 # 2))) as [Hx [Hy _]].
  unfold slack.
  rewrite (floor_same _ _ Hx).
  assert (Hd := floor_half_step _ _ Hy Hlow). lia.
Qed.

Lemma shift_left_slack (cp t : Polygon) :
  shift cp (- (1 # 2)) 0 minx = Some t -> (slack t < slack cp)%nat.
Proof.
  intro H. apply shift_inv in H. destruct H as [-> [Hlow _]].
  destruct (bounds_translate cp (- (1 # 2)) 0) as [Hx [Hy _]].
  unfold slack.
  rewrite (floor_same _ _ Hy).
  assert (Hd := floor_half_step _ _ Hx Hlow). lia.
Qed.

(** A pass that moves the polygon uses up slack; a pass that does not
    move it leaves it as it is. *)
Lemma gravity_pass_spec (cp : Polygon) :
  match gravity_pass cp with
  | (cp', true) => (slack cp' < slack cp)%nat
  | (cp', false) => cp' = cp
  end.
Proof.
  unfold Nesting.gravity_pass.
  destruct (shift cp 0 (- (1 # 2)) miny) as [t|] eqn:Hd.
  - apply shift_down_slack in Hd.
    destruct (shift t (- (1 # 2)) 0 minx) as [u|] eqn:Hl.
    + apply shift_left_slack in Hl. lia.
    + exact Hd.
  - destruct (shift cp (- (1 # 2)) 0 minx) as [u|] eqn:Hl.
    + now apply shift_left_slack in Hl.
    + reflexivity.
Qed.

(** With more passes allowed than there is slack, the loop ends, and it
    ends in a polygon that a further pass leaves where it is. *)
Lemma gravity_loop_terminates (fuel : nat) :
  forall cp, (slack cp < fuel)%nat ->
    exists r, gravity_loop fuel cp = Some r /\ gravity_pass r = (r, false).
Proof.
  induction fuel as [|fuel IH]; intros cp Hf; [lia|].
  cbn [Nesting.gravity_loop].
  assert (Hp := gravity_pass_spec cp).
  destruct (gravity_pass cp) as [cp' [|]] eqn:E.
  - apply IH. lia.
  - subst cp'. exists cp. split; [reflexivity | exact E].
Qed.

(** The result does not depend on the bound once the loop has ended. *)
Lemma gravity_loop_more (fuel : nat) :
  forall cp r, gravity_loop fuel cp = Some r ->
    forall fuel', (fuel <= fuel')%nat -> gravity_loop fuel' cp = Some r.
Proof.
  induction fuel as [|fuel IH]; intros cp r H fuel' Hle; [discriminate|].
  destruct fuel' as [|fuel']; [lia|].
  cbn [Nesting.gravity_loop] in *.
  destruct (gravity_pass cp) as [cp' [|]].
  - apply (IH _ _ H). lia.
  - exact H.
Qed.

Lemma gravity_loop_enough (cp : Polygon) :
  exists r, gravity_loop (gravity_fuel cp) cp = Some r /\ gravity_pass r = (r, false).
Proof. apply gravity_loop_terminates. unfold gravity_fuel. lia. Qed.

Lemma gravity_is_loop (cp : Polygon) :
  gravity_loop (gravity_fuel cp) cp = Some (gravity cp).
Proof.
  unfold Nesting.gravity.
  destruct (gravity_loop_enough cp) as [r [-> _]]. reflexivity.
Qed.

(** Every polygon the loop passes through is conflict-free when the first is. *)
Lemma gravity_pass_free (cp : Polygon) :
  overlap cp = false -> overlap (fst (gravity_pass cp)) = false.
Proof.
  intro H0. unfold Nesting.gravity_pass.
  destruct (shift cp 0 (- (1 # 2)) miny) as [t|] eqn:Hd.
  - apply shift_inv in Hd. destruct Hd as [_ [_ Ht]].
    destruct (shift t (- (1 # 2)) 0 minx) as [u|] eqn:Hl.
    + apply shift_inv in Hl. now destruct Hl as [_ [_ Hu]].
    + exact Ht.
  - destruct (shift cp (- (1 # 2)) 0 minx) as [u|] eqn:Hl.
    + apply shift_inv in Hl. now destruct Hl as [_ [_ Hu]].
    + exact H0.
Qed.

Lemma gravity_loop_free (fuel : nat) :
  forall cp r, overlap cp = false -> gravity_loop fuel cp = Some r -> overlap r = false.
Proof.
  induction fuel as [|fuel IH]; intros cp r H0 H; [discriminate|].
  cbn [Nesting.gravity_loop] in H.
  assert (Hp := gravity_pass_free cp H0).
  destruct (gravity_pass cp) as [cp' [|]]; cbn [fst] in Hp.
  - exact (IH _ _ Hp H).
  - now injection H as <-.
Qed.

Lemma gravity_free (cp : Polygon) :
  overlap cp = false -> overlap (gravity cp) = false.
Proof.
  intro H. exact (gravity_loop_free _ _ _ H (gravity_is_loop cp)).
Qed.

End Compaction.
End GravityFacts.

(* ------------------------------------------------------------------ *)
(** ** The position search *)

Module SearchFacts.
Import Geometry Nesting PyFacts GeometryFacts GravityFacts.

Section Search.

Variable intersects : Polygon -> Polygon -> bool.
Variable fw ml : Q.
Variable pbs : list Bounds.
Variable pps : list Polygon.

Local Notation overlap := (overlap intersects pbs pps).
Local Notation gravity := (gravity intersects pbs pps).
Local Notation first_free := (first_free intersects pbs pps).
Local Notation scan_x := (scan_x intersects pbs pps).
Local Notation search := (search intersects fw ml pbs pps).
Local Notation candidate := (candidate intersects fw ml pbs pps).
Local Notation try_variant := (try_variant intersects fw ml pbs pps).

Lemma first_free_inv (vpoly : Polygon) (x : Q) (yc : list Q) (cp : Polygon) :
  first_free vpoly x yc = Some cp ->
  exists y, In y yc /\ cp = translate vpoly x y /\ overlap cp = false.
Proof.
  induction yc as [|y yc IH]; cbn [Nesting.first_free]; [discriminate|].
  destruct (overlap (translate vpoly x y)) eqn:E.
  - intro H. destruct (IH H) as [y' [Hin Hy']]. exists y'. split; [now right | exact Hy'].
  - intro H. injection H as <-. exists y. repeat split; [now left | exact E].
Qed.

Lemma scan_x_inv (bs : option Q) (vpoly : Polygon) (yc : list Q) (xis : list Z) (cp : Polygon) :
  scan_x bs vpoly yc xis = Some cp ->
  exists xi y, In xi xis /\ In y yc
               /\ cp = translate vpoly (inject_Z xi * step_x) y /\ overlap cp = false.
Proof.
  induction xis as [|xi xis IH]; cbn [Nesting.scan_x]; [discriminate|].
  destruct (exceeds (inject_Z xi * step_x) bs); [discriminate|].
  destruct (first_free vpoly (inject_Z xi * step_x) yc) as [c|] eqn:E.
  - intro H. injection H as <-. apply first_free_inv in E.
    destruct E as [y [Hy Hc]]. exists xi, y. repeat split; [now left | exact Hy | apply Hc | apply Hc].
  - intro H. destruct (IH H) as [xi' [y [Hx Hr]]]. exists xi', y. split; [now right | exact Hr].
Qed.

(** The pruned scan finds nothing, or what the scan without pruning finds. *)
Lemma scan_x_pruned (bs : option Q) (vpoly : Polygon) (yc : list Q) (xis : list Z) :
  scan_x bs vpoly yc xis = None
  \/ scan_x bs vpoly yc xis = scan_x None vpoly yc xis.
Proof.
  induction xis as [|xi xis IH]; cbn [Nesting.scan_x exceeds]; [now left|].
  destruct (exceeds (inject_Z xi * step_x) bs); [now left|].
  destruct (first_free vpoly (inject_Z xi * step_x) yc); [now right | exact IH].
Qed.

Lemma search_pruned (bs : option Q) (start_y : Z) (base : Polygon) (v : Z * Z) :
  search bs start_y base v = None
  \/ search bs start_y base v = search None start_y base v.
Proof.
  unfold Nesting.search.
  destruct (oriented base (fst v) (snd v)) as [[vpoly w] h].
  destruct (Py.Qlt_bool ml w || Py.Qlt_bool fw h); [now left|].
  apply scan_x_pruned.
Qed.

Lemma candidate_pruned (bs : option Q) (start_y : Z) (base : Polygon) (v : Z * Z) :
  candidate bs start_y base v = None
  \/ candidate bs start_y base v = candidate None start_y base v.
Proof.
  unfold Nesting.candidate.
  destruct (search_pruned bs start_y base v) as [-> | ->]; [now left | now right].
Qed.

(** A raw candidate is a translate of the normalised orientation and is
    conflict-free. *)
Lemma search_inv (bs : option Q) (start_y : Z) (base : Polygon) (v : Z * Z) (cp : Polygon) :
  search bs start_y base v = Some cp ->
  exists x y, cp = translate (fst (fst (oriented base (fst v) (snd v)))) x y
              /\ overlap cp = false.
Proof.
  unfold Nesting.search.
  destruct (oriented base (fst v) (snd v)) as [[vpoly w] h]. cbn [fst].
  destruct (Py.Qlt_bool ml w || Py.Qlt_bool fw h); [discriminate|].
  intro H. apply scan_x_inv in H. destruct H as [xi [y [_ [_ [-> Hov]]]]].
  now exists (inject_Z xi * step_x), y.
Qed.

Lemma candidate_free (bs : option Q) (start_y : Z) (base : Polygon) (v : Z * Z) (cp : Polygon) :
  candidate bs start_y base v = Some cp -> overlap cp = false.
Proof.
  unfold Nesting.candidate.
  destruct (search bs start_y base v) as [c|] eqn:E; [|discriminate].
  cbn [option_map]. intro H. injection H as <-.
  apply search_inv in E. destruct E as [x [y [_ Hov]]].
  now apply gravity_free.
Qed.

(** The orientation step in terms of the candidate. *)
Lemma try_variant_eq (start_y : Z) (base : Polygon) (b : best) (v : Z * Z) :
  try_variant start_y base b v =
  match candidate (best_score b) start_y base v with
  | None => b
  | Some cp =>
      if improves (score cp) (best_score b)
      then mkBest (Some (score cp)) (Some (mkPlacement cp (bounds cp)))
      else b
  end.
Proof.
  unfold Nesting.try_variant, Nesting.candidate.
  destruct (search (best_score b) start_y base v); reflexivity.
Qed.

Lemma try_variant_in_step (start_y : Z) (base : Polygon) (b : best) (v : Z * Z) :
  in_step b -> in_step (try_variant start_y base b v).
Proof.
  intro Hb. rewrite try_variant_eq.
  destruct (candidate (best_score b) start_y base v) as [cp|]; [|exact Hb].
  destruct (improves (score cp) (best_score b)); [|exact Hb].
  unfold Nesting.in_step; cbn. now split.
Qed.

(** A property of every compacted candidate is a property of the placement
    kept by the orientation step. *)
Lemma try_variant_keeps (P : Polygon -> Prop) (start_y : Z) (base : Polygon)
    (b : best) (v : Z * Z) :
  (forall cp, candidate (best_score b) start_y base v = Some cp -> P cp) ->
  (forall pl, best_placement b = Some pl -> P (pl_poly pl) /\ pl_bounds pl = bounds (pl_poly pl)) ->
  forall pl, best_placement (try_variant start_y base b v) = Some pl ->
             P (pl_poly pl) /\ pl_bounds pl = bounds (pl_poly pl).
Proof.
  intros Hc Hb pl. rewrite try_variant_eq.
  destruct (candidate (best_score b) start_y base v) as [cp|]; [|apply Hb].
  destruct (improves (score cp) (best_score b)); [|apply Hb].
  cbn. intro H. injection H as <-. cbn. split; [now apply Hc | reflexivity].
Qed.

End Search.
End SearchFacts.

(* ------------------------------------------------------------------ *)
(** ** Selection of the best orientation *)

Module SelectFacts.
Import Geometry Nesting PyFacts GeometryFacts GravityFacts SearchFacts.

Lemma app_tail_split {A : Type} (l pre post : list A) (x y : A) :
  l ++ [x] = pre ++ y :: post ->
  (post = [] /\ pre = l /\ y = x)
  \/ exists post0, post = post0 ++ [x] /\ l = pre ++ y :: post0.
Proof.
  intro H. destruct (exists_last (l := y :: post)) as [q [z Hq]]; [discriminate|].
  destruct post as [|p post].
  - left. apply app_inj_tail in H. destruct H as [-> ->]. now repeat split.
  - right. destruct (exists_last (l := p :: post)) as [post0 [z0 Hp]]; [discriminate|].
    exists post0. rewrite Hp in H.
    change (pre ++ y :: post0 ++ [z0]) with (pre ++ (y :: post0) ++ [z0]) in H.
    rewrite app_assoc in H. apply app_inj_tail in H. destruct H as [-> ->].
    now split.
Qed.

Section Select.

Variable intersects : Polygon -> Polygon -> bool.
Variable fw ml : Q.
Variable pbs : list Bounds.
Variable pps : list Polygon.
Variable start_y : Z.
Variable base : Polygon.

Local Notation candidate := (candidate intersects fw ml pbs pps).
Local Notation try := (try_variant intersects fw ml pbs pps start_y base).

Lemma improves_false (sc : Q) (bs : option Q) :
  improves sc bs = false -> exists s, bs = Some s /\ s <= sc.
Proof.
  destruct bs as [s|]; cbn; [|discriminate].
  intro H. exists s. split; [reflexivity|]. now apply Qlt_bool_false_iff.
Qed.

Lemma improves_true (sc s : Q) : improves sc (Some s) = true -> sc <= s.
Proof. cbn. intro H. apply Qlt_bool_iff in H. now apply Qlt_le_weak. Qed.

(** What the orientation loop keeps: the first candidate of least score
    among those the orientations produced. *)
Lemma fold_select (vs : list (Z * Z)) (b : best) :
  in_step b ->
  let b' := fold_left try vs b in
  in_step b'
  /\ (forall s, best_score b = Some s -> exists s', best_score b' = Some s' /\ s' <= s)
  /\ (forall pre v post c,
        vs = pre ++ v :: post ->
        candidate (best_score (fold_left try pre b)) start_y base v = Some c ->
        exists s', best_score b' = Some s' /\ s' <= score c)
  /\ (b' = b
      \/ exists pre v post cp,
           vs = pre ++ v :: post
           /\ candidate (best_score (fold_left try pre b)) start_y base v = Some cp
           /\ b' = mkBest (Some (score cp)) (Some (mkPlacement cp (bounds cp)))).
Proof.
  intro Hb. induction vs as [|v vs IH] using rev_ind; cbn zeta.
  - cbn [fold_left]. split; [|split; [|split]].
    + exact Hb.
    + intros s Hs. exists s. split; [exact Hs | apply Qle_refl].
    + intros pre v post c H. destruct pre; discriminate.
    + now left.
  - cbn zeta in IH. destruct IH as [Hstep [Hmono [Hmin Hsel]]].
    rewrite fold_left_app. cbn [fold_left].
    set (b1 := fold_left try vs b) in *.
    assert (Hcase : (try b1 v = b1 /\
                     forall c, candidate (best_score b1) start_y base v = Some c ->
                               exists s1, best_score b1 = Some s1 /\ s1 <= score c)
                    \/ exists cp, candidate (best_score b1) start_y base v = Some cp
                                  /\ improves (score cp) (best_score b1) = true
                                  /\ try b1 v = mkBest (Some (score cp))
                                                       (Some (mkPlacement cp (bounds cp)))).
    { rewrite try_variant_eq.
      destruct (candidate (best_score b1) start_y base v) as [cp|] eqn:Ec.
      - destruct (improves (score cp) (best_score b1)) eqn:Ei.
        + right. now exists cp.
        + left. split; [reflexivity|]. intros c Hc. injection Hc as <-.
          now apply improves_false.
      - left. split; [reflexivity | discriminate]. }
    destruct Hcase as [[Heq Hge] | [cp [Hc [Hi Heq]]]]; rewrite Heq.
    + split; [|split; [|split]].
      * exact Hstep.
      * exact Hmono.
      * intros pre v' post c Hsplit Hcand.
        apply app_tail_split in Hsplit.
        destruct Hsplit as [[-> [-> ->]] | [post0 [-> ->]]].
        -- now apply Hge.
        -- now apply (Hmin pre v' post0).
      * destruct Hsel as [Hsame | [pre [v' [post [cp [-> [Hc Hb']]]]]]]; [now left|].
        right. exists pre, v', (post ++ [v]), cp.
        rewrite <- app_assoc. now repeat split.
    + assert (Hle : forall s1, best_score b1 = Some s1 -> score cp <= s1).
      { intros s1 Hs1. rewrite Hs1 in Hi. now apply improves_true. }
      split; [|split; [|split]].
      * unfold Nesting.in_step; cbn. now split.
      * intros s Hs. destruct (Hmono s Hs) as [s1 [Hs1 Hle1]].
        exists (score cp). split; [reflexivity|].
        apply (Qle_trans _ s1); [now apply Hle | exact Hle1].
      * intros pre v' post c Hsplit Hcand.
        exists (score cp). split; [reflexivity|].
        apply app_tail_split in Hsplit.
        destruct Hsplit as [[-> [-> ->]] | [post0 [-> ->]]].
        -- fold b1 in Hcand. rewrite Hc in Hcand. injection Hcand as <-. apply Qle_refl.
        -- destruct (Hmin pre v' post0 c eq_refl Hcand) as [s1 [Hs1 Hle1]].
           apply (Qle_trans _ s1); [now apply Hle | exact Hle1].
      * right. exists vs, v, [], cp. now repeat split.
Qed.

(** Nothing is kept exactly when no orientation has a candidate. *)
Lemma fold_none (vs : list (Z * Z)) :
  best_placement (fold_left try vs (mkBest None None)) = None
  <-> forall v, In v vs -> candidate None start_y base v = None.
Proof.
  assert (Hstep0 : in_step (mkBest None None)) by exact I.
  induction vs as [|v vs IH] using rev_ind.
  - cbn. split; [intros _ v [] | reflexivity].
  - rewrite fold_left_app. cbn [fold_left].
    destruct (fold_select vs _ Hstep0) as [Hstep [_ [_ _]]]. cbn zeta in Hstep.
    set (b1 := fold_left try vs (mkBest None None)) in *.
    rewrite try_variant_eq.
    destruct (best_placement b1) as [pl|] eqn:Ep.
    + (* something was found before *)
      assert (Hkeep : best_placement
                (match candidate (best_score b1) start_y base v with
                 | Some cp => if improves (score cp) (best_score b1)
                              then mkBest (Some (score cp)) (Some (mkPlacement cp (bounds cp)))
                              else b1
                 | None => b1 end) <> None).
      { destruct (candidate (best_score b1) start_y base v) as [cp|];
          [destruct (improves (score cp) (best_score b1))|]; cbn; congruence. }
      split; [intro H; now elim Hkeep|].
      intro Hall. exfalso.
      assert (Hnone : Some pl = None).
      { apply IH. intros v' Hv'. apply Hall, in_or_app. now left. }
      discriminate.
    + unfold Nesting.in_step in Hstep. rewrite Ep in Hstep.
      destruct (best_score b1) as [s|] eqn:Es; [contradiction|].
      destruct (candidate None start_y base v) as [cp|] eqn:Ec.
      * cbn. split; [discriminate|].
        intro Hall. assert (Hv : In v (vs ++ [v])) by (apply in_or_app; right; now left).
        specialize (Hall v Hv). congruence.
      * split; [|intros _; first [exact Ep | reflexivity]].
        intros _ v' Hv'. apply in_app_or in Hv'. destruct Hv' as [Hv'|[<-|[]]].
        -- now apply IH.
        -- exact Ec.
Qed.

End Select.
End SelectFacts.

(* ------------------------------------------------------------------ *)
(** ** The panel loop *)

Module RunFacts.
Import Geometry Nesting PyFacts GeometryFacts GravityFacts SearchFacts SelectFacts.

Lemma ForallOrdPairs_snoc {A : Type} (R : A -> A -> Prop) (l : list A) (x : A) :
  ForallOrdPairs R l -> Forall (fun a => R a x) l -> ForallOrdPairs R (l ++ [x]).
Proof.
  induction 1 as [|a l Ha Hl IH]; intro Hx; cbn.
  - constructor; constructor.
  - inversion Hx; subst. constructor.
    + apply Forall_app. split; [exact Ha | now constructor].
    + now apply IH.
Qed.

Lemma ForallOrdPairs_impl {A : Type} (R R' : A -> A -> Prop) (l : list A) :
  (forall a b, R a b -> R' a b) -> ForallOrdPairs R l -> ForallOrdPairs R' l.
Proof.
  intro H. induction 1 as [|a l Ha Hl IH]; constructor; [|exact IH].
  revert Ha. apply Forall_impl. intro b. apply H.
Qed.

Lemma combine_map_self {A B : Type} (f : A -> B) (l : list A) :
  combine (map f l) l = map (fun x => (f x, x)) l.
Proof. induction l as [|a l IH]; cbn; [reflexivity | now rewrite IH]. Qed.

Section Run.

Variable intersects : Polygon -> Polygon -> bool.
Variable cancel_flag : option (nat -> bool).
Variable progress_cb : bool.

Local Notation poll := (poll cancel_flag).
Local Notation orient_loop := (orient_loop intersects cancel_flag).
Local Notation process_item := (process_item intersects cancel_flag progress_cb).
Local Notation run_loop := (run_loop intersects cancel_flag progress_cb).
Local Notation run := (run intersects cancel_flag progress_cb).

Lemma poll_quiet (n : nat) : never_requested cancel_flag -> fst (poll n) = false.
Proof.
  unfold never_requested, Nesting.poll. destruct cancel_flag as [f|]; cbn; auto.
Qed.

Lemma orient_loop_quiet (fw ml : Q) (pbs : list Bounds) (pps : list Polygon)
    (start_y : Z) (base : Polygon) (vs : list (Z * Z)) :
  never_requested cancel_flag ->
  forall n b,
    snd (orient_loop fw ml pbs pps start_y base vs n b)
    = fold_left (try_variant intersects fw ml pbs pps start_y base) vs b.
Proof.
  intro Hq. induction vs as [|v vs IH]; intros n b; cbn [Nesting.orient_loop fold_left].
  - reflexivity.
  - assert (Hp := poll_quiet n Hq). destruct (poll n) as [c n']. cbn in Hp. subst c.
    apply IH.
Qed.

Lemma orient_loop_keeps (P : Polygon -> Prop) (fw ml : Q) (pbs : list Bounds)
    (pps : list Polygon) (start_y : Z) (base : Polygon) (vs : list (Z * Z)) :
  (forall bs v cp, In v vs ->
     candidate intersects fw ml pbs pps bs start_y base v = Some cp -> P cp) ->
  forall n b,
    (forall pl, best_placement b = Some pl ->
                P (pl_poly pl) /\ pl_bounds pl = bounds (pl_poly pl)) ->
    forall pl, best_placement (snd (orient_loop fw ml pbs pps start_y base vs n b)) = Some pl ->
               P (pl_poly pl) /\ pl_bounds pl = bounds (pl_poly pl).
Proof.
  induction vs as [|v vs IH]; intros Hc n b Hb; cbn [Nesting.orient_loop].
  - exact Hb.
  - destruct (poll n) as [[|] n']; [exact Hb|].
    apply IH.
    + intros bs v' cp Hv'. apply Hc. now right.
    + apply try_variant_keeps; [|exact Hb]. intro cp. apply Hc. now left.
Qed.

(** What the body of the panel loop does to the object and the sheet. *)
Lemma process_item_spec (total idx : nat) (self : NestingAlgorithm) (l : locals) (it : item) :
  let r := orient_loop (fabric_width self) (max_length self) (placed_bounds l)
             (placed_polys l) (start_y_of (style it) (fabric_width self)) (poly it)
             variants (polls l) (mkBest None None) in
  let s' := process_item total idx (self, l) it in
  patterns (fst s') = patterns self
  /\ fabric_width (fst s') = fabric_width self
  /\ max_length (fst s') = max_length self
  /\ polls (snd s') = fst r
  /\ match best_placement (snd r) with
     | Some pl =>
         placed_items (fst s') = placed_items self ++ [mkItem (style it) (id it) (pl_poly pl)]
         /\ unplaced_items (fst s') = unplaced_items self
         /\ placed_polys (snd s') = placed_polys l ++ [pl_poly pl]
         /\ placed_bounds (snd s') = placed_bounds l ++ [pl_bounds pl]
     | None =>
         placed_items (fst s') = placed_items self
         /\ unplaced_items (fst s') = unplaced_items self ++ [it]
         /\ placed_polys (snd s') = placed_polys l
         /\ placed_bounds (snd s') = placed_bounds l
     end.
Proof.
  cbn zeta. unfold Nesting.process_item.
  destruct (orient_loop _ _ _ _ _ _ _ _ _) as [n b]. cbn [fst snd].
  destruct (best_placement b) as [pl|]; cbn; repeat split; reflexivity.
Qed.

(** Each panel that is processed adds one entry to one of the two lists. *)
Lemma process_item_tags (total idx : nat) (s : NestingAlgorithm * locals) (it : item) :
  let s' := process_item total idx s it in
  Permutation (map tag (placed_items (fst s')) ++ map tag (unplaced_items (fst s')))
              (tag it :: map tag (placed_items (fst s)) ++ map tag (unplaced_items (fst s))).
Proof.
  destruct s as [self l]. cbn zeta.
  destruct (process_item_spec total idx self l it) as [_ [_ [_ [_ H]]]]. cbn zeta in H.
  destruct (best_placement _) as [pl|]; destruct H as [-> [-> _]]; cbn [fst].
  - rewrite map_app. cbn [map]. unfold tag at 2; cbn [style id].
    rewrite <- app_assoc. cbn [app].
    symmetry. apply Permutation_middle.
  - rewrite map_app. cbn [map]. rewrite app_assoc.
    symmetry. apply Permutation_cons_append.
Qed.

End Run.
End RunFacts.

(* ------------------------------------------------------------------ *)
(** ** Partition and cancellation *)

Module PartitionFacts.
Import Geometry Nesting PyFacts GeometryFacts GravityFacts SearchFacts SelectFacts RunFacts.

Lemma insert_desc_perm (x : item) (l : list item) : Permutation (insert_desc x l) (x :: l).
Proof.
  induction l as [|y l IH]; cbn [insert_desc]; [reflexivity|].
  destruct (key_lt (sort_key y) (sort_key x)); [reflexivity|].
  rewrite IH. apply perm_swap.
Qed.

Lemma sort_desc_perm (l : list item) : Permutation (sort_desc l) l.
Proof.
  unfold sort_desc.
  assert (H : forall acc, Permutation (fold_left (fun a x => insert_desc x a) l acc) (acc ++ l)).
  { induction l as [|x l IH]; intro acc; cbn [fold_left].
    - now rewrite app_nil_r.
    - rewrite IH, insert_desc_perm. cbn [app]. apply Permutation_middle. }
  exact (H []).
Qed.

Section Partition.

Variable intersects : Polygon -> Polygon -> bool.
Variable progress_cb : bool.

Lemma run_loop_quiet_tags (cancel_flag : option (nat -> bool)) (items : list item) :
  never_requested cancel_flag ->
  forall total idx s,
    Permutation (recorded (run_loop intersects cancel_flag progress_cb total idx items s))
                (map tag items ++ recorded s).
Proof.
  intro Hq. induction items as [|it rest IH]; intros total idx s; cbn [Nesting.run_loop map app].
  - reflexivity.
  - assert (Hp := poll_quiet cancel_flag (polls (snd s)) Hq).
    destruct (poll cancel_flag (polls (snd s))) as [c n']. cbn in Hp. subst c.
    rewrite IH. unfold recorded at 1. rewrite process_item_tags. cbn [fst].
    fold (recorded s). symmetry. apply Permutation_middle.
Qed.

Lemma orient_loop_polls (f : nat -> bool) (j : nat) (fw ml : Q) (pbs : list Bounds)
    (pps : list Polygon) (start_y : Z) (base : Polygon) (vs : list (Z * Z)) :
  (forall i, (i < j)%nat -> f i = false) -> f j = true ->
  forall n b, (n <= j)%nat ->
    fst (orient_loop intersects (Some f) fw ml pbs pps start_y base vs n b)
    = if (j <? n + List.length vs)%nat then S j else (n + List.length vs)%nat.
Proof.
  intros Hlo Hj. induction vs as [|v vs IH]; intros n b Hn;
    cbn [Nesting.orient_loop Nesting.poll List.length].
  - cbn [fst]. destruct (Nat.ltb_spec j (n + 0)); lia.
  - destruct (Nat.eq_dec n j) as [->|Hne].
    + rewrite Hj. cbn [fst]. destruct (Nat.ltb_spec j (j + S (List.length vs))); lia.
    + rewrite (Hlo n) by lia. rewrite IH by lia.
      destruct (Nat.ltb_spec j (S n + List.length vs));
        destruct (Nat.ltb_spec j (n + S (List.length vs))); lia.
Qed.

Lemma run_loop_cancel_tags (f : nat -> bool) (j : nat) (items : list item) :
  (forall i, (i < j)%nat -> f i = false) ->
  (forall i, (j <= i)%nat -> f i = true) ->
  forall total idx s,
    Permutation (recorded (run_loop intersects (Some f) progress_cb total idx items s))
                (map tag (firstn (let_through j (polls (snd s))) items) ++ recorded s).
Proof.
  intros Hlo Hhi. induction items as [|it rest IH]; intros total idx s.
  - cbn [Nesting.run_loop]. now rewrite firstn_nil.
  - cbn [Nesting.run_loop Nesting.poll]. unfold let_through.
    destruct (Nat.ltb_spec j (polls (snd s))) as [Hgt|Hle].
    + rewrite Hhi by lia. reflexivity.
    + destruct (Nat.eq_dec (polls (snd s)) j) as [He|Hne].
      * rewrite He, Hhi by lia. rewrite Nat.sub_diag. reflexivity.
      * rewrite Hlo by lia.
        set (s1 := (fst s, mkLocals (placed_polys (snd s)) (placed_bounds (snd s))
                                    (S (polls (snd s))) (progress (snd s)))).
        rewrite IH.
        assert (Hpolls : polls (snd (process_item intersects (Some f) progress_cb total idx s1 it))
                         = if (j <? S (polls (snd s)) + 8)%nat then S j
                           else (S (polls (snd s)) + 8)%nat).
        { destruct (process_item_spec intersects (Some f) progress_cb total idx (fst s1) (snd s1) it)
            as [_ [_ [_ [Hp _]]]]. cbn zeta in Hp.
          change (fst s1, snd s1) with s1 in Hp. rewrite Hp.
          rewrite (orient_loop_polls f j) by (auto; cbn; lia).
          reflexivity. }
        rewrite Hpolls.
        assert (Hrec : Permutation (recorded (process_item intersects (Some f) progress_cb total idx s1 it))
                                   (tag it :: recorded s)).
        { unfold recorded at 1. rewrite process_item_tags. reflexivity. }
        rewrite Hrec. unfold let_through.
        destruct (Nat.ltb_spec j (S (polls (snd s)) + 8)) as [Hin|Hout].
        -- replace (j <? S j)%nat with true by (symmetry; apply Nat.ltb_lt; lia).
           replace ((j - polls (snd s) + 8) / 9)%nat with 1%nat.
           2:{ apply Nat.div_unique with (r := (j - polls (snd s) - 1)%nat); lia. }
           cbn [firstn map app]. reflexivity.
        -- destruct (Nat.ltb_spec j (S (polls (snd s)) + 8)); [lia|].
           replace ((j - polls (snd s) + 8) / 9)%nat
             with (S ((j - (S (polls (snd s)) + 8) + 8) / 9))%nat.
           2:{ replace (j - polls (snd s) + 8)%nat
                 with ((j - (S (polls (snd s)) + 8) + 8) + 1 * 9)%nat by lia.
               rewrite Nat.div_add by lia. lia. }
           cbn [firstn map app]. symmetry.
           rewrite <- Permutation_middle. reflexivity.
Qed.

End Partition.
End PartitionFacts.

(* ------------------------------------------------------------------ *)
(** ** The sheet invariant and pruning *)

Module SheetFacts.
Import Geometry Nesting PyFacts GeometryFacts GravityFacts SearchFacts SelectFacts RunFacts.

Lemma ForallOrdPairs_map {A B : Type} (f : A -> B) (R : B -> B -> Prop) (l : list A) :
  ForallOrdPairs R (map f l) -> ForallOrdPairs (fun a b => R (f a) (f b)) l.
Proof.
  induction l as [|a l IH]; cbn [map]; intro H.
  - constructor.
  - inversion H; subst. constructor.
    + now apply Forall_map.
    + now apply IH.
Qed.

Section Sheet.

Variable intersects : Polygon -> Polygon -> bool.
Variable cancel_flag : option (nat -> bool).
Variable progress_cb : bool.

Local Notation process_item := (process_item intersects cancel_flag progress_cb).
Local Notation run_loop := (run_loop intersects cancel_flag progress_cb).
Local Notation run := (run intersects cancel_flag progress_cb).

Lemma overlap_false (pps : list Polygon) (cp : Polygon) :
  overlap intersects (map bounds pps) pps cp = false ->
  Forall (fun a => conflict intersects cp a = false) pps.
Proof.
  unfold overlap. rewrite combine_map_self. intro H.
  apply Forall_forall. intros a Ha.
  destruct (conflict intersects cp a) eqn:E; [|reflexivity].
  assert (Hex : existsb (fun '(pb, pp) => negb (boxes_apart (bounds cp) pb) && intersects cp pp)
                        (map (fun x => (bounds x, x)) pps) = true).
  { apply existsb_exists. exists (bounds a, a). split; [|exact E].
    apply in_map_iff. now exists a. }
  congruence.
Qed.

Lemma process_item_sheet (total idx : nat) (s : NestingAlgorithm * locals) (it : item) :
  sheet_ok intersects s -> sheet_ok intersects (process_item total idx s it).
Proof.
  destruct s as [self l]. intros [Hb [Hp Hf]]. cbn [fst snd] in *.
  destruct (process_item_spec intersects cancel_flag progress_cb total idx self l it)
    as [_ [_ [_ [_ H]]]]. cbn zeta in H.
  destruct (best_placement _) as [pl|] eqn:Ebest.
  - destruct H as [Hpi [_ [Hpp Hpb]]].
    assert (Hpl : overlap intersects (placed_bounds l) (placed_polys l) (pl_poly pl) = false
                  /\ pl_bounds pl = bounds (pl_poly pl)).
    { assert (Hb0 : forall q, best_placement (mkBest None None) = Some q ->
                overlap intersects (placed_bounds l) (placed_polys l) (pl_poly q) = false
                /\ pl_bounds q = bounds (pl_poly q)).
      { intros q Hq. discriminate Hq. }
      refine (orient_loop_keeps intersects cancel_flag
                (fun cp => overlap intersects (placed_bounds l) (placed_polys l) cp = false)
                _ _ _ _ _ _ _ _ _ _ Hb0 pl Ebest).
      intros bs v cp _. apply candidate_free. }
    destruct Hpl as [Hfree Hbd].
    unfold Nesting.sheet_ok. rewrite Hpi, Hpp, Hpb. repeat split.
    + rewrite map_app, Hb, Hbd. reflexivity.
    + rewrite map_app, Hp. reflexivity.
    + apply ForallOrdPairs_snoc; [exact Hf|].
      rewrite Hb in Hfree. now apply overlap_false.
  - destruct H as [Hpi [_ [Hpp Hpb]]].
    unfold Nesting.sheet_ok. rewrite Hpi, Hpp, Hpb. now repeat split.
Qed.

Lemma run_loop_sheet (items : list item) :
  forall total idx s, sheet_ok intersects s -> sheet_ok intersects (run_loop total idx items s).
Proof.
  induction items as [|it rest IH]; intros total idx s Hs; cbn [Nesting.run_loop].
  - exact Hs.
  - destruct (poll cancel_flag (polls (snd s))) as [[|] n'].
    + exact Hs.
    + apply IH, process_item_sheet. exact Hs.
Qed.

Lemma run_sheet (pats : list item) (fw ml : Q) : sheet_ok intersects (run (init pats fw ml)).
Proof.
  unfold Nesting.run. apply run_loop_sheet.
  unfold Nesting.sheet_ok; cbn. repeat split. constructor.
Qed.

(** When the exact test never reports an intersection of polygons whose
    boxes are apart, no placed polygon intersects an earlier one. *)
Corollary run_disjoint_when_boxes_decide (pats : list item) (fw ml : Q) :
  (forall a b, boxes_apart (bounds a) (bounds b) = true -> intersects a b = false) ->
  ForallOrdPairs (fun a b => intersects b a = false)
                 (placed_polys (snd (run (init pats fw ml)))).
Proof.
  intro Hbox. destruct (run_sheet pats fw ml) as [_ [_ Hf]].
  revert Hf. apply ForallOrdPairs_impl.
  intros a b Hab. unfold conflict in Hab. apply andb_false_iff in Hab.
  destruct Hab as [Hab | Hab]; [|exact Hab].
  apply negb_false_iff in Hab. now apply Hbox.
Qed.

End Sheet.

Section Pruning.

Variable intersects : Polygon -> Polygon -> bool.
Variable fw ml : Q.
Variable pbs : list Bounds.
Variable pps : list Polygon.
Variable start_y : Z.
Variable base : Polygon.

Local Notation candidate := (candidate intersects fw ml pbs pps).
Local Notation try := (try_variant intersects fw ml pbs pps start_y base).
Local Notation try_unpruned := (try_variant_unpruned intersects fw ml pbs pps start_y base).

Lemma try_no_worse (bu bp : best) (v : Z * Z) :
  no_worse bu bp -> no_worse (try_unpruned bu v) (try bp v).
Proof.
  unfold Nesting.no_worse. intro H. rewrite try_variant_eq. unfold Nesting.try_variant_unpruned.
  pose proof (candidate_pruned intersects fw ml pbs pps (best_score bp) start_y base v) as Hp.
  destruct (candidate None start_y base v) as [c|] eqn:Eu.
  2:{ destruct Hp as [Hp | Hp]; rewrite Hp; exact H. }
  destruct (best_score bu) as [su|] eqn:Esu;
    destruct (best_score bp) as [sp|] eqn:Esp; try contradiction.
  - cbn [improves].
    destruct (Py.Qlt_bool (score c) su) eqn:Eiu; cbn [best_score]; rewrite ?Esu;
      (destruct Hp as [Hp | Hp]; rewrite Hp;
       [| destruct (Py.Qlt_bool (score c) sp) eqn:Eip]; cbn [best_score]; rewrite ?Esp).
    + apply Qlt_bool_iff in Eiu. apply Qlt_le_weak. now apply (Qlt_le_trans _ su).
    + apply Qle_refl.
    + apply Qlt_bool_iff in Eiu. apply Qlt_le_weak. now apply (Qlt_le_trans _ su).
    + exact H.
    + now apply Qlt_bool_false_iff in Eiu.
    + exact H.
  - rewrite Eu. cbn [improves best_score]. apply Qle_refl.
Qed.

Lemma try_unpruned_in_step (b : best) (v : Z * Z) :
  in_step b -> in_step (try_unpruned b v).
Proof.
  intro Hb. unfold Nesting.try_variant_unpruned.
  destruct (candidate None start_y base v) as [cp|]; [|exact Hb].
  destruct (improves (score cp) (best_score b)); [|exact Hb].
  unfold Nesting.in_step; cbn. now split.
Qed.

Lemma fold_no_worse (vs : list (Z * Z)) :
  forall bu bp, in_step bu -> in_step bp -> no_worse bu bp ->
    let bu' := fold_left try_unpruned vs bu in
    let bp' := fold_left try vs bp in
    in_step bu' /\ in_step bp' /\ no_worse bu' bp'.
Proof.
  induction vs as [|v vs IH]; intros bu bp Hu Hp H; cbn [fold_left].
  - now repeat split.
  - apply IH.
    + now apply try_unpruned_in_step.
    + now apply try_variant_in_step.
    + now apply try_no_worse.
Qed.

(** The two searches agree on whether the panel is placed, and the score
    of the pruned one is not the smaller. *)
Lemma fold_no_worse_result (vs : list (Z * Z)) (bu bp : best) :
  bu = fold_left try_unpruned vs (mkBest None None) ->
  bp = fold_left try vs (mkBest None None) ->
  (best_placement bp = None <-> best_placement bu = None)
  /\ (forall sp su, best_score bp = Some sp -> best_score bu = Some su -> su <= sp).
Proof.
  intros Eu Ep.
  destruct (fold_no_worse vs (mkBest None None) (mkBest None None) I I I) as [Hu [Hp Hw]].
  cbv zeta in Hu, Hp, Hw. rewrite <- Eu in Hu, Hw. rewrite <- Ep in Hp, Hw.
  clear Eu Ep. unfold Nesting.in_step in Hu, Hp. unfold Nesting.no_worse in Hw.
  destruct bu as [[su|] [plu|]]; destruct bp as [[sp|] [plp|]];
    cbn [best_score best_placement] in *; try contradiction.
  - split; [split; discriminate|].
    intros sp' su' Hsp Hsu. injection Hsp as <-. injection Hsu as <-. exact Hw.
  - split; [split; reflexivity|]. intros sp' su' Hsp. discriminate Hsp.
Qed.

End Pruning.
End SheetFacts.

(* ------------------------------------------------------------------ *)
(** ** Lane order and the empty sheet *)

Module LaneFacts.
Import Geometry Nesting PyFacts GeometryFacts GravityFacts SearchFacts SelectFacts RunFacts.

Lemma div3_nonneg (q : Q) : 0 <= q -> 0 <= q / 3.
Proof.
  intro H. unfold Qdiv. apply Qmult_le_0_compat; [exact H|]. discriminate.
Qed.

Lemma floor_nonneg (q : Q) : 0 <= q -> (0 <= Qfloor q)%Z.
Proof. intro H. rewrite <- (Qfloor_Z 0). now apply Qfloor_resp_le. Qed.

Lemma int_div_step (s : Z) : (0 < s)%Z -> Py.int (inject_Z s / step_y) = (s / 3)%Z.
Proof.
  intro Hs. rewrite int_nonneg.
  - symmetry. apply (Zdiv_Qdiv s 3).
  - apply div3_nonneg. change 0 with (inject_Z 0). rewrite <- Zle_Qle. lia.
Qed.

Lemma grid_le (k : Z) (q : Q) : (k <= Qfloor (q / 3))%Z <-> y_of k <= q.
Proof.
  unfold y_of, step_y. split; intro H.
  - assert (H1 : inject_Z k <= q / 3).
    { apply Qle_trans with (inject_Z (Qfloor (q / 3))); [now rewrite <- Zle_Qle | apply Qfloor_le]. }
    apply (Qmult_le_r _ _ 3) in H1; [|reflexivity].
    assert (E : q / 3 * 3 == q) by (field).
    now rewrite E in H1.
  - rewrite <- (Qfloor_Z k). apply Qfloor_resp_le.
    apply (Qmult_le_r _ _ 3); [reflexivity|].
    assert (E : q / 3 * 3 == q) by (field).
    now rewrite E.
Qed.

Lemma style_a_suffix (st : string) :
  String.eqb st "Style_A" = true -> Py.endswith st "_A" = true.
Proof. intro H. apply String.eqb_eq in H. subst st. reflexivity. Qed.

Lemma start_y_lane_a (st : string) (fw : Q) :
  Py.endswith st "_A" = true -> start_y_of st fw = 0%Z.
Proof. intro H. unfold start_y_of. now rewrite H. Qed.

Lemma start_y_other (st : string) (fw : Q) :
  Py.endswith st "_A" = false -> 0 <= fw -> start_y_of st fw = Qfloor (fw / 2).
Proof.
  intros H Hfw. unfold start_y_of. rewrite H.
  destruct (String.eqb st "Style_A") eqn:E.
  - apply style_a_suffix in E. congruence.
  - cbn [orb]. apply int_nonneg.
    unfold Qdiv. apply Qmult_le_0_compat; [exact Hfw | discriminate].
Qed.

Lemma y_candidates_up (s : Z) (fw h : Q) :
  (s <= 0)%Z -> h <= fw ->
  y_candidates s fw h = map y_of (Py.range 0 (Qfloor ((fw - h) / 3) + 1)).
Proof.
  intros Hs Hh. unfold y_candidates.
  destruct (Z.ltb_spec 0 s); [lia|].
  rewrite int_nonneg; [reflexivity|].
  apply div3_nonneg. unfold Qminus. rewrite <- Qle_minus_iff. exact Hh.
Qed.

Lemma y_candidates_wrap (s : Z) (fw h : Q) :
  (0 < s)%Z -> h <= fw ->
  y_candidates s fw h
  = map y_of (Py.range (s / 3) (Qfloor ((fw - h) / 3) + 1))
    ++ map y_of (Py.range 0 (s / 3)).
Proof.
  intros Hs Hh. unfold y_candidates.
  destruct (Z.ltb_spec 0 s); [|lia].
  rewrite int_div_step by exact Hs.
  rewrite int_nonneg; [reflexivity|].
  apply div3_nonneg. unfold Qminus. rewrite <- Qle_minus_iff. exact Hh.
Qed.

Lemma y_candidates_nonempty (s : Z) (fw h : Q) :
  h <= fw -> y_candidates s fw h <> [].
Proof.
  intro Hh.
  assert (Hn : (0 <= Qfloor ((fw - h) / 3))%Z).
  { apply floor_nonneg, div3_nonneg. unfold Qminus. rewrite <- Qle_minus_iff. exact Hh. }
  destruct (Z.ltb_spec 0 s) as [Hs|Hs].
  - rewrite y_candidates_wrap by assumption.
    destruct (Z.eq_dec (s / 3) 0) as [E|E].
    + rewrite E, range_cons by lia. discriminate.
    + assert (0 <= s / 3)%Z by (apply Z.div_pos; lia).
      rewrite (range_cons 0 (s / 3)) by lia.
      intro H0. apply app_eq_nil in H0. destruct H0 as [_ H0]. discriminate.
  - rewrite y_candidates_up by assumption.
    rewrite range_cons by lia. discriminate.
Qed.

End LaneFacts.

Module EmptySheetFacts.
Import Geometry Nesting PyFacts GeometryFacts GravityFacts SearchFacts SelectFacts RunFacts LaneFacts.

Section EmptySheet.

Variable intersects : Polygon -> Polygon -> bool.
Variable fw ml : Q.

Lemma overlap_empty (cp : Polygon) : overlap intersects [] [] cp = false.
Proof. reflexivity. Qed.

Lemma first_free_empty (vpoly : Polygon) (x : Q) (yc : list Q) :
  yc <> [] -> exists cp, first_free intersects [] [] vpoly x yc = Some cp.
Proof.
  destruct yc as [|y yc]; [congruence|]. intros _.
  cbn [first_free]. rewrite overlap_empty. eauto.
Qed.

(** On an empty sheet every orientation that fits the sheet has a candidate. *)
Lemma search_empty (start_y : Z) (base : Polygon) (v : Z * Z) :
  snd (fst (oriented base (fst v) (snd v))) <= ml ->
  snd (oriented base (fst v) (snd v)) <= fw ->
  exists cp, search intersects fw ml [] [] None start_y base v = Some cp.
Proof.
  unfold search. destruct (oriented base (fst v) (snd v)) as [[vpoly w] h]. cbn [fst snd].
  intros Hw Hh.
  apply Qlt_bool_false_iff in Hw. apply Qlt_bool_false_iff in Hh as Hh'.
  rewrite Hw, Hh'. cbn [orb].
  assert (Hx : (0 <= Qceiling ((ml - w) / step_x))%Z).
  { rewrite <- (Qceiling_Z 0). apply Qceiling_resp_le.
    apply div3_nonneg. apply Qlt_bool_false_iff in Hw.
    unfold Qminus. rewrite <- Qle_minus_iff. exact Hw. }
  rewrite range_cons by lia. cbn [scan_x exceeds].
  destruct (first_free_empty vpoly (inject_Z 0 * step_x) (y_candidates start_y fw h))
    as [cp Hcp].
  - now apply y_candidates_nonempty.
  - rewrite Hcp. eauto.
Qed.

End EmptySheet.
End EmptySheetFacts.

(* ------------------------------------------------------------------ *)
(** ** Area under affine maps *)

Module AreaFacts.
Import Geometry.

Lemma sumQ_cons (x : Q) (l : list Q) : sumQ (x :: l) = x + sumQ l.
Proof. reflexivity. Qed.

Lemma combine_map_both {A B : Type} (f : A -> B) (l1 l2 : list A) :
  combine (map f l1) (map f l2) = map (fun e => (f (fst e), f (snd e))) (combine l1 l2).
Proof.
  revert l2. induction l1 as [|a l1 IH]; intros [|b l2]; cbn; try reflexivity.
  now rewrite IH.
Qed.

Lemma edges_map_poly (F : point -> point) (p : Polygon) :
  edges (map_poly F p) = map (fun e => (F (fst e), F (snd e))) (edges p).
Proof.
  unfold edges, coords, map_poly. cbn [first_pt more_pts].
  change (F (first_pt p) :: map F (more_pts p)) with (map F (first_pt p :: more_pts p)).
  change [F (first_pt p)] with (map F [first_pt p]).
  rewrite <- map_app. apply combine_map_both.
Qed.

(** The differences along a chain of vertices add up to the difference of
    its ends. *)
Lemma sum_dx_chain (ps : list point) :
  forall a z, sumQ (map (fun e => fst (snd e) - fst (fst e)) (combine (a :: ps) (ps ++ [z])))
              == fst z - fst a.
Proof.
  induction ps as [|p ps IH]; intros a z.
  - cbn. ring.
  - change (combine (a :: p :: ps) ((p :: ps) ++ [z]))
      with ((a, p) :: combine (p :: ps) (ps ++ [z])).
    rewrite map_cons, sumQ_cons, IH. cbn [fst snd]. ring.
Qed.

Lemma sum_dy_chain (ps : list point) :
  forall a z, sumQ (map (fun e => snd (snd e) - snd (fst e)) (combine (a :: ps) (ps ++ [z])))
              == snd z - snd a.
Proof.
  induction ps as [|p ps IH]; intros a z.
  - cbn. ring.
  - change (combine (a :: p :: ps) ((p :: ps) ++ [z]))
      with ((a, p) :: combine (p :: ps) (ps ++ [z])).
    rewrite map_cons, sumQ_cons, IH. cbn [fst snd]. ring.
Qed.

Section Affine.

Variable F : point -> point.
Variables a b d e tx ty : Q.
Hypothesis F_fst : forall p, fst (F p) == a * fst p + b * snd p + tx.
Hypothesis F_snd : forall p, snd (F p) == d * fst p + e * snd p + ty.

Lemma cross_affine (p q : point) :
  cross (F p) (F q)
  == (a * e - b * d) * cross p q
     + tx * (d * (fst q - fst p) + e * (snd q - snd p))
     - ty * (a * (fst q - fst p) + b * (snd q - snd p)).
Proof.
  unfold cross. rewrite !F_fst, !F_snd. ring.
Qed.

Lemma affine_sum_step (c0 x0 y0 C X Y S : Q) :
  S == (a * e - b * d) * C + tx * (d * X + e * Y) - ty * (a * X + b * Y) ->
  (a * e - b * d) * c0 + tx * (d * x0 + e * y0) - ty * (a * x0 + b * y0) + S
  == (a * e - b * d) * (c0 + C) + tx * (d * (x0 + X) + e * (y0 + Y))
     - ty * (a * (x0 + X) + b * (y0 + Y)).
Proof. intros ->. ring. Qed.

Lemma sum_cross_affine (es : list (point * point)) :
  sumQ (map (fun s => cross (F (fst s)) (F (snd s))) es)
  == (a * e - b * d) * sumQ (map (fun s => cross (fst s) (snd s)) es)
     + tx * (d * sumQ (map (fun s => fst (snd s) - fst (fst s)) es)
             + e * sumQ (map (fun s => snd (snd s) - snd (fst s)) es))
     - ty * (a * sumQ (map (fun s => fst (snd s) - fst (fst s)) es)
             + b * sumQ (map (fun s => snd (snd s) - snd (fst s)) es)).
Proof.
  induction es as [|s es IH].
  - cbn. ring.
  - rewrite !map_cons, !sumQ_cons.
    rewrite cross_affine. apply affine_sum_step. exact IH.
Qed.

(** An affine map scales the signed area by its determinant. *)
Lemma area2_affine_map (p : Polygon) :
  area2 (map_poly F p) == (a * e - b * d) * area2 p.
Proof.
  unfold area2. rewrite edges_map_poly, map_map. cbn [fst snd].
  rewrite sum_cross_affine.
  unfold edges, coords. rewrite sum_dx_chain, sum_dy_chain. ring.
Qed.

End Affine.

Lemma area2_affine_transform (p : Polygon) (a b d e tx ty : Q) :
  area2 (affine_transform p a b d e tx ty) == (a * e - b * d) * area2 p.
Proof.
  unfold affine_transform. apply area2_affine_map with (tx := tx) (ty := ty).
  - intros [x y]. cbn [fst snd]. apply Qred_correct.
  - intros [x y]. cbn [fst snd]. apply Qred_correct.
Qed.

Lemma area2_translate (p : Polygon) (tx ty : Q) :
  area2 (translate p tx ty) == area2 p.
Proof.
  unfold translate.
  rewrite (area2_affine_map _ 1 0 0 1 tx ty).
  - ring.
  - intros [x y]. cbn [fst snd]. rewrite Qred_correct. ring.
  - intros [x y]. cbn [fst snd]. rewrite Qred_correct. ring.
Qed.

Lemma area_translate (p : Polygon) (tx ty : Q) : area (translate p tx ty) == area p.
Proof. unfold area. now rewrite area2_translate. Qed.

Lemma area_scale_mirror (p : Polygon) : area (scale p (-1) 1) == area p.
Proof.
  unfold area, scale. destruct (centroid p) as [x0 y0].
  rewrite area2_affine_transform.
  assert (E : (-1 * 1 - 0 * 0) * area2 p == - area2 p) by ring.
  now rewrite E, Qabs_opp.
Qed.

Lemma area_rotate (p : Polygon) (angle : Z) :
  In angle [0; 90; 180; 270]%Z -> area (rotate p angle) == area p.
Proof.
  intro H. unfold area, rotate. destruct (centroid p) as [x0 y0].
  rewrite area2_affine_transform.
  assert (E : cosd angle * cosd angle - - sind angle * sind angle == 1).
  { cbn in H. destruct H as [<-|[<-|[<-|[<-|[]]]]]; reflexivity. }
  rewrite E. now rewrite Qmult_1_l.
Qed.

End AreaFacts.

(* ------------------------------------------------------------------ *)
(** ** Isometric images *)

Module IsometryFacts.
Import Geometry Nesting PyFacts GeometryFacts GravityFacts SearchFacts SelectFacts RunFacts
       PartitionFacts AreaFacts.

Lemma Forall2_same_map (f f' g : point -> point) (l0 : list point) :
  (forall q b, same_pt q (f b) -> same_pt (g q) (f' b)) ->
  forall l, Forall2 same_pt l (map f l0) -> Forall2 same_pt (map g l) (map f' l0).
Proof.
  intro Hstep. induction l0 as [|b l0 IH]; intros l H; inversion H; subst; cbn [map].
  - constructor.
  - constructor; [now apply Hstep | now apply IH].
Qed.

Lemma Forall2_same_pointwise (f g : point -> point) (l : list point) :
  (forall b, same_pt (g b) (f b)) -> Forall2 same_pt (map g l) (map f l).
Proof.
  intro H. induction l as [|b l IH]; cbn [map]; constructor; auto.
Qed.

Lemma coords_map_poly (F : point -> point) (p : Polygon) :
  coords (map_poly F p) = map F (coords p).
Proof. reflexivity. Qed.

Lemma variants_inv (v : Z * Z) :
  In v variants ->
  In (fst v) [0; 90; 180; 270]%Z /\ (snd v = 1%Z \/ snd v = (-1)%Z).
Proof.
  cbn. intro H.
  repeat (destruct H as [<- | H]; [cbn; intuition auto|]). contradiction.
Qed.

Lemma derived_translate (base q : Polygon) (tx ty : Q) :
  derived base q -> derived base (translate q tx ty).
Proof.
  intros [[angle [mirror [dx [dy [Hv Hq]]]]] Ha]. split.
  - exists angle, mirror, (dx + tx), (dy + ty). split; [exact Hv|].
    unfold translate. rewrite coords_map_poly.
    apply (Forall2_same_map (iso_pt angle mirror dx dy)); [|exact Hq].
    intros [qx qy] b [Hx Hy]. unfold same_pt, iso_pt in *. cbn [fst snd] in *.
    rewrite !Qred_correct, Hx, Hy. split; ring.
  - now rewrite area_translate.
Qed.

Lemma derived_oriented (base : Polygon) (v : Z * Z) :
  In v variants -> derived base (fst (fst (oriented base (fst v) (snd v)))).
Proof.
  intro Hv. destruct (variants_inv v Hv) as [Hangle Hmirror].
  destruct v as [angle mirror]. cbn [fst snd] in *.
  unfold oriented. cbn [fst].
  apply derived_translate.
  assert (Hrot : Forall2 same_pt (coords (rotate base angle))
                   (map (iso_pt angle 1
                           (fst (centroid base) - fst (centroid base) * cosd angle
                            + snd (centroid base) * sind angle)
                           (snd (centroid base) - fst (centroid base) * sind angle
                            - snd (centroid base) * cosd angle))
                        (coords base))).
  { unfold rotate. destruct (centroid base) as [x0 y0]. cbn [fst snd].
    unfold affine_transform. rewrite coords_map_poly.
    apply Forall2_same_pointwise. intros [x y].
    unfold same_pt, iso_pt. cbn [fst snd]. change (inject_Z 1) with 1.
    rewrite !Qred_correct. split; ring. }
  destruct Hmirror as [-> | ->].
  - cbn [Z.eqb]. split.
    + eexists angle, 1%Z, _, _. split; [exact Hv | exact Hrot].
    + now apply area_rotate.
  - change ((-1 =? -1)%Z) with true. cbv iota. split.
    + set (r := rotate base angle) in *.
      exists angle, (-1)%Z,
        (- (fst (centroid base) - fst (centroid base) * cosd angle
            + snd (centroid base) * sind angle)
         + (fst (centroid r) - fst (centroid r) * -1)),
        (snd (centroid base) - fst (centroid base) * sind angle
         - snd (centroid base) * cosd angle
         + (snd (centroid r) - snd (centroid r) * 1)).
      split; [exact Hv|].
      unfold scale. destruct (centroid r) as [x0 y0]. cbn [fst snd].
      unfold affine_transform. rewrite coords_map_poly.
      refine (Forall2_same_map _ _ _ _ _ _ Hrot).
      intros [qx qy] b [Hx Hy]. unfold same_pt, iso_pt in *. cbn [fst snd] in *.
      change (inject_Z 1) with 1 in *. change (inject_Z (-1)) with (-1).
      rewrite !Qred_correct, Hx, Hy. split; ring.
    + rewrite area_scale_mirror. now apply area_rotate.
Qed.

End IsometryFacts.

(* ------------------------------------------------------------------ *)
(** ** Provenance of the placed entries *)

Module TraceFacts.
Import Geometry Nesting PyFacts GeometryFacts GravityFacts SearchFacts SelectFacts RunFacts
       PartitionFacts AreaFacts IsometryFacts.

Section Trace.

Variable intersects : Polygon -> Polygon -> bool.
Variable cancel_flag : option (nat -> bool).
Variable progress_cb : bool.

Section Keep.

Variable P : Polygon -> Prop.
Hypothesis P_translate : forall q dx dy, P q -> P (translate q dx dy).
Variable pbs : list Bounds.
Variable pps : list Polygon.

Lemma gravity_pass_keeps (cp : Polygon) :
  P cp -> P (fst (gravity_pass intersects pbs pps cp)).
Proof.
  intro H. unfold gravity_pass.
  destruct (shift intersects pbs pps cp 0 (- (1 # 2)) miny) as [t|] eqn:Hd.
  - apply shift_inv in Hd. destruct Hd as [-> _].
    destruct (shift intersects pbs pps (translate cp 0 (- (1 # 2))) (- (1 # 2)) 0 minx)
      as [u|] eqn:Hl; cbn [fst].
    + apply shift_inv in Hl. destruct Hl as [-> _]. now apply P_translate, P_translate.
    + now apply P_translate.
  - destruct (shift intersects pbs pps cp (- (1 # 2)) 0 minx) as [u|] eqn:Hl; cbn [fst].
    + apply shift_inv in Hl. destruct Hl as [-> _]. now apply P_translate.
    + exact H.
Qed.

Lemma gravity_loop_keeps (fuel : nat) :
  forall cp r, P cp -> gravity_loop intersects pbs pps fuel cp = Some r -> P r.
Proof.
  induction fuel as [|fuel IH]; intros cp r H Hr; [discriminate|].
  cbn [gravity_loop] in Hr.
  assert (Hp := gravity_pass_keeps cp H).
  destruct (gravity_pass intersects pbs pps cp) as [cp' [|]]; cbn [fst] in Hp.
  - exact (IH _ _ Hp Hr).
  - now injection Hr as <-.
Qed.

Lemma gravity_keeps (cp : Polygon) : P cp -> P (gravity intersects pbs pps cp).
Proof.
  intro H. exact (gravity_loop_keeps _ _ _ H (gravity_is_loop intersects pbs pps cp)).
Qed.

End Keep.

Lemma candidate_derived (fw ml : Q) (pbs : list Bounds) (pps : list Polygon)
    (bs : option Q) (start_y : Z) (base : Polygon) (v : Z * Z) (cp : Polygon) :
  In v variants ->
  candidate intersects fw ml pbs pps bs start_y base v = Some cp -> derived base cp.
Proof.
  intros Hv. unfold candidate.
  destruct (search intersects fw ml pbs pps bs start_y base v) as [c|] eqn:E; [|discriminate].
  cbn [option_map]. intro H. injection H as <-.
  apply search_inv in E. destruct E as [x [y [-> _]]].
  apply gravity_keeps.
  - intros q dx dy. apply derived_translate.
  - apply derived_translate, derived_oriented, Hv.
Qed.

Lemma process_item_traced (pats : list item) (total idx : nat)
    (s : NestingAlgorithm * locals) (it : item) :
  In it pats ->
  Forall (traced pats) (placed_items (fst s)) ->
  Forall (traced pats)
         (placed_items (fst (process_item intersects cancel_flag progress_cb total idx s it))).
Proof.
  destruct s as [self l]. cbn [fst]. intros Hin Hall.
  destruct (process_item_spec intersects cancel_flag progress_cb total idx self l it)
    as [_ [_ [_ [_ H]]]]. cbn zeta in H.
  destruct (best_placement _) as [pl|] eqn:Ebest.
  - destruct H as [-> _]. apply Forall_app. split; [exact Hall|].
    constructor; [|constructor].
    exists it. cbn [style id poly]. repeat split; try exact Hin.
    all: assert (Hb0 : forall q, best_placement (mkBest None None) = Some q ->
                  derived (poly it) (pl_poly q) /\ pl_bounds q = bounds (pl_poly q))
           by (intros q Hq; discriminate Hq).
    all: assert (Hd : derived (poly it) (pl_poly pl) /\ pl_bounds pl = bounds (pl_poly pl)).
    1,3: refine (orient_loop_keeps intersects cancel_flag (derived (poly it))
                _ _ _ _ _ _ _ _ _ _ Hb0 pl Ebest);
         intros bs v cp Hv; now apply candidate_derived.
    all: apply Hd.
  - destruct H as [-> _]. exact Hall.
Qed.

Lemma run_loop_traced (pats items : list item) :
  (forall it, In it items -> In it pats) ->
  forall total idx s,
    Forall (traced pats) (placed_items (fst s)) ->
    Forall (traced pats)
           (placed_items (fst (run_loop intersects cancel_flag progress_cb total idx items s))).
Proof.
  induction items as [|it rest IH]; intros Hsub total idx s Hs; cbn [run_loop].
  - exact Hs.
  - destruct (poll cancel_flag (polls (snd s))) as [[|] n'].
    + exact Hs.
    + apply IH.
      * intros it' Hit'. apply Hsub. now right.
      * apply process_item_traced; [apply Hsub; now left | exact Hs].
Qed.

End Trace.
End TraceFacts.

(* ------------------------------------------------------------------ *)
(** ** The lower bounds of the placed polygons *)

Module LowerBoundFacts.
Import Geometry Nesting PyFacts GeometryFacts GravityFacts SearchFacts SelectFacts RunFacts
       LaneFacts.

Lemma y_of_nonneg (k : Z) : (0 <= k)%Z -> 0 <= y_of k.
Proof.
  intro H. unfold y_of, step_y. apply Qmult_le_0_compat; [|discriminate].
  change 0 with (inject_Z 0). now rewrite <- Zle_Qle.
Qed.

Lemma y_candidates_nonneg (s : Z) (fw h y : Q) :
  In y (y_candidates s fw h) -> 0 <= y.
Proof.
  unfold y_candidates. destruct (Z.ltb_spec 0 s) as [Hs|Hs].
  - rewrite int_div_step by exact Hs. intro H. apply in_app_or in H.
    assert (Ha : (0 <= s / 3)%Z) by (apply Z.div_pos; lia).
    destruct H as [H|H]; apply in_map_iff in H; destruct H as [k [<- Hk]];
      apply in_range in Hk; apply y_of_nonneg; lia.
  - intro H. apply in_map_iff in H. destruct H as [k [<- Hk]].
    apply in_range in Hk. apply y_of_nonneg. lia.
Qed.

Lemma oriented_at_origin (base : Polygon) (angle mirror : Z) :
  let vpoly := fst (fst (oriented base angle mirror)) in
  minx (bounds vpoly) == 0 /\ miny (bounds vpoly) == 0.
Proof.
  unfold oriented. cbn [fst].
  set (v := if (mirror =? -1)%Z then scale (rotate base angle) (-1) 1 else rotate base angle).
  destruct (bounds_translate v (- minx (bounds v)) (- miny (bounds v))) as [Hx [Hy _]].
  split; [rewrite Hx | rewrite Hy]; ring.
Qed.

Section LowerBound.

Variable intersects : Polygon -> Polygon -> bool.
Variable cancel_flag : option (nat -> bool).
Variable progress_cb : bool.

Lemma gravity_pass_quadrant (pbs : list Bounds) (pps : list Polygon) (cp : Polygon) :
  in_quadrant cp -> in_quadrant (fst (gravity_pass intersects pbs pps cp)).
Proof.
  assert (Hdown : forall q t, in_quadrant q ->
            shift intersects pbs pps q 0 (- (1 # 2)) miny = Some t -> in_quadrant t).
  { intros q t [Hqx Hqy] Hs. apply shift_inv in Hs. destruct Hs as [-> [Hlow _]].
    destruct (bounds_translate q 0 (- (1 # 2))) as [Hx _].
    split; [|exact Hlow]. rewrite Hx, Qplus_0_r. exact Hqx. }
  assert (Hleft : forall q t, in_quadrant q ->
            shift intersects pbs pps q (- (1 # 2)) 0 minx = Some t -> in_quadrant t).
  { intros q t [Hqx Hqy] Hs. apply shift_inv in Hs. destruct Hs as [-> [Hlow _]].
    destruct (bounds_translate q (- (1 # 2)) 0) as [_ [Hy _]].
    split; [exact Hlow|]. rewrite Hy, Qplus_0_r. exact Hqy. }
  intro H. unfold gravity_pass.
  destruct (shift intersects pbs pps cp 0 (- (1 # 2)) miny) as [t|] eqn:Hd.
  - apply (Hdown _ _ H) in Hd.
    destruct (shift intersects pbs pps t (- (1 # 2)) 0 minx) as [u|] eqn:Hl; cbn [fst].
    + exact (Hleft _ _ Hd Hl).
    + exact Hd.
  - destruct (shift intersects pbs pps cp (- (1 # 2)) 0 minx) as [u|] eqn:Hl; cbn [fst].
    + exact (Hleft _ _ H Hl).
    + exact H.
Qed.

Lemma gravity_loop_quadrant (pbs : list Bounds) (pps : list Polygon) (fuel : nat) :
  forall cp r, in_quadrant cp ->
    gravity_loop intersects pbs pps fuel cp = Some r -> in_quadrant r.
Proof.
  induction fuel as [|fuel IH]; intros cp r H Hr; [discriminate|].
  cbn [gravity_loop] in Hr.
  assert (Hp := gravity_pass_quadrant pbs pps cp H).
  destruct (gravity_pass intersects pbs pps cp) as [cp' [|]]; cbn [fst] in Hp.
  - exact (IH _ _ Hp Hr).
  - now injection Hr as <-.
Qed.

Lemma candidate_quadrant (fw ml : Q) (pbs : list Bounds) (pps : list Polygon)
    (bs : option Q) (start_y : Z) (base : Polygon) (v : Z * Z) (cp : Polygon) :
  candidate intersects fw ml pbs pps bs start_y base v = Some cp -> in_quadrant cp.
Proof.
  unfold candidate, search.
  destruct (oriented_at_origin base (fst v) (snd v)) as [H0x H0y]. cbn zeta in H0x, H0y.
  destruct (oriented base (fst v) (snd v)) as [[vpoly w] h]. cbn [fst] in H0x, H0y.
  destruct (Py.Qlt_bool ml w || Py.Qlt_bool fw h); [discriminate|].
  destruct (scan_x intersects pbs pps bs vpoly (y_candidates start_y fw h)
              (Py.range 0 (Qceiling ((ml - w) / step_x) + 1))) as [c|] eqn:E; [|discriminate].
  cbn [option_map]. intro H. injection H as <-.
  apply scan_x_inv in E. destruct E as [xi [y [Hxi [Hy [-> _]]]]].
  apply (gravity_loop_quadrant pbs pps _ _ _) with (2 := gravity_is_loop intersects pbs pps _).
  destruct (bounds_translate vpoly (inject_Z xi * step_x) y) as [Hx [Hy' _]].
  split.
  - rewrite Hx, H0x, Qplus_0_l. apply in_range in Hxi.
    unfold step_x. apply Qmult_le_0_compat; [|discriminate].
    change 0 with (inject_Z 0). rewrite <- Zle_Qle. lia.
  - rewrite Hy', H0y, Qplus_0_l. now apply y_candidates_nonneg in Hy.
Qed.

Lemma process_item_quadrant (total idx : nat) (s : NestingAlgorithm * locals) (it : item) :
  Forall (fun e => in_quadrant (poly e)) (placed_items (fst s)) ->
  Forall (fun e => in_quadrant (poly e))
         (placed_items (fst (process_item intersects cancel_flag progress_cb total idx s it))).
Proof.
  destruct s as [self l]. cbn [fst]. intro Hall.
  destruct (process_item_spec intersects cancel_flag progress_cb total idx self l it)
    as [_ [_ [_ [_ H]]]]. cbn zeta in H.
  destruct (best_placement _) as [pl|] eqn:Ebest.
  - destruct H as [-> _]. apply Forall_app. split; [exact Hall|].
    constructor; [|constructor]. cbn [poly].
    assert (Hb0 : forall q, best_placement (mkBest None None) = Some q ->
              in_quadrant (pl_poly q) /\ pl_bounds q = bounds (pl_poly q))
      by (intros q Hq; discriminate Hq).
    refine (proj1 (orient_loop_keeps intersects cancel_flag in_quadrant
                     _ _ _ _ _ _ _ _ _ _ Hb0 pl Ebest)).
    intros bs v cp _. apply candidate_quadrant.
  - destruct H as [-> _]. exact Hall.
Qed.

Lemma run_loop_quadrant (items : list item) :
  forall total idx s,
    Forall (fun e => in_quadrant (poly e)) (placed_items (fst s)) ->
    Forall (fun e => in_quadrant (poly e))
           (placed_items (fst (run_loop intersects cancel_flag progress_cb total idx items s))).
Proof.
  induction items as [|it rest IH]; intros total idx s Hs; cbn [run_loop].
  - exact Hs.
  - destruct (poll cancel_flag (polls (snd s))) as [[|] n'].
    + exact Hs.
    + apply IH, process_item_quadrant. exact Hs.
Qed.

(** The lower half of the boundary invariant: no placed polygon reaches
    below or to the left of the sheet. *)
Lemma placed_lower_bounds (pats : list item) (fw ml : Q) :
  Forall (fun e => 0 <= minx (bounds (poly e)) /\ 0 <= miny (bounds (poly e)))
         (placed_of intersects cancel_flag progress_cb (init pats fw ml)).
Proof.
  unfold placed_of, run. apply run_loop_quadrant. constructor.
Qed.

End LowerBound.
End LowerBoundFacts.

(* ------------------------------------------------------------------ *)
(** ** What the pruned search reaches *)

Module ReachFacts.
Import Geometry Nesting PyFacts GeometryFacts GravityFacts SearchFacts SelectFacts RunFacts
       LowerBoundFacts.

Lemma exceeds_up (x x' : Q) (bs : option Q) :
  x <= x' -> exceeds x bs = true -> exceeds x' bs = true.
Proof.
  destruct bs as [s|]; cbn; [|discriminate].
  intros Hx H. apply Qlt_bool_iff in H. apply Qlt_bool_iff.
  now apply Qlt_le_trans with x.
Qed.

Lemma exceeds_down (x x' : Q) (bs : option Q) :
  x' <= x -> exceeds x bs = false -> exceeds x' bs = false.
Proof.
  intros Hx H. destruct (exceeds x' bs) eqn:E; [|reflexivity].
  rewrite (exceeds_up x' x bs Hx E) in H. discriminate.
Qed.

Lemma exceeds_eq (x x' : Q) (bs : option Q) : x == x' -> exceeds x bs = exceeds x' bs.
Proof.
  intro Hx. destruct (exceeds x bs) eqn:E; symmetry.
  - apply (exceeds_up x x'); [rewrite Hx; apply Qle_refl | exact E].
  - apply (exceeds_down x x'); [rewrite Hx; apply Qle_refl | exact E].
Qed.

Lemma range_ascending (n : nat) :
  forall a b, Z.to_nat (b - a) = n -> StronglySorted Z.le (Py.range a b).
Proof.
  induction n as [|n IH]; intros a b Hn.
  - rewrite range_nil by lia. constructor.
  - rewrite range_cons by lia. constructor.
    + apply IH. lia.
    + apply Forall_forall. intros k Hk. apply in_range in Hk. lia.
Qed.

Section Reach.

Variable intersects : Polygon -> Polygon -> bool.
Variable fw ml : Q.
Variable pbs : list Bounds.
Variable pps : list Polygon.

Local Notation gravity := (gravity intersects pbs pps).
Local Notation first_free := (first_free intersects pbs pps).
Local Notation scan_x := (scan_x intersects pbs pps).
Local Notation search := (search intersects fw ml pbs pps).
Local Notation candidate := (candidate intersects fw ml pbs pps).
Local Notation try_variant := (try_variant intersects fw ml pbs pps).

(** A polygon found at a position of the x scan starts at that position. *)
Lemma first_free_minx (vpoly : Polygon) (x : Q) (yc : list Q) (cp : Polygon) :
  minx (bounds vpoly) == 0 ->
  first_free vpoly x yc = Some cp -> minx (bounds cp) == x.
Proof.
  intros H0 H. apply first_free_inv in H. destruct H as [y [_ [-> _]]].
  destruct (bounds_translate vpoly x y) as [Hx _]. rewrite Hx, H0. ring.
Qed.

(** The pruned scan finds what the full scan finds, unless that lies at an
    x beyond the best score. *)
Lemma scan_x_exact (bs : option Q) (vpoly : Polygon) (yc : list Q) (xis : list Z) :
  minx (bounds vpoly) == 0 ->
  StronglySorted Z.le xis ->
  scan_x bs vpoly yc xis
  = match scan_x None vpoly yc xis with
    | Some cp => if exceeds (minx (bounds cp)) bs then None else Some cp
    | None => None
    end.
Proof.
  intros H0. induction 1 as [|xi xis Hs IH Hle]; cbn [Nesting.scan_x]; [reflexivity|].
  change (exceeds (inject_Z xi * step_x) None) with false. cbn iota.
  destruct (first_free vpoly (inject_Z xi * step_x) yc) as [c|] eqn:Ef.
  - rewrite (exceeds_eq _ _ bs (first_free_minx _ _ _ _ H0 Ef)).
    now destruct (exceeds (inject_Z xi * step_x) bs).
  - destruct (exceeds (inject_Z xi * step_x) bs) eqn:Ex; [|exact IH].
    destruct (scan_x None vpoly yc xis) as [cp|] eqn:Es; [|reflexivity].
    apply scan_x_inv in Es. destruct Es as [xi' [y [Hin [_ [-> _]]]]].
    rewrite Forall_forall in Hle. specialize (Hle xi' Hin).
    destruct (bounds_translate vpoly (inject_Z xi' * step_x) y) as [Hx _].
    assert (Hup : inject_Z xi * step_x
                  <= minx (bounds (translate vpoly (inject_Z xi' * step_x) y))).
    { rewrite Hx, H0, Qplus_0_l. apply Qmult_le_compat_r; [|discriminate].
      now rewrite <- Zle_Qle. }
    now rewrite (exceeds_up _ _ bs Hup Ex).
Qed.

Lemma search_exact (bs : option Q) (start_y : Z) (base : Polygon) (v : Z * Z) :
  search bs start_y base v
  = match search None start_y base v with
    | Some raw => if exceeds (minx (bounds raw)) bs then None else Some raw
    | None => None
    end.
Proof.
  unfold Nesting.search.
  assert (H0 := oriented_at_origin base (fst v) (snd v)). cbn zeta in H0.
  destruct (oriented base (fst v) (snd v)) as [[vpoly w] h]. cbn [fst] in H0.
  destruct (Py.Qlt_bool ml w || Py.Qlt_bool fw h); [reflexivity|].
  apply scan_x_exact; [apply H0|].
  apply (range_ascending _ _ _ eq_refl).
Qed.

(** The orientation step in terms of the full scan. *)
Lemma try_variant_exact (start_y : Z) (base : Polygon) (b : best) (v : Z * Z) :
  try_variant start_y base b v
  = match search None start_y base v with
    | None => b
    | Some raw =>
        if exceeds (minx (bounds raw)) (best_score b) then b
        else if improves (score (gravity raw)) (best_score b)
             then mkBest (Some (score (gravity raw)))
                         (Some (mkPlacement (gravity raw) (bounds (gravity raw))))
             else b
    end.
Proof.
  unfold Nesting.try_variant. rewrite search_exact.
  destruct (search None start_y base v) as [raw|]; [|reflexivity].
  now destruct (exceeds (minx (bounds raw)) (best_score b)).
Qed.

Section Fold.

Variable start_y : Z.
Variable base : Polygon.

Local Notation try := (try_variant start_y base).
Local Notation full := (search None start_y base).

(** The best after the orientations [vs]: it has a score as soon as one
    of them has a position; its score is least among the candidates found
    at an x not beyond it; and it is the candidate of the first
    orientation with that score. *)
Lemma fold_reach (vs : list (Z * Z)) (b : best) :
  in_step b ->
  let b' := fold_left try vs b in
  in_step b'
  /\ (forall s, best_score b = Some s -> exists s', best_score b' = Some s' /\ s' <= s)
  /\ (forall v raw, In v vs -> full v = Some raw ->
        exists s', best_score b' = Some s'
                   /\ (minx (bounds raw) <= s' -> s' <= score (gravity raw)))
  /\ (b' = b
      \/ exists pre v post raw,
           vs = pre ++ v :: post
           /\ full v = Some raw
           /\ b' = mkBest (Some (score (gravity raw)))
                          (Some (mkPlacement (gravity raw) (bounds (gravity raw))))
           /\ (forall s, best_score b = Some s -> score (gravity raw) < s)
           /\ (forall v' raw', In v' pre -> full v' = Some raw' ->
                 minx (bounds raw') <= score (gravity raw) ->
                 score (gravity raw) < score (gravity raw'))).
Proof.
  intro Hb. induction vs as [|v vs IH] using rev_ind; cbn zeta.
  - cbn [fold_left]. split; [exact Hb|]. split; [|split].
    + intros s Hs. exists s. split; [exact Hs | apply Qle_refl].
    + intros v raw [].
    + now left.
  - cbn zeta in IH. destruct IH as [Hstep [Hmono [Hmin Hsel]]].
    rewrite fold_left_app. cbn [fold_left].
    set (b1 := fold_left try vs b) in *.
    rewrite try_variant_exact.
    destruct (full v) as [raw|] eqn:Ev.
    2:{ (* the orientation has no position *)
      split; [exact Hstep|]. split; [exact Hmono|]. split.
      - intros v' raw' Hin Hf. apply in_app_or in Hin.
        destruct Hin as [Hin|[<-|[]]]; [now apply (Hmin v') | congruence].
      - destruct Hsel as [Hsame | [pre [v' [post [raw' [-> H]]]]]]; [now left|].
        right. exists pre, v', (post ++ [v]), raw'. rewrite <- app_assoc. now split. }
    destruct (exceeds (minx (bounds raw)) (best_score b1)) eqn:Ex.
    { (* cut off by the pruning *)
      assert (Hcut : exists s1, best_score b1 = Some s1 /\ s1 < minx (bounds raw)).
      { destruct (best_score b1) as [s1|]; [|discriminate Ex].
        exists s1. split; [reflexivity|]. now apply Qlt_bool_iff. }
      destruct Hcut as [s1 [Hs1 Hlt]].
      split; [exact Hstep|]. split; [exact Hmono|]. split.
      - intros v' raw' Hin Hf. apply in_app_or in Hin.
        destruct Hin as [Hin|[<-|[]]]; [now apply (Hmin v')|].
        rewrite Ev in Hf. injection Hf as <-.
        exists s1. split; [exact Hs1|]. intro Hle. exfalso.
        exact (Qlt_not_le _ _ Hlt Hle).
      - destruct Hsel as [Hsame | [pre [v' [post [raw' [-> H]]]]]]; [now left|].
        right. exists pre, v', (post ++ [v]), raw'. rewrite <- app_assoc. now split. }
    destruct (improves (score (gravity raw)) (best_score b1)) eqn:Ei.
    2:{ (* no better than the best so far *)
      destruct (improves_false _ _ Ei) as [s1 [Hs1 Hle1]].
      split; [exact Hstep|]. split; [exact Hmono|]. split.
      - intros v' raw' Hin Hf. apply in_app_or in Hin.
        destruct Hin as [Hin|[<-|[]]]; [now apply (Hmin v')|].
        rewrite Ev in Hf. injection Hf as <-.
        exists s1. split; [exact Hs1|]. intros _. exact Hle1.
      - destruct Hsel as [Hsame | [pre [v' [post [raw' [-> H]]]]]]; [now left|].
        right. exists pre, v', (post ++ [v]), raw'. rewrite <- app_assoc. now split. }
    (* the new best *)
    assert (Hlt : forall s1, best_score b1 = Some s1 -> score (gravity raw) < s1).
    { intros s1 Hs1. rewrite Hs1 in Ei. cbn in Ei. now apply Qlt_bool_iff. }
    split; [unfold Nesting.in_step; cbn; now split|]. split; [|split].
    + intros s Hs. destruct (Hmono s Hs) as [s1 [Hs1 Hle1]].
      exists (score (gravity raw)). split; [reflexivity|].
      apply Qlt_le_weak. apply Qlt_le_trans with s1; [now apply Hlt | exact Hle1].
    + intros v' raw' Hin Hf. exists (score (gravity raw)). split; [reflexivity|].
      intro Hle. apply in_app_or in Hin. destruct Hin as [Hin|[<-|[]]].
      * destruct (Hmin v' raw' Hin Hf) as [s1 [Hs1 Hle1]].
        apply Qlt_le_weak. apply Qlt_le_trans with s1; [now apply Hlt|].
        apply Hle1. apply Qle_trans with (score (gravity raw)); [exact Hle|].
        apply Qlt_le_weak. now apply Hlt.
      * rewrite Ev in Hf. injection Hf as <-. apply Qle_refl.
    + right. exists vs, v, [], raw. split; [reflexivity|]. split; [exact Ev|].
      split; [reflexivity|]. split.
      * intros s Hs. destruct (Hmono s Hs) as [s1 [Hs1 Hle1]].
        apply Qlt_le_trans with s1; [now apply Hlt | exact Hle1].
      * intros v' raw' Hin Hf Hle.
        destruct (Hmin v' raw' Hin Hf) as [s1 [Hs1 Hle1]].
        apply Qlt_le_trans with s1; [now apply Hlt|].
        apply Hle1. apply Qle_trans with (score (gravity raw)); [exact Hle|].
        apply Qlt_le_weak. now apply Hlt.
Qed.

(** Nothing is kept exactly when no orientation has a position. *)
Lemma fold_reach_none (vs : list (Z * Z)) :
  best_placement (fold_left try vs (mkBest None None)) = None
  <-> forall v, In v vs -> full v = None.
Proof.
  rewrite (fold_none intersects fw ml pbs pps start_y base vs).
  unfold Nesting.candidate.
  split; intros H v Hv; specialize (H v Hv);
    destruct (full v); [discriminate H | reflexivity | discriminate H | reflexivity].
Qed.

End Fold.
End Reach.

(** The orientations tried before the flag is seen set. *)
Lemma orient_loop_tried (intersects : Polygon -> Polygon -> bool)
    (cancel_flag : option (nat -> bool)) (fw ml : Q) (pbs : list Bounds)
    (pps : list Polygon) (start_y : Z) (base : Polygon) (vs : list (Z * Z)) :
  forall n b,
    exists tried rest,
      vs = tried ++ rest
      /\ snd (orient_loop intersects cancel_flag fw ml pbs pps start_y base vs n b)
         = fold_left (try_variant intersects fw ml pbs pps start_y base) tried b
      /\ match cancel_flag with
         | None => rest = []
         | Some f =>
             (forall i, (i < List.length tried)%nat -> f (n + i)%nat = false)
             /\ (rest = [] \/ f (n + List.length tried)%nat = true)
         end.
Proof.
  induction vs as [|v vs IH]; intros n b.
  - exists [], []. split; [reflexivity|]. split; [reflexivity|].
    destruct cancel_flag as [f|]; [|reflexivity].
    split; [intros i Hi; cbn in Hi; lia | now left].
  - cbn [orient_loop]. unfold poll. destruct cancel_flag as [f|] eqn:Ef.
    + destruct (f n) eqn:Efn.
      * exists [], (v :: vs). split; [reflexivity|]. split; [reflexivity|].
        split; [intros i Hi; cbn in Hi; lia|]. right. cbn. now rewrite Nat.add_0_r.
      * destruct (IH (S n) (try_variant intersects fw ml pbs pps start_y base b v))
          as [tried [rest [-> [Hs [Hlo Hhi]]]]].
        exists (v :: tried), rest. split; [reflexivity|]. split; [exact Hs|]. split.
        -- intros [|i] Hi; [now rewrite Nat.add_0_r|].
           cbn [List.length] in Hi. replace (n + S i)%nat with (S n + i)%nat by lia.
           apply Hlo. lia.
        -- destruct Hhi as [Hr|Hr]; [now left|]. right.
           cbn [List.length]. now replace (n + S (List.length tried))%nat
                                 with (S n + List.length tried)%nat by lia.
    + destruct (IH n (try_variant intersects fw ml pbs pps start_y base b v))
        as [tried [rest [-> [Hs Hr]]]].
      exists (v :: tried), rest. split; [reflexivity|]. split; [exact Hs | exact Hr].
Qed.

End ReachFacts.

(* ------------------------------------------------------------------ *)
(** ** The loop on panels that may hold the empty geometry *)

Module RawFacts.
Import Geometry Nesting PyFacts RunFacts.

Section Raw.

Variable intersects : Polygon -> Polygon -> bool.
Variable cancel_flag : option (nat -> bool).
Variable progress_cb : bool.
Variable fw ml : Q.

Lemma process_pattern_of_item (total idx : nat) (s : NestingAlgorithm * locals) (it : item) :
  fabric_width (fst s) = fw -> max_length (fst s) = ml ->
  Raw.process_pattern intersects cancel_flag progress_cb fw ml total idx
    (Raw.lift s) (Raw.of_item it)
  = Some (Raw.lift (process_item intersects cancel_flag progress_cb total idx s it)).
Proof.
  destruct s as [self l]. cbn [fst]. intros Hfw Hml.
  unfold Raw.process_pattern, Raw.lift, Raw.of_item, process_item.
  cbn [Raw.p_poly Raw.p_style Raw.p_id Raw.placed Raw.unplaced Raw.loc fst snd
       fabric_width max_length placed_items unplaced_items style id poly].
  rewrite Hfw, Hml.
  destruct (orient_loop _ _ _ _ _ _ _ _ _ _ _) as [n b].
  destruct (best_placement b) as [pl|];
    cbn [fst snd placed_items unplaced_items map app]; [now rewrite app_nil_r|].
  now rewrite map_app.
Qed.

(** On panels that all have a polygon the loop is the loop of [run]. *)
Lemma run_loop_of_items (items : list item) :
  forall total idx s,
    fabric_width (fst s) = fw -> max_length (fst s) = ml ->
    Raw.panel_loop intersects cancel_flag progress_cb fw ml total idx
      (map Raw.of_item items) (Raw.lift s)
    = Some (Raw.lift (run_loop intersects cancel_flag progress_cb total idx items s)).
Proof.
  induction items as [|it rest IH]; intros total idx s Hfw Hml;
    cbn [map Raw.panel_loop run_loop]; [reflexivity|].
  cbn [Raw.lift Raw.loc Raw.placed Raw.unplaced].
  destruct (poll cancel_flag (polls (snd s))) as [[|] n']; [reflexivity|].
  set (s1 := (fst s, mkLocals (placed_polys (snd s)) (placed_bounds (snd s)) n'
                              (progress (snd s)))).
  change (Raw.mkState (placed_items (fst s)) (map Raw.of_item (unplaced_items (fst s)))
            (mkLocals (placed_polys (snd s)) (placed_bounds (snd s)) n' (progress (snd s))))
    with (Raw.lift s1).
  rewrite (process_pattern_of_item total idx s1 it Hfw Hml).
  destruct (process_item_spec intersects cancel_flag progress_cb total idx (fst s1) (snd s1) it)
    as [_ [Hfw' [Hml' _]]]. cbn zeta in Hfw', Hml'.
  change (fst s1, snd s1) with s1 in *.
  apply IH; [now rewrite Hfw' | now rewrite Hml'].
Qed.

(** Without cancellation, an empty geometry among the panels makes the
    loop raise, whatever the order of the panels. *)
Lemma empty_geometry_raises (items : list Raw.pattern) (p : Raw.pattern) :
  never_requested cancel_flag ->
  In p items -> Raw.p_poly p = None ->
  forall total idx s,
    Raw.panel_loop intersects cancel_flag progress_cb fw ml total idx items s = None.
Proof.
  intros Hq Hin Hp. induction items as [|x rest IH]; intros total idx s; [destruct Hin|].
  cbn [Raw.panel_loop].
  assert (Hpoll := poll_quiet cancel_flag (polls (Raw.loc s)) Hq).
  destruct (poll cancel_flag (polls (Raw.loc s))) as [c n']. cbn in Hpoll. subst c.
  destruct Hin as [->|Hin].
  - unfold Raw.process_pattern. rewrite Hp. cbn [Raw.loc polls].
    assert (Hpoll := poll_quiet cancel_flag n' Hq).
    destruct (poll cancel_flag n') as [c n'']. cbn in Hpoll. now subst c.
  - destruct (Raw.process_pattern _ _ _ _ _ _ _ _ x) as [s2|]; [|reflexivity].
    now apply IH.
Qed.

End Raw.
End RawFacts.

(* ------------------------------------------------------------------ *)
(** ** The properties of the engine *)

Import Geometry Nesting Inputs.
Import PyFacts GeometryFacts GravityFacts SearchFacts SelectFacts RunFacts
       PartitionFacts SheetFacts LaneFacts EmptySheetFacts AreaFacts IsometryFacts TraceFacts
       ReachFacts.


(** The concrete intersection test on squares: apart, overlapping, sharing
    an edge, sharing a corner, and one inside the other. *)
Example intersection_test_on_squares :
  poly_intersects (rect 4 4) (translate (rect 4 4) 5 0) = false
  /\ poly_intersects (rect 4 4) (translate (rect 4 4) 3 3) = true
  /\ poly_intersects (rect 4 4) (translate (rect 4 4) 4 0) = true
  /\ poly_intersects (rect 4 4) (translate (rect 4 4) 4 4) = true
  /\ poly_intersects (rect 4 4) (translate (rect 1 1) 1 1) = true
  /\ poly_intersects (translate (rect 1 1) 1 1) (rect 4 4) = true
  /\ poly_intersects (rect 4 4) (translate (rect 1 1) 1 6) = false.
Proof. repeat (match goal with |- _ /\ _ => split end); vm_compute; reflexivity. Qed.

(** A single 4 x 4 square on a 10 x 100 sheet ends in the corner of the
    sheet: it is found at y = 3, the first position of its lane, and
    compacted down to the x axis. *)
Example single_square_in_corner :
  map (fun e => bounds (poly e))
      (placed_of poly_intersects None false (init [panel "1" (rect 4 4)] 10 100))
  = [mkBounds 0 0 4 4]
  /\ unplaced_of poly_intersects None false (init [panel "1" (rect 4 4)] 10 100) = [].
Proof. split; vm_compute; reflexivity. Qed.

(** Of two 4 x 4 squares on a sheet of width 4 the second is found at
    x = 6 and compacted to the left until it touches the first. *)
Example second_square_beside_first :
  map (fun e => bounds (poly e))
      (placed_of poly_intersects None false (init two_squares 4 100))
  = [mkBounds 0 0 4 4; mkBounds 4 0 8 4].
Proof. vm_compute. reflexivity. Qed.

(** A panel that is longer than the sheet in each orientation is unplaced. *)
Example oversized_panel_unplaced :
  placed_of poly_intersects None false (init [panel "1" (rect 7 7)] 10 5) = []
  /\ unplaced_of poly_intersects None false (init [panel "1" (rect 7 7)] 10 5)
     = [panel "1" (rect 7 7)].
Proof. split; vm_compute; reflexivity. Qed.

(** At the default width 150 the half-height 75 lies on the 3 cm grid and
    the y scan of the code is the one of the specification. *)
Example lane_order_at_default_width :
  Forall2 Qeq (y_candidates (start_y_of "S" 150) 150 30) (y_candidates_spec false 150 30).
Proof.
  assert (H : forall l1 l2,
             forallb (fun p => Qeq_bool (fst p) (snd p)) (combine l1 l2) = true ->
             List.length l1 = List.length l2 -> Forall2 Qeq l1 l2).
  { induction l1 as [|a l1 IH]; intros [|b l2] Hb Hl; try discriminate; constructor.
    - cbn in Hb. apply andb_true_iff in Hb. now apply Qeq_bool_iff.
    - cbn in Hb. apply andb_true_iff in Hb. apply IH; [apply Hb | now injection Hl]. }
  apply H; vm_compute; reflexivity.
Qed.

(** C1 (the code departs from the claim).  On a sheet of width 4 and
    maximal length 5 the second of two 3 x 4 rectangles is committed with
    its bounding box reaching x = 6: the x scan goes up to
    [ceil((max_length - w) / 3)] steps, one step past the last position
    with [x + w <= max_length], and nothing checks the right edge. *)
Theorem boundary_violated_at_two_rects :
  map (fun e => bounds (poly e))
      (placed_of poly_intersects None false (init two_rects 4 5))
  = [mkBounds 0 0 3 4; mkBounds 3 0 6 4]
  /\ unplaced_of poly_intersects None false (init two_rects 4 5) = []
  /\ ~ Forall (fun e => maxx (bounds (poly e)) <= 5)
              (placed_of poly_intersects None false (init two_rects 4 5)).
Proof.
  assert (E : map (fun e => bounds (poly e))
                  (placed_of poly_intersects None false (init two_rects 4 5))
              = [mkBounds 0 0 3 4; mkBounds 3 0 6 4]) by (vm_compute; reflexivity).
  split; [exact E|]. split; [vm_compute; reflexivity|].
  intro H. apply (Forall_map (fun e => bounds (poly e)) (fun b => maxx b <= 5)) in H.
  rewrite E in H. inversion H as [|? ? _ H1]; subst.
  inversion H1 as [|? ? H2 _]; subst. cbn in H2. now apply H2.
Qed.

(** The wrapped part of the y scan of a style outside lane A is not bounded
    by [fabric_width - h] either: on a sheet of width 20 the 1 x 16 strip is
    committed on top of the 5 x 5 square, reaching y = 21. *)
Lemma boundary_violated_in_y :
  map (fun e => bounds (poly e))
      (placed_of poly_intersects None false (init square_and_strip 20 100))
  = [mkBounds 0 0 5 5; mkBounds 0 5 1 21].
Proof. vm_compute. reflexivity. Qed.

(** C2, as stated, fails: of two 4 x 4 squares on a sheet of width 4 the
    second is compacted against the first until their boxes touch, and the
    two final polygons intersect (they share an edge). *)
Lemma touching_squares_intersect :
  exists a b,
    placed_of poly_intersects None false (init two_squares 4 100) = [a; b]
    /\ coords (poly a) = [(0, 0); (4, 0); (4, 4); (0, 4)]
    /\ coords (poly b) = [(4, 0); (8, 0); (8, 4); (4, 4)]
    /\ poly_intersects (poly b) (poly a) = true
    /\ poly_intersects (poly a) (poly b) = true.
Proof.
  eexists _, _. split; [vm_compute; reflexivity|].
  repeat (match goal with |- _ /\ _ => split end); vm_compute; reflexivity.
Qed.

(** C2 (amended).  In the final placed list no entry is in conflict with an
    earlier one: their bounding boxes do not overlap (they may touch), or
    their polygons do not intersect under the exact test. *)
Theorem placed_pairwise_conflict_free
    (intersects : Polygon -> Polygon -> bool) (cancel_flag : option (nat -> bool))
    (progress_cb : bool) (pats : list item) (fw ml : Q) :
  ForallOrdPairs
    (fun a b => boxes_apart (bounds (poly b)) (bounds (poly a)) = true
                \/ intersects (poly b) (poly a) = false)
    (placed_of intersects cancel_flag progress_cb (init pats fw ml)).
Proof.
  destruct (run_sheet intersects cancel_flag progress_cb pats fw ml) as [_ [Hp Hf]].
  rewrite Hp in Hf. apply ForallOrdPairs_map in Hf.
  unfold placed_of. revert Hf. apply ForallOrdPairs_impl.
  intros a b Hab. unfold conflict in Hab. apply andb_false_iff in Hab.
  destruct Hab as [Hab | Hab]; [left | now right].
  now apply negb_false_iff in Hab.
Qed.



(** C4.  When cancellation is never requested, the entries of the placed
    and of the unplaced list together are the input panels, each once. *)
Theorem partition_without_cancellation
    (intersects : Polygon -> Polygon -> bool) (cancel_flag : option (nat -> bool))
    (progress_cb : bool) (pats : list item) (fw ml : Q) :
  never_requested cancel_flag ->
  Permutation
    (map tag (placed_of intersects cancel_flag progress_cb (init pats fw ml))
     ++ map tag (unplaced_of intersects cancel_flag progress_cb (init pats fw ml)))
    (map tag pats).
Proof.
  intro Hq. unfold placed_of, unplaced_of, run.
  assert (H := run_loop_quiet_tags intersects progress_cb cancel_flag
                 (sort_desc (patterns (init pats fw ml))) Hq
                 (List.length (sort_desc (patterns (init pats fw ml)))) 0%nat
                 (mkAlgo (sort_desc (patterns (init pats fw ml)))
                         (fabric_width (init pats fw ml)) (max_length (init pats fw ml))
                         (placed_items (init pats fw ml)) (unplaced_items (init pats fw ml)),
                  mkLocals [] [] 0 [])).
  unfold recorded in H. cbn [fst placed_items unplaced_items init map app] in H.
  rewrite app_nil_r in H. rewrite H.
  apply Permutation_map. cbn [patterns init]. apply sort_desc_perm.
Qed.

(** The partition for two 4 x 4 squares on a sheet of width 4. *)
Lemma partition_without_cancellation_witness :
  never_requested None
  /\ Permutation
       (map tag (placed_of poly_intersects None false (init two_squares 4 100))
        ++ map tag (unplaced_of poly_intersects None false (init two_squares 4 100)))
       (map tag two_squares).
Proof.
  split; [exact I|].
  exact (partition_without_cancellation poly_intersects None false two_squares 4 100 I).
Defined.

(** C5 (the code departs from the claim).  The flag is also polled before
    each orientation, where [break] leaves the orientation loop only.  A
    flag that is clear at the poll before the first panel and set at the
    poll before that panel's first orientation is set when no panel has
    been processed, yet the run does not stop without the panel: it
    records it, as unplaced, although the panel fits the empty sheet and is
    placed when there is no flag. *)
Lemma cancel_inside_panel_records_it :
  set_after_first 0 = false
  /\ set_after_first 1 = true
  /\ placed_of poly_intersects (Some set_after_first) false
       (init [panel "1" (rect 4 4)] 10 100) = []
  /\ unplaced_of poly_intersects (Some set_after_first) false
       (init [panel "1" (rect 4 4)] 10 100) = [panel "1" (rect 4 4)]
  /\ List.length (placed_of poly_intersects None false
                    (init [panel "1" (rect 4 4)] 10 100)) = 1%nat.
Proof. repeat (match goal with |- _ /\ _ => split end); vm_compute; reflexivity. Qed.

(** How many panels are recorded under cancellation.  The flag is polled
    before each panel and before each of its 8 orientations.  For a flag
    that is first set at poll number [j] and stays set, the two lists
    together hold exactly the first [ceil(j / 9)] panels of the sequence:
    the [j / 9] panels processed before, and also the panel being searched
    when [j] is not a multiple of 9. *)
Theorem cancellation_truncation
    (intersects : Polygon -> Polygon -> bool) (progress_cb : bool)
    (f : nat -> bool) (j : nat) (pats : list item) (fw ml : Q) :
  (forall i, (i < j)%nat -> f i = false) ->
  (forall i, (j <= i)%nat -> f i = true) ->
  Permutation
    (map tag (placed_of intersects (Some f) progress_cb (init pats fw ml))
     ++ map tag (unplaced_of intersects (Some f) progress_cb (init pats fw ml)))
    (map tag (firstn ((j + 8) / 9) (sort_desc pats))).
Proof.
  intros Hlo Hhi. unfold placed_of, unplaced_of, run.
  assert (H := run_loop_cancel_tags intersects progress_cb f j
                 (sort_desc (patterns (init pats fw ml))) Hlo Hhi
                 (List.length (sort_desc (patterns (init pats fw ml)))) 0%nat
                 (mkAlgo (sort_desc (patterns (init pats fw ml)))
                         (fabric_width (init pats fw ml)) (max_length (init pats fw ml))
                         (placed_items (init pats fw ml)) (unplaced_items (init pats fw ml)),
                  mkLocals [] [] 0 [])).
  unfold recorded, let_through in H.
  cbn [fst snd polls placed_items unplaced_items init map app patterns] in H.
  rewrite app_nil_r, Nat.sub_0_r in H. exact H.
Qed.

(** A flag first set at the poll before the second of two panels: one panel
    is recorded. *)
Lemma cancellation_truncation_witness :
  (forall i, (i < 9)%nat -> set_from_tenth_poll i = false)
  /\ (forall i, (9 <= i)%nat -> set_from_tenth_poll i = true)
  /\ Permutation
       (map tag (placed_of poly_intersects (Some set_from_tenth_poll) false
                   (init two_squares 4 100))
        ++ map tag (unplaced_of poly_intersects (Some set_from_tenth_poll) false
                      (init two_squares 4 100)))
       (map tag (firstn ((9 + 8) / 9) (sort_desc two_squares))).
Proof.
  assert (Hlo : forall i, (i < 9)%nat -> set_from_tenth_poll i = false).
  { intros i Hi. unfold set_from_tenth_poll. apply Nat.leb_gt. exact Hi. }
  assert (Hhi : forall i, (9 <= i)%nat -> set_from_tenth_poll i = true).
  { intros i Hi. unfold set_from_tenth_poll. apply Nat.leb_le. exact Hi. }
  split; [exact Hlo|]. split; [exact Hhi|].
  exact (cancellation_truncation poly_intersects false set_from_tenth_poll 9
           two_squares 4 100 Hlo Hhi).
Defined.


(** C6, as stated, fails: on a sheet of width 20 a style outside lane A is
    scanned from y = 9, the grid position below the half-height 10, and the
    wrapped part stops at 6; the order of the specification starts at 10. *)
Lemma lane_order_differs_from_spec :
  Py.endswith "S" "_A" = false
  /\ y_candidates (start_y_of "S" 20) 20 2 = [9; 12; 15; 18; 0; 3; 6]
  /\ map Qred (y_candidates_spec false 20 2) = [10; 13; 16; 0; 3; 6; 9]
  /\ ~ Forall2 Qeq (y_candidates (start_y_of "S" 20) 20 2)
                   (y_candidates_spec false 20 2).
Proof.
  split; [reflexivity|]. split; [vm_compute; reflexivity|].
  split; [vm_compute; reflexivity|].
  intro H. apply Forall2_Qeq_hd in H. vm_compute in H. discriminate H.
Qed.

(** C6 (amended).  For an orientation of height [h <= fw] the y scan runs
    over the grid positions [3 * k]; [k <= n] picks those with
    [3 * k <= fw - h].  A style that ends with "_A" is scanned from 0
    upwards.  Every other style is scanned from [3 * a] upwards, where [a]
    is the integer part of a third of the integer part of the half-height,
    and then from 0 up to, but not including, [3 * a]; when the integer
    part of the half-height is 0 it is scanned like lane A. *)
Theorem lane_scan_order (st : string) (fw h : Q) :
  0 <= h -> h <= fw ->
  let n := Qfloor ((fw - h) / 3) in
  let half := Qfloor (fw / 2) in
  let a := (half / 3)%Z in
  (forall k : Z, (k <= n)%Z <-> y_of k <= fw - h)
  /\ (Py.endswith st "_A" = true ->
      y_candidates (start_y_of st fw) fw h = map y_of (Py.range 0 (n + 1)))
  /\ (Py.endswith st "_A" = false -> (0 < half)%Z ->
      y_candidates (start_y_of st fw) fw h
      = map y_of (Py.range a (n + 1)) ++ map y_of (Py.range 0 a))
  /\ (Py.endswith st "_A" = false -> (half <= 0)%Z ->
      y_candidates (start_y_of st fw) fw h = map y_of (Py.range 0 (n + 1))).
Proof.
  intros Hh0 Hh n half a.
  assert (Hfw : 0 <= fw) by (now apply (Qle_trans _ h)).
  split; [intro k; apply grid_le|].
  split; [|split].
  - intro Ha. rewrite (start_y_lane_a st fw Ha). apply y_candidates_up; [lia | exact Hh].
  - intros Ha Hpos. rewrite (start_y_other st fw Ha Hfw).
    now apply y_candidates_wrap.
  - intros Ha Hnp. rewrite (start_y_other st fw Ha Hfw).
    now apply y_candidates_up.
Qed.

(** The scan order of a style outside lane A on a sheet of width 20. *)
Lemma lane_scan_order_witness :
  0 <= 2 /\ 2 <= 20
  /\ y_candidates (start_y_of "S" 20) 20 2
     = map y_of (Py.range (Qfloor (20 / 2) / 3) (Qfloor ((20 - 2) / 3) + 1))
       ++ map y_of (Py.range 0 (Qfloor (20 / 2) / 3)).
Proof.
  assert (H0 : 0 <= 2) by (unfold Qle; cbn; lia).
  assert (H1 : 2 <= 20) by (unfold Qle; cbn; lia).
  split; [exact H0|]. split; [exact H1|].
  destruct (lane_scan_order "S" 20 2 H0 H1) as [_ [_ [Hwrap _]]].
  apply Hwrap; [reflexivity | vm_compute; reflexivity].
Defined.

(** C7, as stated, fails.  With a 0.5 x 4 bar at the left edge of a sheet
    of width 4, the 2 x 1 rectangle finds its first orientation at x = 3
    and is compacted to score 2.5; the upright orientations are cut off at
    x = 3 > 2.5, although the scan without pruning finds them at x = 3 and
    compacts them to score 1.5. *)
Lemma pruning_changes_selection :
  placed_polys (snd (run poly_intersects None false (init [panel "1" (rect (1 # 2) 4)] 4 10)))
  = [rect (1 # 2) 4]
  /\ option_map Qred
       (best_score (fold_left (try_variant poly_intersects 4 10
                                 [bounds (rect (1 # 2) 4)] [rect (1 # 2) 4]
                                 (start_y_of "S" 4) (rect 2 1))
                              variants (mkBest None None)))
     = Some (5 # 2)
  /\ option_map Qred
       (best_score (fold_left (try_variant_unpruned poly_intersects 4 10
                                 [bounds (rect (1 # 2) 4)] [rect (1 # 2) 4]
                                 (start_y_of "S" 4) (rect 2 1))
                              variants (mkBest None None)))
     = Some (3 # 2)
  /\ map (fun e => bounds (poly e))
         (placed_of poly_intersects None false (init bar_and_rect 4 10))
     = [mkBounds 0 0 (1 # 2) 4; mkBounds (1 # 2) 0 (5 # 2) 1].
Proof. repeat (match goal with |- _ /\ _ => split end); vm_compute; reflexivity. Qed.

(** C7 (amended).  The pruned scan of an orientation has no candidate or
    the candidate of the scan without pruning; the pruned search of a panel
    ends without placement exactly when the search without pruning does;
    and the score it selects is never below the score selected without
    pruning. *)
Theorem pruned_search_no_better
    (intersects : Polygon -> Polygon -> bool) (fw ml : Q)
    (pbs : list Bounds) (pps : list Polygon) (start_y : Z) (base : Polygon) :
  let pruned := snd (orient_loop intersects None fw ml pbs pps start_y base variants
                       0 (mkBest None None)) in
  let unpruned := fold_left (try_variant_unpruned intersects fw ml pbs pps start_y base)
                            variants (mkBest None None) in
  (forall bs v, candidate intersects fw ml pbs pps bs start_y base v = None
                \/ candidate intersects fw ml pbs pps bs start_y base v
                   = candidate intersects fw ml pbs pps None start_y base v)
  /\ (best_placement pruned = None <-> best_placement unpruned = None)
  /\ (forall sp su, best_score pruned = Some sp -> best_score unpruned = Some su -> su <= sp).
Proof.
  intros pruned unpruned.
  split; [intros bs v; apply candidate_pruned|].
  apply (fold_no_worse_result intersects fw ml pbs pps start_y base variants).
  - reflexivity.
  - unfold pruned. apply orient_loop_quiet. exact I.
Qed.

(** The ring of three collinear vertices has no area, and the run commits
    it to the sheet. *)
Lemma flat_ring_is_placed :
  degenerate flat_ring
  /\ List.length (placed_of poly_intersects None false
                    (init [panel "1" flat_ring] 10 100)) = 1%nat
  /\ unplaced_of poly_intersects None false (init [panel "1" flat_ring] 10 100) = [].
Proof.
  split; [right; vm_compute; reflexivity|].
  split; vm_compute; reflexivity.
Qed.

(** Absent cancellation, a panel of any shape that meets an empty sheet
    and has an orientation whose bounding box is within [max_length] and
    [fabric_width] is committed to the sheet, and the loop goes on with the
    remaining panels. *)
Theorem panel_placed_on_empty_sheet
    (intersects : Polygon -> Polygon -> bool) (cancel_flag : option (nat -> bool))
    (progress_cb : bool) (total idx : nat) (self : NestingAlgorithm) (l : locals)
    (it : item) (rest : list item) (v : Z * Z) :
  never_requested cancel_flag ->
  placed_polys l = [] -> placed_bounds l = [] ->
  In v variants ->
  snd (fst (oriented (poly it) (fst v) (snd v))) <= max_length self ->
  snd (oriented (poly it) (fst v) (snd v)) <= fabric_width self ->
  let l1 := mkLocals (placed_polys l) (placed_bounds l)
                     (snd (poll cancel_flag (polls l))) (progress l) in
  let s' := process_item intersects cancel_flag progress_cb total idx (self, l1) it in
  run_loop intersects cancel_flag progress_cb total idx (it :: rest) (self, l)
  = run_loop intersects cancel_flag progress_cb total (S idx) rest s'
  /\ (exists cp, placed_items (fst s')
                 = placed_items self ++ [mkItem (style it) (id it) cp])
  /\ unplaced_items (fst s') = unplaced_items self.
Proof.
  intros Hq Hpp Hpb Hv Hw Hh l1 s'. subst s' l1.
  destruct l as [pps pbs n0 prog]. cbn [placed_polys placed_bounds polls progress] in *.
  subst pps pbs.
  assert (Hp := poll_quiet cancel_flag n0 Hq).
  destruct (poll cancel_flag n0) as [c n'] eqn:E. cbn [fst snd] in *. subst c.
  split.
  - cbn [run_loop fst snd polls placed_polys placed_bounds progress]. rewrite E. reflexivity.
  - destruct (process_item_spec intersects cancel_flag progress_cb total idx self
                (mkLocals [] [] n' prog) it)
      as [_ [_ [_ [_ H]]]]. cbn zeta in H.
    rewrite orient_loop_quiet in H by exact Hq.
    cbn [placed_polys placed_bounds] in H.
    destruct (best_placement _) as [pl|] eqn:Ebest.
    + destruct H as [Hpi [Hu _]]. split; [exists (pl_poly pl); exact Hpi | exact Hu].
    + exfalso.
      assert (Hnone := proj1 (fold_none intersects (fabric_width self) (max_length self)
                                [] [] (start_y_of (style it) (fabric_width self))
                                (poly it) variants) Ebest v Hv).
      unfold candidate in Hnone.
      destruct (search_empty intersects (fabric_width self) (max_length self)
                  (start_y_of (style it) (fabric_width self)) (poly it) v Hw Hh)
        as [cp Hcp].
      rewrite Hcp in Hnone. discriminate Hnone.
Qed.

(** The ring without area meets an empty 10 x 100 sheet and is placed. *)
Lemma panel_placed_on_empty_sheet_witness :
  never_requested None
  /\ In (0%Z, 1%Z) variants
  /\ snd (fst (oriented flat_ring 0 1)) <= 100
  /\ snd (oriented flat_ring 0 1) <= 10
  /\ exists cp,
       placed_items (fst (process_item poly_intersects None false 1 0
                            (init [panel "1" flat_ring] 10 100, mkLocals [] [] 0 [])
                            (panel "1" flat_ring)))
       = [mkItem "S" "1" cp].
Proof.
  assert (Hv : In (0%Z, 1%Z) variants) by (left; reflexivity).
  assert (Hw : snd (fst (oriented flat_ring 0 1)) <= 100) by (vm_compute; discriminate).
  assert (Hh : snd (oriented flat_ring 0 1) <= 10) by (vm_compute; discriminate).
  split; [exact I|]. split; [exact Hv|]. split; [exact Hw|]. split; [exact Hh|].
  exact (proj1 (proj2 (panel_placed_on_empty_sheet poly_intersects None false 1 0
                         (init [panel "1" flat_ring] 10 100) (mkLocals [] [] 0 [])
                         (panel "1" flat_ring) [] (0%Z, 1%Z) I eq_refl eq_refl Hv Hw Hh))).
Defined.

(** C8 (the code departs from the claim).  The run has no test for
    degenerate polygons.  The ring of three collinear vertices has no area,
    yet alone on a 10 x 100 sheet it is searched like any panel and
    committed to the sheet, and the unplaced list stays empty.  And with a
    4 x 4 square and a panel that holds the empty geometry (the only
    polygon with fewer than three points the library can build; the square,
    of greater area, is sorted before it), the loop places the square and
    then raises on the empty geometry: the run returns neither list. *)
Theorem degenerate_panels_not_handled :
  degenerate flat_ring
  /\ List.length (placed_of poly_intersects None false
                    (init [panel "1" flat_ring] 10 100)) = 1%nat
  /\ unplaced_of poly_intersects None false (init [panel "1" flat_ring] 10 100) = []
  /\ Raw.panel_loop poly_intersects None false 10 100 1 0
       [Raw.of_item (panel "1" (rect 4 4))] Raw.start
     = Some (Raw.lift (run poly_intersects None false (init [panel "1" (rect 4 4)] 10 100)))
  /\ Raw.panel_loop poly_intersects None false 10 100 2 0
       [Raw.of_item (panel "1" (rect 4 4)); Raw.mkPattern "S" "2" None] Raw.start
     = None.
Proof.
  split; [right; vm_compute; reflexivity|].
  repeat (match goal with |- _ /\ _ => split end); vm_compute; reflexivity.
Qed.

(** C9.  The compaction loop ends: from some number of passes on, the loop
    bounded by that many passes returns the same polygon, and a further
    pass (a down-shift and a left-shift attempt) leaves that polygon where
    it is. *)
Theorem gravity_compaction_terminates
    (intersects : Polygon -> Polygon -> bool) (pbs : list Bounds) (pps : list Polygon)
    (cp : Polygon) :
  exists n r,
    (forall k, gravity_loop intersects pbs pps (n + k) cp = Some r)
    /\ gravity_pass intersects pbs pps r = (r, false)
    /\ gravity intersects pbs pps cp = r
    /\ (n <= S (slack cp))%nat.
Proof.
  destruct (gravity_loop_enough intersects pbs pps cp) as [r [Hr Hfix]].
  exists (gravity_fuel cp), r. split; [|split; [|split]].
  - intro k. apply (gravity_loop_more intersects pbs pps _ _ _ Hr). lia.
  - exact Hfix.
  - unfold gravity. now rewrite Hr.
  - unfold gravity_fuel. lia.
Qed.


(* ------------------------------------------------------------------ *)
(** ** How far compaction moves a candidate *)

Module DisplacementFacts.
Import Geometry Nesting Layout PyFacts GeometryFacts GravityFacts SearchFacts LaneFacts.

Lemma moved_by_refl (cp : Polygon) : moved_by cp cp 0 0.
Proof. unfold moved_by. cbn. repeat split; ring. Qed.

Lemma moved_by_trans (p q r : Polygon) (a b a' b' : nat) :
  moved_by p q a b -> moved_by q r a' b' -> moved_by p r (a + a') (b + b').
Proof.
  unfold moved_by. intros [H1 [H2 [H3 H4]]] [K1 [K2 [K3 K4]]].
  rewrite !Nat2Z.inj_add, !inject_Z_plus.
  rewrite K1, K2, K3, K4, H1, H2, H3, H4. repeat split; ring.
Qed.

Section Displacement.

Variable intersects : Polygon -> Polygon -> bool.
Variable pbs : list Bounds.
Variable pps : list Polygon.

Lemma shift_down_moved (cp t : Polygon) :
  shift intersects pbs pps cp 0 (- (1 # 2)) miny = Some t -> moved_by cp t 0 1.
Proof.
  intro H. apply shift_inv in H. destruct H as [-> _].
  destruct (bounds_translate cp 0 (- (1 # 2))) as [H1 [H2 [H3 H4]]].
  unfold moved_by. rewrite H1, H2, H3, H4. cbn. repeat split; ring.
Qed.

Lemma shift_left_moved (cp t : Polygon) :
  shift intersects pbs pps cp (- (1 # 2)) 0 minx = Some t -> moved_by cp t 1 0.
Proof.
  intro H. apply shift_inv in H. destruct H as [-> _].
  destruct (bounds_translate cp (- (1 # 2)) 0) as [H1 [H2 [H3 H4]]].
  unfold moved_by. rewrite H1, H2, H3, H4. cbn. repeat split; ring.
Qed.

Lemma gravity_pass_moved (cp : Polygon) :
  exists a b, moved_by cp (fst (gravity_pass intersects pbs pps cp)) a b.
Proof.
  unfold gravity_pass.
  destruct (shift intersects pbs pps cp 0 (- (1 # 2)) miny) as [t|] eqn:Hd.
  - apply shift_down_moved in Hd.
    destruct (shift intersects pbs pps t (- (1 # 2)) 0 minx) as [u|] eqn:Hl; cbn [fst].
    + apply shift_left_moved in Hl. exists 1%nat, 1%nat.
      exact (moved_by_trans _ _ _ _ _ _ _ Hd Hl).
    + now exists 0%nat, 1%nat.
  - destruct (shift intersects pbs pps cp (- (1 # 2)) 0 minx) as [u|] eqn:Hl; cbn [fst].
    + apply shift_left_moved in Hl. now exists 1%nat, 0%nat.
    + exists 0%nat, 0%nat. apply moved_by_refl.
Qed.

Lemma gravity_loop_moved (fuel : nat) :
  forall cp r, gravity_loop intersects pbs pps fuel cp = Some r ->
               exists a b, moved_by cp r a b.
Proof.
  induction fuel as [|fuel IH]; intros cp r Hr; [discriminate|].
  cbn [gravity_loop] in Hr.
  destruct (gravity_pass_moved cp) as [a [b Hab]].
  destruct (gravity_pass intersects pbs pps cp) as [cp' [|]]; cbn [fst] in Hab.
  - destruct (IH _ _ Hr) as [a' [b' Hab']].
    exists (a + a')%nat, (b + b')%nat. exact (moved_by_trans _ _ _ _ _ _ _ Hab Hab').
  - injection Hr as <-. now exists a, b.
Qed.

Lemma gravity_moved (cp : Polygon) :
  exists a b, moved_by cp (gravity intersects pbs pps cp) a b.
Proof. exact (gravity_loop_moved _ _ _ (gravity_is_loop intersects pbs pps cp)). Qed.

End Displacement.

Lemma half_steps_nonneg (a : nat) : 0 <= inject_Z (Z.of_nat a) * (1 # 2).
Proof.
  apply Qmult_le_0_compat; [|discriminate].
  change 0 with (inject_Z 0). rewrite <- Zle_Qle. lia.
Qed.

(** The normalised orientation spans [0, w] x [0, h]. *)
Lemma oriented_box (base : Polygon) (angle mirror : Z) :
  let '(vpoly, w, h) := oriented base angle mirror in
  minx (bounds vpoly) == 0 /\ miny (bounds vpoly) == 0
  /\ maxx (bounds vpoly) == w /\ maxy (bounds vpoly) == h.
Proof.
  unfold oriented.
  set (v := if (mirror =? -1)%Z then scale (rotate base angle) (-1) 1 else rotate base angle).
  destruct (bounds_translate v (- minx (bounds v)) (- miny (bounds v))) as [Hx [Hy [Hx' Hy']]].
  rewrite Hx, Hy, Hx', Hy'. repeat split; ring.
Qed.

End DisplacementFacts.

(* ------------------------------------------------------------------ *)
(** ** Where a committed polygon lies *)

Module PositionFacts.
Import Geometry Nesting Layout PyFacts GeometryFacts GravityFacts SearchFacts SelectFacts
       RunFacts PartitionFacts LaneFacts DisplacementFacts.

Section Position.

Variable intersects : Polygon -> Polygon -> bool.
Variable cancel_flag : option (nat -> bool).
Variable progress_cb : bool.

(** A property of the compacted candidates of a panel is a property of the
    entry the run places for it. *)
Lemma run_placed_candidates (Good : Q -> Q -> item -> Polygon -> Prop) :
  (forall fw ml pbs pps bs it v cp,
     In v variants ->
     candidate intersects fw ml pbs pps bs (start_y_of (style it) fw) (poly it) v = Some cp ->
     Good fw ml it cp) ->
  forall pats fw ml,
    Forall (fun e => exists it, In it pats /\ style e = style it /\ id e = id it
                                /\ Good fw ml it (poly e))
           (placed_of intersects cancel_flag progress_cb (init pats fw ml)).
Proof.
  intros Hgood pats fw ml. unfold placed_of, run.
  cbn [patterns fabric_width max_length placed_items unplaced_items init].
  set (P := fun e => exists it, In it pats /\ style e = style it /\ id e = id it
                                /\ Good fw ml it (poly e)).
  assert (Hloop : forall items total idx s,
            (forall it, In it items -> In it pats) ->
            fabric_width (fst s) = fw -> max_length (fst s) = ml ->
            Forall P (placed_items (fst s)) ->
            Forall P (placed_items
                        (fst (run_loop intersects cancel_flag progress_cb total idx items s)))).
  { induction items as [|it rest IH]; intros total idx s Hsub Hfw Hml Hs; cbn [run_loop].
    - exact Hs.
    - destruct (poll cancel_flag (polls (snd s))) as [[|] n']; [exact Hs|].
      set (s1 := (fst s, mkLocals (placed_polys (snd s)) (placed_bounds (snd s)) n'
                                  (progress (snd s)))).
      destruct (process_item_spec intersects cancel_flag progress_cb total idx
                  (fst s1) (snd s1) it) as [_ [Hfw' [Hml' [_ H]]]].
      cbn zeta in H, Hfw', Hml'. change (fst s1, snd s1) with s1 in *.
      apply IH.
      + intros it' Hit'. apply Hsub. now right.
      + rewrite Hfw'. exact Hfw.
      + rewrite Hml'. exact Hml.
      + destruct (best_placement _) as [pl|] eqn:Ebest.
        * destruct H as [-> _]. apply Forall_app. split; [exact Hs|].
          constructor; [|constructor].
          assert (Hb0 : forall q, best_placement (mkBest None None) = Some q ->
                    Good fw ml it (pl_poly q) /\ pl_bounds q = bounds (pl_poly q))
            by (intros q Hq; discriminate Hq).
          assert (Hd : Good fw ml it (pl_poly pl) /\ pl_bounds pl = bounds (pl_poly pl)).
          { refine (orient_loop_keeps intersects cancel_flag (Good fw ml it)
                      _ _ _ _ _ _ _ _ _ _ Hb0 pl Ebest).
            intros bs v cp Hv Hc. unfold s1 in Hc. cbn [fst] in Hc. rewrite Hfw, Hml in Hc.
            exact (Hgood _ _ _ _ _ _ _ _ Hv Hc). }
          exists it. cbn [style id poly]. repeat split; [apply Hsub; now left | apply Hd].
        * destruct H as [-> _]. exact Hs. }
  apply Hloop; try reflexivity.
  - intros it Hit. apply (Permutation_in _ (sort_desc_perm pats)). exact Hit.
  - constructor.
Qed.

End Position.

(** Where the compacted candidate of an orientation lies: at a grid
    position of the scan, moved left and down by half-centimetre steps. *)
Lemma candidate_position (intersects : Polygon -> Polygon -> bool) (fw ml : Q)
    (pbs : list Bounds) (pps : list Polygon) (bs : option Q) (start_y : Z)
    (base : Polygon) (v : Z * Z) (cp : Polygon) :
  candidate intersects fw ml pbs pps bs start_y base v = Some cp ->
  exists w h xi y a b,
    w <= ml /\ h <= fw
    /\ (0 <= xi <= Qceiling ((ml - w) / step_x))%Z
    /\ In y (y_candidates start_y fw h)
    /\ minx (bounds cp) == inject_Z xi * step_x - inject_Z (Z.of_nat a) * (1 # 2)
    /\ maxx (bounds cp) == inject_Z xi * step_x + w - inject_Z (Z.of_nat a) * (1 # 2)
    /\ miny (bounds cp) == y - inject_Z (Z.of_nat b) * (1 # 2)
    /\ maxy (bounds cp) == y + h - inject_Z (Z.of_nat b) * (1 # 2).
Proof.
  unfold candidate, search.
  assert (Hbox := oriented_box base (fst v) (snd v)).
  destruct (oriented base (fst v) (snd v)) as [[vpoly w] h].
  destruct Hbox as [H0x [H0y [Hwx Hhy]]].
  destruct (Py.Qlt_bool ml w) eqn:Ew; [discriminate|].
  destruct (Py.Qlt_bool fw h) eqn:Eh; [discriminate|]. cbn [orb].
  apply Qlt_bool_false_iff in Ew. apply Qlt_bool_false_iff in Eh.
  destruct (scan_x intersects pbs pps bs vpoly (y_candidates start_y fw h)
              (Py.range 0 (Qceiling ((ml - w) / step_x) + 1))) as [c|] eqn:E; [|discriminate].
  cbn [option_map]. intro H. injection H as <-.
  apply scan_x_inv in E. destruct E as [xi [y [Hxi [Hy [-> _]]]]].
  apply in_range in Hxi.
  destruct (gravity_moved intersects pbs pps (translate vpoly (inject_Z xi * step_x) y))
    as [a [b [M1 [M2 [M3 M4]]]]].
  destruct (bounds_translate vpoly (inject_Z xi * step_x) y) as [T1 [T2 [T3 T4]]].
  exists w, h, xi, y, a, b.
  split; [exact Ew|]. split; [exact Eh|]. split; [lia|]. split; [exact Hy|].
  rewrite M1, M2, M3, M4, T1, T2, T3, T4, H0x, H0y, Hwx, Hhy.
  repeat split; ring.
Qed.

Lemma scan_below_overshoot (ml w : Q) (xi : Z) :
  (xi <= Qceiling ((ml - w) / step_x))%Z -> inject_Z xi * step_x + w < ml + 3.
Proof.
  intro Hxi. unfold step_x in *.
  assert (H1 := Qceiling_lt ((ml - w) / 3)).
  assert (H2 : inject_Z xi <= inject_Z (Qceiling ((ml - w) / 3))) by (now rewrite <- Zle_Qle).
  assert (H3 : inject_Z xi - 1 < (ml - w) / 3).
  { eapply Qle_lt_trans; [|exact H1].
    unfold Zminus. rewrite inject_Z_plus. apply Qplus_le_l. exact H2. }
  apply (Qmult_lt_r _ _ 3) in H3; [|reflexivity].
  assert (E : (ml - w) / 3 * 3 == ml - w) by field.
  rewrite E in H3.
  apply (Qplus_lt_l _ _ (w + 3)) in H3.
  assert (E1 : (inject_Z xi - 1) * 3 + (w + 3) == inject_Z xi * 3 + w) by ring.
  assert (E2 : ml - w + (w + 3) == ml + 3) by ring.
  now rewrite E1, E2 in H3.
Qed.

(** A compacted candidate ends less than one scan step beyond [ml]. *)
Lemma candidate_overshoot (intersects : Polygon -> Polygon -> bool) (fw ml : Q)
    (pbs : list Bounds) (pps : list Polygon) (bs : option Q) (start_y : Z)
    (base : Polygon) (v : Z * Z) (cp : Polygon) :
  candidate intersects fw ml pbs pps bs start_y base v = Some cp ->
  maxx (bounds cp) < ml + 3.
Proof.
  intro Hc. apply candidate_position in Hc.
  destruct Hc as [w [h [xi [y [a [b [_ [_ [Hxi [_ [_ [E2 _]]]]]]]]]]]].
  rewrite E2.
  apply Qle_lt_trans with (inject_Z xi * step_x + w).
  - assert (Ha := half_steps_nonneg a).
    apply Qle_minus_iff.
    assert (E : inject_Z xi * step_x + w
                + - (inject_Z xi * step_x + w - inject_Z (Z.of_nat a) * (1 # 2))
                == inject_Z (Z.of_nat a) * (1 # 2)) by ring.
    now rewrite E.
  - apply scan_below_overshoot. lia.
Qed.

End PositionFacts.

(* ------------------------------------------------------------------ *)
(** ** How far a committed polygon reaches across the width *)

Module WidthFacts.
Import Geometry Nesting Layout PyFacts GeometryFacts LaneFacts DisplacementFacts PositionFacts.

(** The wrap-around of the y scan stays below the start of the lane. *)
Lemma wrap_below_start (s k : Z) : (0 < s)%Z -> (k < s / 3)%Z -> y_of k < inject_Z s.
Proof.
  intros Hs Hk. unfold y_of, step_y.
  assert (H3 : (3 * (s / 3) <= s)%Z) by (apply Z.mul_div_le; lia).
  assert (Hz : (k * 3 < s)%Z) by lia.
  rewrite Zlt_Qlt, inject_Z_mult in Hz. exact Hz.
Qed.

Lemma start_y_cases (st : string) (fw : Q) :
  start_y_of st fw = 0%Z \/ start_y_of st fw = Py.int (fw / 2).
Proof.
  unfold start_y_of. destruct (Py.endswith st "_A" || String.eqb st "Style_A"); auto.
Qed.

Lemma y_candidate_bound (st : string) (fw h y : Q) :
  0 <= h -> h <= fw ->
  In y (y_candidates (start_y_of st fw) fw h) ->
  y + h <= fw * (3 # 2).
Proof.
  intros Hh0 Hh Hy.
  assert (Hfw : 0 <= fw) by lra.
  assert (Hup : forall k a, In k (Py.range a (Qfloor ((fw - h) / 3) + 1)) ->
                  y_of k + h <= fw * (3 # 2)).
  { intros k a Hk. apply in_range in Hk.
    assert (Hk' : (k <= Qfloor ((fw - h) / 3))%Z) by lia.
    apply grid_le in Hk'. lra. }
  destruct (Z.ltb_spec 0 (start_y_of st fw)) as [Hs|Hs].
  - rewrite y_candidates_wrap in Hy by assumption.
    apply in_app_iff in Hy. destruct Hy as [Hy|Hy]; apply in_map_iff in Hy;
      destruct Hy as [k [<- Hk]].
    + exact (Hup k _ Hk).
    + apply in_range in Hk.
      assert (Hw := wrap_below_start (start_y_of st fw) k Hs (proj2 Hk)).
      assert (Hsy : inject_Z (start_y_of st fw) <= fw * (1 # 2)).
      { destruct (start_y_cases st fw) as [E|E]; [lia|].
        rewrite E, int_nonneg.
        - apply Qle_trans with (fw / 2); [apply Qfloor_le|].
          assert (E2 : fw / 2 == fw * (1 # 2)) by field. rewrite E2. apply Qle_refl.
        - unfold Qdiv. apply Qmult_le_0_compat; [exact Hfw | discriminate]. }
      lra.
  - rewrite y_candidates_up in Hy by assumption.
    apply in_map_iff in Hy. destruct Hy as [k [<- Hk]]. exact (Hup k _ Hk).
Qed.

(** A compacted candidate reaches at most half the width beyond the sheet. *)
Lemma candidate_height_bound (intersects : Polygon -> Polygon -> bool) (fw ml : Q)
    (pbs : list Bounds) (pps : list Polygon) (bs : option Q) (st : string)
    (base : Polygon) (v : Z * Z) (cp : Polygon) :
  candidate intersects fw ml pbs pps bs (start_y_of st fw) base v = Some cp ->
  maxy (bounds cp) <= fw * (3 # 2).
Proof.
  intro Hc. apply candidate_position in Hc.
  destruct Hc as [w [h [xi [y [a [b [_ [Hh [_ [Hy [_ [_ [E3 E4]]]]]]]]]]]]].
  destruct (bounds_extent cp) as [_ Hext]. rewrite E3, E4 in Hext.
  assert (Hh0 : 0 <= h) by lra.
  assert (Hb := half_steps_nonneg b).
  assert (Hyh := y_candidate_bound st fw h y Hh0 Hh Hy).
  rewrite E4. lra.
Qed.

End WidthFacts.

(* ------------------------------------------------------------------ *)
(** ** The order of the sort keys *)

Module OrderFacts.
Import Geometry Nesting Layout PyFacts PartitionFacts.

Lemma key_lt_spec (k1 k2 : Q * Q) :
  key_lt k1 k2 = true
  <-> fst k1 < fst k2 \/ (fst k1 == fst k2 /\ snd k1 < snd k2).
Proof.
  unfold key_lt. rewrite orb_true_iff, andb_true_iff, !Qlt_bool_iff, Qeq_bool_iff.
  reflexivity.
Qed.

Lemma key_ge_spec (k1 k2 : Q * Q) :
  key_lt k1 k2 = false
  <-> fst k2 < fst k1 \/ (fst k1 == fst k2 /\ snd k2 <= snd k1).
Proof.
  split.
  - intro H. destruct (Qlt_le_dec (fst k2) (fst k1)) as [Hlt|Hle]; [now left|right].
    destruct (Qlt_le_dec (fst k1) (fst k2)) as [Hlt'|Hle'].
    + assert (T : key_lt k1 k2 = true) by (apply key_lt_spec; now left). congruence.
    + assert (E : fst k1 == fst k2) by lra. split; [exact E|].
      destruct (Qlt_le_dec (snd k1) (snd k2)) as [Hs|Hs]; [|exact Hs].
      assert (T : key_lt k1 k2 = true) by (apply key_lt_spec; now right). congruence.
  - intro H. destruct (key_lt k1 k2) eqn:E; [|reflexivity].
    apply key_lt_spec in E. destruct H as [H|[H1 H2]], E as [E|[E1 E2]]; lra.
Qed.

Lemma key_ge_refl (k : Q * Q) : key_lt k k = false.
Proof. apply key_ge_spec. right. split; [reflexivity | apply Qle_refl]. Qed.

Lemma key_ge_trans (a b c : Q * Q) :
  key_lt a b = false -> key_lt b c = false -> key_lt a c = false.
Proof.
  rewrite !key_ge_spec. intros [H|[H1 H2]] [G|[G1 G2]].
  - left; lra.
  - left; lra.
  - left; lra.
  - right; split; lra.
Qed.

Lemma key_lt_ge (a b : Q * Q) : key_lt b a = true -> key_lt a b = false.
Proof.
  rewrite key_lt_spec, key_ge_spec. intros [H|[H1 H2]].
  - now left.
  - right. split; lra.
Qed.

Lemma key_lt_ge_trans (x y z : Q * Q) :
  key_lt y x = true -> key_lt y z = false -> key_lt x z = false.
Proof.
  intros H G. apply key_ge_trans with y; [now apply key_lt_ge | exact G].
Qed.

Lemma key_ge_lt_trans (x y z : Q * Q) :
  key_lt x y = false -> key_lt z y = true -> key_lt z x = true.
Proof.
  rewrite key_ge_spec, !key_lt_spec. intros [H|[H1 H2]] [G|[G1 G2]].
  - left; lra.
  - left; lra.
  - left; lra.
  - right; split; lra.
Qed.

Lemma key_le_lt_trans (u y x : Q * Q) :
  key_lt y u = false -> key_lt y x = true -> key_lt u x = true.
Proof.
  rewrite key_ge_spec, !key_lt_spec. intros [H|[H1 H2]] [G|[G1 G2]].
  - left; lra.
  - left; lra.
  - left; lra.
  - right; split; lra.
Qed.

Lemma insert_desc_in (x z : item) (l : list item) :
  In z (insert_desc x l) -> z = x \/ In z l.
Proof.
  intro H. apply (Permutation_in _ (insert_desc_perm x l)) in H.
  destruct H as [H|H]; [left; now symmetry | now right].
Qed.

Lemma insert_desc_descending (x : item) (l : list item) :
  descending l -> descending (insert_desc x l).
Proof.
  unfold descending. induction 1 as [|y r Hr IH Hy]; cbn [insert_desc].
  - constructor; constructor.
  - destruct (key_lt (sort_key y) (sort_key x)) eqn:E.
    + constructor; [now constructor|].
      constructor; [now apply key_lt_ge|].
      rewrite Forall_forall in *. intros z Hz.
      apply key_lt_ge_trans with (sort_key y); [exact E | now apply Hy].
    + constructor; [exact IH|].
      rewrite Forall_forall in *. intros z Hz.
      apply insert_desc_in in Hz. destruct Hz as [->|Hz]; [exact E | now apply Hy].
Qed.

Lemma fold_insert_descending (l acc : list item) :
  descending acc -> descending (fold_left (fun a x => insert_desc x a) l acc).
Proof.
  revert acc. induction l as [|x l IH]; intros acc H; cbn [fold_left]; [exact H|].
  apply IH. now apply insert_desc_descending.
Qed.

Lemma same_key_ge (z x y : item) :
  same_key z x = true -> key_lt (sort_key y) (sort_key x) = true ->
  same_key z y = false.
Proof.
  unfold same_key. rewrite andb_true_iff, !negb_true_iff. intros [H1 H2] H.
  apply andb_false_iff. right. apply negb_false_iff.
  apply key_ge_lt_trans with (sort_key x); assumption.
Qed.

Lemma filter_none {A : Type} (f : A -> bool) (l : list A) :
  Forall (fun a => f a = false) l -> filter f l = [].
Proof.
  induction 1 as [|a l Ha _ IH]; cbn [filter]; [reflexivity|]. now rewrite Ha.
Qed.

Lemma insert_desc_filter (z x : item) (l : list item) :
  descending l ->
  filter (same_key z) (insert_desc x l)
  = filter (same_key z) l ++ (if same_key z x then [x] else []).
Proof.
  unfold descending. induction 1 as [|y r Hr IH Hy]; cbn [insert_desc].
  - cbn [filter app]. reflexivity.
  - destruct (key_lt (sort_key y) (sort_key x)) eqn:E.
    + destruct (same_key z x) eqn:Ez.
      * assert (Hnone : filter (same_key z) (y :: r) = []).
        { apply filter_none. constructor.
          - now apply same_key_ge with x.
          - rewrite Forall_forall in *. intros u Hu.
            apply same_key_ge with x; [exact Ez|].
            apply key_le_lt_trans with (sort_key y); [now apply Hy | exact E]. }
        change (filter (same_key z) (x :: y :: r))
          with (if same_key z x then x :: filter (same_key z) (y :: r)
                else filter (same_key z) (y :: r)).
        now rewrite Ez, Hnone.
      * change (filter (same_key z) (x :: y :: r))
          with (if same_key z x then x :: filter (same_key z) (y :: r)
                else filter (same_key z) (y :: r)).
        now rewrite Ez, app_nil_r.
    + cbn [filter]. rewrite IH. now destruct (same_key z y).
Qed.

Lemma fold_insert_filter (z : item) (l acc : list item) :
  descending acc ->
  filter (same_key z) (fold_left (fun a x => insert_desc x a) l acc)
  = filter (same_key z) acc ++ filter (same_key z) l.
Proof.
  revert acc. induction l as [|x l IH]; intros acc H; cbn [fold_left filter].
  - now rewrite app_nil_r.
  - rewrite IH by now apply insert_desc_descending.
    rewrite insert_desc_filter by exact H.
    rewrite <- app_assoc. now destruct (same_key z x).
Qed.

End OrderFacts.

(* ------------------------------------------------------------------ *)
(** ** The sheet at rest, and panels too large for it *)

Module RestFacts.
Import Geometry Nesting Layout PyFacts GeometryFacts GravityFacts SearchFacts SelectFacts
       RunFacts PartitionFacts.

Section Rest.

Variable intersects : Polygon -> Polygon -> bool.
Variable cancel_flag : option (nat -> bool).
Variable progress_cb : bool.

Lemma gravity_settled (pbs : list Bounds) (pps : list Polygon) (cp : Polygon) :
  gravity_pass intersects pbs pps (gravity intersects pbs pps cp)
  = (gravity intersects pbs pps cp, false).
Proof.
  destruct (gravity_loop_enough intersects pbs pps cp) as [r [Hr Hfix]].
  rewrite gravity_is_loop in Hr. injection Hr as <-. exact Hfix.
Qed.

Lemma candidate_settled (fw ml : Q) (pbs : list Bounds) (pps : list Polygon)
    (bs : option Q) (start_y : Z) (base : Polygon) (v : Z * Z) (cp : Polygon) :
  candidate intersects fw ml pbs pps bs start_y base v = Some cp ->
  gravity_pass intersects pbs pps cp = (cp, false).
Proof.
  unfold candidate. destruct (search _ _ _ _ _ _ _ _ _) as [c|]; [|discriminate].
  cbn [option_map]. intro H. injection H as <-. apply gravity_settled.
Qed.

Lemma each_settled_snoc (l : list Polygon) :
  forall pre p,
    each_settled intersects pre l ->
    gravity_pass intersects (map bounds (pre ++ l)) (pre ++ l) p = (p, false) ->
    each_settled intersects pre (l ++ [p]).
Proof.
  induction l as [|a l IH]; intros pre p Hl Hp; cbn [app each_settled] in *.
  - rewrite app_nil_r in Hp. now split.
  - destruct Hl as [Ha Hl]. split; [exact Ha|].
    apply IH; [exact Hl|]. now rewrite <- app_assoc.
Qed.

Lemma process_item_rest (total idx : nat) (s : NestingAlgorithm * locals) (it : item) :
  at_rest intersects s -> at_rest intersects (process_item intersects cancel_flag progress_cb total idx s it).
Proof.
  destruct s as [self l]. intros [Hb [Hp Hf]]. cbn [fst snd] in *.
  destruct (process_item_spec intersects cancel_flag progress_cb total idx self l it)
    as [_ [_ [_ [_ H]]]]. cbn zeta in H.
  destruct (best_placement _) as [pl|] eqn:Ebest.
  - destruct H as [Hpi [_ [Hpp Hpb]]].
    assert (Hpl : gravity_pass intersects (placed_bounds l) (placed_polys l) (pl_poly pl)
                  = (pl_poly pl, false)
                  /\ pl_bounds pl = bounds (pl_poly pl)).
    { assert (Hb0 : forall q, best_placement (mkBest None None) = Some q ->
                gravity_pass intersects (placed_bounds l) (placed_polys l) (pl_poly q)
                = (pl_poly q, false)
                /\ pl_bounds q = bounds (pl_poly q)).
      { intros q Hq. discriminate Hq. }
      refine (orient_loop_keeps intersects cancel_flag
                (fun cp => gravity_pass intersects (placed_bounds l) (placed_polys l) cp
                           = (cp, false))
                _ _ _ _ _ _ _ _ _ _ Hb0 pl Ebest).
      intros bs v cp _. apply candidate_settled. }
    destruct Hpl as [Hfix Hbd].
    unfold at_rest. rewrite Hpi, Hpp, Hpb. split; [|split].
    + rewrite map_app, Hb, Hbd. reflexivity.
    + rewrite map_app, Hp. reflexivity.
    + apply each_settled_snoc; [exact Hf|]. cbn [app]. now rewrite <- Hb.
  - destruct H as [Hpi [_ [Hpp Hpb]]].
    unfold at_rest. rewrite Hpi, Hpp, Hpb. now split; [|split].
Qed.

Lemma run_loop_rest (items : list item) :
  forall total idx s,
    at_rest intersects s -> at_rest intersects (run_loop intersects cancel_flag progress_cb total idx items s).
Proof.
  induction items as [|it rest IH]; intros total idx s Hs; cbn [run_loop].
  - exact Hs.
  - destruct (poll cancel_flag (polls (snd s))) as [[|] n'].
    + exact Hs.
    + apply IH, process_item_rest. exact Hs.
Qed.

(** *** Panels that no orientation brings within the sheet *)

Lemma search_unfit (fw ml : Q) (pbs : list Bounds) (pps : list Polygon)
    (bs : option Q) (start_y : Z) (base : Polygon) (v : Z * Z) :
  In v variants -> fits fw ml base = false ->
  search intersects fw ml pbs pps bs start_y base v = None.
Proof.
  intros Hv Hfit. unfold search.
  destruct (oriented base (fst v) (snd v)) as [[vpoly w] h] eqn:Eo.
  destruct (Py.Qlt_bool ml w || Py.Qlt_bool fw h) eqn:Eg; [reflexivity|].
  exfalso. assert (Ht : fits fw ml base = true); [|congruence].
  unfold fits. apply existsb_exists. exists v. split; [exact Hv|].
  rewrite Eo, Eg. reflexivity.
Qed.

Lemma search_fit (fw ml : Q) (pbs : list Bounds) (pps : list Polygon)
    (bs : option Q) (start_y : Z) (base : Polygon) (v : Z * Z) (cp : Polygon) :
  In v variants ->
  search intersects fw ml pbs pps bs start_y base v = Some cp ->
  fits fw ml base = true.
Proof.
  intros Hv Hs. destruct (fits fw ml base) eqn:E; [reflexivity|].
  rewrite (search_unfit _ _ _ _ _ _ _ _ Hv E) in Hs. discriminate.
Qed.

Lemma orient_loop_unfit (fw ml : Q) (pbs : list Bounds) (pps : list Polygon)
    (start_y : Z) (base : Polygon) (vs : list (Z * Z)) :
  (forall v, In v vs -> In v variants) -> fits fw ml base = false ->
  forall n b,
    snd (orient_loop intersects cancel_flag fw ml pbs pps start_y base vs n b) = b.
Proof.
  intros Hsub Hfit. induction vs as [|v vs IH]; intros n b; cbn [orient_loop].
  - reflexivity.
  - destruct (poll cancel_flag n) as [[|] n']; [reflexivity|].
    rewrite IH by (intros v' Hv'; apply Hsub; now right).
    unfold try_variant. rewrite search_unfit; [reflexivity| |exact Hfit].
    apply Hsub. now left.
Qed.

Lemma process_item_unfit (total idx : nat) (s : NestingAlgorithm * locals) (it : item) :
  fits (fabric_width (fst s)) (max_length (fst s)) (poly it) = false ->
  unplaced_items (fst (process_item intersects cancel_flag progress_cb total idx s it))
  = unplaced_items (fst s) ++ [it].
Proof.
  destruct s as [self l]. cbn [fst]. intro Hfit.
  destruct (process_item_spec intersects cancel_flag progress_cb total idx self l it)
    as [_ [_ [_ [_ H]]]]. cbn zeta in H.
  rewrite orient_loop_unfit in H by (auto || exact Hfit).
  cbn [best_placement] in H. now destruct H as [_ [-> _]].
Qed.

(** The object keeps its sheet. *)
Lemma process_item_sheet_size (total idx : nat) (s : NestingAlgorithm * locals) (it : item) :
  fabric_width (fst (process_item intersects cancel_flag progress_cb total idx s it))
  = fabric_width (fst s)
  /\ max_length (fst (process_item intersects cancel_flag progress_cb total idx s it))
     = max_length (fst s).
Proof.
  destruct s as [self l].
  destruct (process_item_spec intersects cancel_flag progress_cb total idx self l it)
    as [_ [Hfw [Hml _]]]. cbn zeta in Hfw, Hml. now split.
Qed.

(** The list of unplaced panels only grows at its end. *)
Lemma process_item_unplaced_grows (total idx : nat) (s : NestingAlgorithm * locals) (it : item) :
  exists d,
    unplaced_items (fst (process_item intersects cancel_flag progress_cb total idx s it))
    = unplaced_items (fst s) ++ d.
Proof.
  destruct s as [self l].
  destruct (process_item_spec intersects cancel_flag progress_cb total idx self l it)
    as [_ [_ [_ [_ H]]]]. cbn zeta in H.
  destruct (best_placement _) as [pl|]; destruct H as [_ [-> _]]; cbn [fst].
  - exists []. now rewrite app_nil_r.
  - now exists [it].
Qed.

Lemma run_loop_unplaced_grows (items : list item) :
  forall total idx s,
    exists d,
      unplaced_items (fst (run_loop intersects cancel_flag progress_cb total idx items s))
      = unplaced_items (fst s) ++ d.
Proof.
  induction items as [|it rest IH]; intros total idx s; cbn [run_loop].
  - exists []. now rewrite app_nil_r.
  - destruct (poll cancel_flag (polls (snd s))) as [[|] n'].
    + exists []. cbn [fst]. now rewrite app_nil_r.
    + set (s1 := (fst s, mkLocals (placed_polys (snd s)) (placed_bounds (snd s)) n'
                                  (progress (snd s)))).
      destruct (IH total (S idx)
                  (process_item intersects cancel_flag progress_cb total idx s1 it)) as [d Hd].
      destruct (process_item_unplaced_grows total idx s1 it) as [d1 Hd1].
      exists (d1 ++ d). rewrite Hd, Hd1. cbn [fst s1]. now rewrite app_assoc.
Qed.

Lemma run_loop_unfit (items : list item) (it : item) :
  never_requested cancel_flag ->
  forall total idx s,
    In it items ->
    fits (fabric_width (fst s)) (max_length (fst s)) (poly it) = false ->
    In it (unplaced_items
             (fst (run_loop intersects cancel_flag progress_cb total idx items s))).
Proof.
  intro Hq. induction items as [|x rest IH]; intros total idx s Hin Hfit; [destruct Hin|].
  cbn [run_loop].
  assert (Hp := poll_quiet cancel_flag (polls (snd s)) Hq).
  destruct (poll cancel_flag (polls (snd s))) as [c n']. cbn in Hp. subst c.
  set (s1 := (fst s, mkLocals (placed_polys (snd s)) (placed_bounds (snd s)) n'
                              (progress (snd s)))).
  destruct (process_item_sheet_size total idx s1 x) as [Hfw Hml].
  destruct Hin as [->|Hin].
  - destruct (run_loop_unplaced_grows rest total (S idx)
                (process_item intersects cancel_flag progress_cb total idx s1 it)) as [d ->].
    apply in_or_app. left. rewrite process_item_unfit by exact Hfit.
    apply in_or_app. right. now left.
  - apply IH; [exact Hin|]. rewrite Hfw, Hml. exact Hfit.
Qed.

End Rest.
End RestFacts.

(* ------------------------------------------------------------------ *)
(** ** The order of the results and the progress calls *)

Module LogFacts.
Import Geometry Nesting Layout PyFacts RunFacts PartitionFacts.

Lemma pick_length (b : bool) (mask : list bool) :
  forall l, (List.length (pick b mask l) <= List.length mask)%nat.
Proof.
  induction mask as [|m mask IH]; intros [|x l]; cbn [pick List.length]; try lia.
  destruct (Bool.eqb m b); cbn [List.length]; specialize (IH l); lia.
Qed.

Lemma pick_both (mask : list bool) :
  forall l, (List.length mask <= List.length l)%nat ->
    (List.length (pick true mask l) + List.length (pick false mask l)
     = List.length mask)%nat.
Proof.
  induction mask as [|m mask IH]; intros [|x l] H; cbn [pick List.length] in *; try lia.
  specialize (IH l). destruct m; cbn [Bool.eqb List.length]; lia.
Qed.

Section Log.

Variable intersects : Polygon -> Polygon -> bool.
Variable cancel_flag : option (nat -> bool).

(** What a panel adds to the two lists. *)
Lemma process_item_adds (progress_cb : bool) (total idx : nat)
    (s : NestingAlgorithm * locals) (it : item) :
  let s' := process_item intersects cancel_flag progress_cb total idx s it in
  exists m : bool,
    map tag (placed_items (fst s'))
    = map tag (placed_items (fst s)) ++ (if m then [tag it] else [])
    /\ unplaced_items (fst s')
       = unplaced_items (fst s) ++ (if m then [] else [it])
    /\ (exists d, placed_items (fst s') = placed_items (fst s) ++ d).
Proof.
  destruct s as [self l]. cbn zeta.
  destruct (process_item_spec intersects cancel_flag progress_cb total idx self l it)
    as [_ [_ [_ [_ H]]]]. cbn zeta in H.
  destruct (best_placement _) as [pl|]; destruct H as [-> [-> _]]; cbn [fst].
  - exists true. rewrite map_app, app_nil_r. split; [reflexivity|]. split; [reflexivity|].
    now eexists.
  - exists false. rewrite !app_nil_r. split; [reflexivity|]. split; [reflexivity|].
    exists []. now rewrite app_nil_r.
Qed.

(** The two lists take the panels in the order of the loop. *)
Lemma run_loop_order (progress_cb : bool) (items : list item) :
  forall total idx s,
    let r := run_loop intersects cancel_flag progress_cb total idx items s in
    exists mask,
      (List.length mask <= List.length items)%nat
      /\ map tag (placed_items (fst r))
         = map tag (placed_items (fst s)) ++ map tag (pick true mask items)
      /\ unplaced_items (fst r) = unplaced_items (fst s) ++ pick false mask items.
Proof.
  induction items as [|it rest IH]; intros total idx s; cbn zeta; cbn [run_loop].
  - exists []. cbn. rewrite !app_nil_r. repeat split; lia.
  - destruct (poll cancel_flag (polls (snd s))) as [[|] n'].
    + exists []. cbn [fst pick map List.length]. rewrite !app_nil_r. repeat split; lia.
    + set (s1 := (fst s, mkLocals (placed_polys (snd s)) (placed_bounds (snd s)) n'
                                  (progress (snd s)))).
      destruct (process_item_adds progress_cb total idx s1 it) as [m [Hp [Hu _]]].
      destruct (IH total (S idx)
                  (process_item intersects cancel_flag progress_cb total idx s1 it))
        as [mask [Hlen [Hp' Hu']]].
      exists (m :: mask). cbn [List.length]. split; [lia|].
      rewrite Hp', Hu', Hp, Hu. cbn [fst s1].
      destruct m; cbn [pick Bool.eqb map]; rewrite <- !app_assoc; cbn [app];
        now rewrite ?app_nil_r.
Qed.

(** The body of the loop makes one call to [progress_cb], with the list
    [placed_items] as it is after the panel. *)
Lemma process_item_progress (total idx : nat) (s : NestingAlgorithm * locals) (it : item) :
  let s' := process_item intersects cancel_flag true total idx s it in
  progress (snd s') = progress (snd s) ++ [(placed_items (fst s'), S idx, total)].
Proof.
  destruct s as [self l]. cbn zeta. unfold process_item.
  destruct (orient_loop _ _ _ _ _ _ _ _ _ _ _) as [n b].
  destruct (best_placement b) as [pl|]; reflexivity.
Qed.

Lemma run_loop_progress (items : list item) :
  forall total idx s,
    let r := run_loop intersects cancel_flag true total idx items s in
    exists new,
      progress (snd r) = progress (snd s) ++ new
      /\ map (fun c => snd (fst c)) new = seq (S idx) (List.length new)
      /\ Forall (fun c => snd c = total) new
      /\ Forall (fun c => exists rest, placed_items (fst r) = fst (fst c) ++ rest) new
      /\ (exists rest, placed_items (fst r) = placed_items (fst s) ++ rest)
      /\ (List.length (recorded r) = List.length (recorded s) + List.length new)%nat.
Proof.
  induction items as [|it rest IH]; intros total idx s; cbn zeta; cbn [run_loop].
  - exists []. rewrite app_nil_r. cbn [map List.length seq].
    repeat split; try constructor; try lia. exists []. now rewrite app_nil_r.
  - destruct (poll cancel_flag (polls (snd s))) as [[|] n'].
    + exists []. cbn [snd fst progress]. rewrite app_nil_r. cbn [map List.length seq].
      repeat split; try constructor; try (unfold recorded; cbn [fst]; lia).
      exists []. now rewrite app_nil_r.
    + set (s1 := (fst s, mkLocals (placed_polys (snd s)) (placed_bounds (snd s)) n'
                                  (progress (snd s)))).
      set (s2 := process_item intersects cancel_flag true total idx s1 it).
      destruct (IH total (S idx) s2) as [new [Hpr [Hidx [Htot [Hpre [[d Hmono] Hlen]]]]]].
      assert (Hcall := process_item_progress total idx s1 it). cbn zeta in Hcall.
      fold s2 in Hcall.
      destruct (process_item_adds true total idx s1 it) as [m [_ [_ [d1 Hd1]]]]. fold s2 in Hd1.
      assert (Hrec : List.length (recorded s2) = S (List.length (recorded s))).
      { unfold recorded at 1. unfold s2.
        rewrite (Permutation_length (process_item_tags intersects cancel_flag true total idx s1 it)).
        reflexivity. }
      exists ((placed_items (fst s2), S idx, total) :: new).
      split; [|split; [|split; [|split; [|split]]]].
      * rewrite Hpr, Hcall. cbn [snd s1 progress]. now rewrite <- app_assoc.
      * cbn [map List.length seq fst snd]. now rewrite Hidx.
      * constructor; [reflexivity | exact Htot].
      * constructor; [|exact Hpre]. cbn [fst]. now exists d.
      * exists (d1 ++ d). rewrite Hmono, Hd1. cbn [fst s1]. now rewrite <- app_assoc.
      * rewrite Hlen, Hrec. cbn [List.length]. lia.
Qed.

End Log.
End LogFacts.

(* ------------------------------------------------------------------ *)
(** ** A run on an object that already holds results *)

Module AgainFacts.
Import Geometry Nesting Layout PyFacts RunFacts PartitionFacts OrderFacts.

Lemma insert_desc_last (x : item) (l : list item) :
  Forall (fun y => key_lt (sort_key y) (sort_key x) = false) l ->
  insert_desc x l = l ++ [x].
Proof.
  induction 1 as [|y l Hy _ IH]; cbn [insert_desc app]; [reflexivity|].
  now rewrite Hy, IH.
Qed.

Lemma descending_snoc (l : list item) (x : item) :
  descending (l ++ [x]) ->
  Forall (fun y => key_lt (sort_key y) (sort_key x) = false) l.
Proof.
  unfold descending. induction l as [|y l IH]; cbn [app]; intro H; [constructor|].
  apply StronglySorted_inv in H. destruct H as [Hl Hy]. constructor.
  - rewrite Forall_forall in Hy. apply Hy. apply in_or_app. right. now left.
  - now apply IH.
Qed.

Lemma descending_app_l (l r : list item) : descending (l ++ r) -> descending l.
Proof.
  unfold descending. induction l as [|y l IH]; cbn [app]; intro H; [constructor|].
  apply StronglySorted_inv in H. destruct H as [Hl Hy]. constructor.
  - now apply IH.
  - apply Forall_app in Hy. now destruct Hy.
Qed.

Lemma fold_insert_sorted (l : list item) :
  forall acc, descending (acc ++ l) ->
    fold_left (fun a x => insert_desc x a) l acc = acc ++ l.
Proof.
  induction l as [|x l IH]; intros acc H; cbn [fold_left].
  - now rewrite app_nil_r.
  - replace (acc ++ x :: l) with ((acc ++ [x]) ++ l) in * by (now rewrite <- app_assoc).
    rewrite insert_desc_last.
    + now apply IH.
    + apply descending_snoc. eapply descending_app_l. exact H.
Qed.

Section Again.

Variable intersects : Polygon -> Polygon -> bool.
Variable cancel_flag : option (nat -> bool).
Variable progress_cb : bool.

Lemma process_item_ahead (a b : list item) (total idx : nat)
    (s s' : NestingAlgorithm * locals) (it : item) :
  ahead a b s s' ->
  ahead a b (process_item intersects cancel_flag progress_cb total idx s it)
            (process_item intersects cancel_flag progress_cb total idx s' it).
Proof.
  destruct s as [self l], s' as [self' l'].
  intros [Hfw [Hml [Hp [Hu [Hpp [Hpb Hn]]]]]]. cbn [fst snd] in *.
  destruct (process_item_spec intersects cancel_flag progress_cb total idx self l it)
    as [_ [Hfw1 [Hml1 [Hn1 H1]]]].
  destruct (process_item_spec intersects cancel_flag progress_cb total idx self' l' it)
    as [_ [Hfw2 [Hml2 [Hn2 H2]]]].
  cbn zeta in *. rewrite Hfw, Hml, Hpp, Hpb, Hn in H1, Hn1.
  unfold ahead. rewrite Hfw1, Hml1, Hfw2, Hml2, Hn1, Hn2.
  destruct (best_placement _) as [pl|];
    destruct H1 as [-> [-> [-> ->]]]; destruct H2 as [-> [-> [-> ->]]];
    rewrite ?Hp, ?Hu, ?Hpp, ?Hpb, <- ?app_assoc; repeat split; assumption.
Qed.

Lemma run_loop_ahead (a b : list item) (items : list item) :
  forall total idx s s',
    ahead a b s s' ->
    ahead a b (run_loop intersects cancel_flag progress_cb total idx items s)
              (run_loop intersects cancel_flag progress_cb total idx items s').
Proof.
  induction items as [|it rest IH]; intros total idx s s' Ha; cbn [run_loop].
  - exact Ha.
  - assert (Hn : polls (snd s) = polls (snd s')) by apply Ha. rewrite Hn.
    destruct (poll cancel_flag (polls (snd s'))) as [[|] n'].
    + destruct Ha as [Hfw [Hml [Hp [Hu [Hpp [Hpb _]]]]]].
      unfold ahead. cbn [fst snd placed_polys placed_bounds polls]. repeat split; assumption.
    + apply IH, process_item_ahead.
      destruct Ha as [Hfw [Hml [Hp [Hu [Hpp [Hpb _]]]]]].
      unfold ahead. cbn [fst snd placed_polys placed_bounds polls]. repeat split; assumption.
Qed.

End Again.
End AgainFacts.

(* ------------------------------------------------------------------ *)
(** ** Metrics and quantities *)

Module MetricsFacts.
Import Geometry Nesting Layout Page PyFacts GeometryFacts RunFacts.

Lemma round2_unfold (x : Q) :
  exists n : Z,
    round x 2 == inject_Z n * (1 # 100)
    /\ (n = Qfloor (x * 100) \/ n = (Qfloor (x * 100) + 1)%Z)
    /\ x * 100 - (1 # 2) <= inject_Z n <= x * 100 + (1 # 2).
Proof.
  unfold round. change (inject_Z (10 ^ Z.of_nat 2)) with 100.
  set (s := x * 100). set (f := Qfloor s).
  assert (Hlo : inject_Z f <= s) by apply Qfloor_le.
  assert (Hhi : s < inject_Z (f + 1)) by apply Qlt_floor.
  rewrite inject_Z_plus in Hhi. change (inject_Z 1) with 1 in Hhi.
  destruct ((s - inject_Z f) ?= (1 # 2)) eqn:E.
  - apply Qeq_alt in E. destruct (Z.even f).
    + exists f. split; [rewrite Qred_correct; field|]. split; [now left|]. lra.
    + exists (f + 1)%Z. split; [rewrite Qred_correct; field|]. split; [now right|].
      rewrite inject_Z_plus. change (inject_Z 1) with 1. lra.
  - apply Qlt_alt in E. exists f. split; [rewrite Qred_correct; field|]. split; [now left|]. lra.
  - apply Qgt_alt in E. exists (f + 1)%Z. split; [rewrite Qred_correct; field|]. split; [now right|].
    rewrite inject_Z_plus. change (inject_Z 1) with 1. lra.
Qed.

(** Rounding to two places moves a number by at most half a hundredth. *)
Lemma round2_bounds (x : Q) : x - (1 # 200) <= round x 2 <= x + (1 # 200).
Proof.
  destruct (round2_unfold x) as [n [-> [_ H]]]. lra.
Qed.

Lemma round2_nonneg (x : Q) : 0 <= x -> 0 <= round x 2.
Proof.
  intro Hx. destruct (round2_unfold x) as [n [-> [Hn _]]].
  assert (H0 : (0 <= Qfloor (x * 100))%Z).
  { change 0%Z with (Qfloor 0). apply Qfloor_resp_le. lra. }
  assert (Hn0 : (0 <= n)%Z) by (destruct Hn; lia).
  rewrite Zle_Qle in Hn0. change (inject_Z 0) with 0 in Hn0. lra.
Qed.

Lemma list_max_between (lo hi : Q) (l : list Q) :
  forall a, lo <= a -> a < hi -> Forall (fun x => lo <= x /\ x < hi) l ->
    lo <= list_max a l /\ list_max a l < hi.
Proof.
  unfold list_max. induction l as [|x l IH]; intros a Hlo Hhi Hl; cbn [fold_left].
  - now split.
  - inversion Hl as [|? ? [Hx1 Hx2] Hl']; subst.
    apply IH; [| |exact Hl'].
    + apply Qle_trans with a; [exact Hlo | apply Q.le_max_l].
    + apply Q.max_lub_lt; assumption.
Qed.

Lemma fold_plus_nonneg (l : list Q) :
  forall a, 0 <= a -> Forall (fun x => 0 <= x) l -> 0 <= fold_left Qplus l a.
Proof.
  induction l as [|x l IH]; intros a Ha Hl; cbn [fold_left]; [exact Ha|].
  inversion Hl as [|? ? Hx Hl']; subst. cbn beta in Hx.
  apply IH; [|exact Hl'].
  assert (H0 : 0 + 0 <= a + x) by (apply Qplus_le_compat; assumption).
  exact H0.
Qed.

Lemma area_nonneg (p : Polygon) : 0 <= area p.
Proof.
  unfold area, Qdiv. apply Qmult_le_0_compat; [apply Qabs_nonneg | discriminate].
Qed.

Lemma total_area_nonneg (l : list item) : 0 <= total_area l.
Proof.
  unfold total_area. apply fold_plus_nonneg; [apply Qle_refl|].
  apply Forall_map, Forall_forall. intros j _. apply area_nonneg.
Qed.

(** With a positive width the division of [calc_metrics] is defined. *)
Lemma calc_metrics_defined (l : list item) (width : Q) :
  0 < width -> exists m, calc_metrics l width = Some m.
Proof.
  intro Hw. destruct l as [|i rest]; cbn [calc_metrics]; [now eexists|].
  destruct (Py.Qlt_bool 0 (used_length i rest)) eqn:Epos; [|now eexists].
  apply Qlt_bool_iff in Epos.
  destruct (Qeq_bool (used_length i rest * width) 0) eqn:Ez; [|now eexists].
  apply Qeq_bool_iff in Ez.
  assert (H0 : 0 * width < used_length i rest * width)
    by (apply Qmult_lt_compat_r; assumption).
  rewrite Qmult_0_l, Ez in H0. discriminate H0.
Qed.

(** The least number of markers that covers the order. *)
Lemma ceil_div_bounds (oqty layers : Z) :
  (0 < layers)%Z ->
  let m := Qceiling (inject_Z oqty / inject_Z layers) in
  (layers * (m - 1) < oqty <= layers * m)%Z.
Proof.
  intro Hl. cbn zeta. set (q := inject_Z oqty / inject_Z layers).
  assert (HlQ : 0 < inject_Z layers).
  { change 0 with (inject_Z 0). now rewrite <- Zlt_Qlt. }
  assert (Hq : q * inject_Z layers == inject_Z oqty).
  { unfold q. field. lra. }
  assert (Hup : q <= inject_Z (Qceiling q)) by apply Qle_ceiling.
  assert (Hdn : inject_Z (Qceiling q - 1) < q).
  { assert (H := Qceiling_lt q). exact H. }
  split.
  - apply (Qmult_lt_r _ _ _ HlQ) in Hdn. rewrite Hq, <- inject_Z_mult in Hdn.
    rewrite <- Zlt_Qlt in Hdn. lia.
  - apply (Qmult_le_r _ _ _ HlQ) in Hup. rewrite Hq, <- inject_Z_mult in Hup.
    rewrite <- Zle_Qle in Hup. lia.
Qed.

End MetricsFacts.

(* ------------------------------------------------------------------ *)
(** ** Session state, colours and the header of the BOM *)

Module PageFacts.
Import Geometry Nesting Layout Page.

(** *** Dicts as association lists *)

Lemma mem_In (s : string) (l : list string) : mem s l = true <-> In s l.
Proof.
  unfold mem. rewrite existsb_exists. split.
  - intros [x [Hx E]]. apply String.eqb_eq in E. now subst.
  - intro H. exists s. split; [exact H | apply String.eqb_refl].
Qed.

Lemma mem_app (s : string) (l r : list string) : mem s (l ++ r) = mem s l || mem s r.
Proof. unfold mem. apply existsb_app. Qed.

Lemma contains_app (s r : state) (k : string) :
  contains (s ++ r) k = contains s k || contains r k.
Proof. unfold contains. apply existsb_app. Qed.

Lemma contains_In (s : state) (kv : string * value) :
  In kv s -> contains s (fst kv) = true.
Proof.
  intro H. unfold contains. apply existsb_exists. exists kv.
  split; [exact H | apply String.eqb_refl].
Qed.

Lemma filter_nothing {A : Type} (f : A -> bool) (l : list A) :
  (forall x, In x l -> f x = false) -> filter f l = [].
Proof.
  induction l as [|x l IH]; intro H; [reflexivity|]. cbn [filter].
  rewrite (H x (or_introl eq_refl)). apply IH. intros y Hy. apply H. now right.
Qed.

(** *** [_init_state] *)

Lemma fill_closed_form (d : state) :
  NoDup (map fst d) ->
  forall s,
    fold_left (fun s kv => if contains s (fst kv) then s else s ++ [kv]) d s
    = s ++ filter (fun kv => negb (contains s (fst kv))) d.
Proof.
  induction d as [|kv d IH]; intros Hnd s; cbn [fold_left filter].
  - now rewrite app_nil_r.
  - cbn [map] in Hnd. apply NoDup_cons_iff in Hnd. destruct Hnd as [Hkv Hnd].
    destruct (contains s (fst kv)) eqn:E; cbn [negb].
    + now apply IH.
    + rewrite (IH Hnd). rewrite <- app_assoc. cbn [app]. do 2 f_equal.
      apply filter_ext_in. intros kv' Hin.
      rewrite contains_app. unfold contains at 2. cbn [existsb].
      destruct (String.eqb_spec (fst kv) (fst kv')) as [Ek|_].
      * exfalso. apply Hkv. rewrite Ek. now apply in_map.
      * now rewrite !orb_false_r.
Qed.

Lemma defaults_keys_distinct : NoDup (map fst defaults).
Proof.
  assert (H : nodup string_dec (map fst defaults) = map fst defaults)
    by (vm_compute; reflexivity).
  rewrite <- H. apply NoDup_nodup.
Qed.

(** *** Colours *)

Lemma fromkeys_In (l : list string) :
  forall seen x, In x (fromkeys seen l) <-> In x seen \/ In x l.
Proof.
  induction l as [|y l IH]; intros seen x; cbn [fromkeys].
  - cbn [In]. tauto.
  - destruct (mem y seen) eqn:E.
    + rewrite IH. apply mem_In in E. cbn [In]. split; [tauto|].
      intros [H|[<-|H]]; tauto.
    + rewrite IH, in_app_iff. cbn [In]. tauto.
Qed.

Lemma fromkeys_NoDup (l : list string) :
  forall seen, NoDup seen -> NoDup (fromkeys seen l).
Proof.
  induction l as [|y l IH]; intros seen Hs; cbn [fromkeys]; [exact Hs|].
  destruct (mem y seen) eqn:E; [now apply IH|].
  apply IH. apply NoDup_app; [exact Hs | constructor; [intros []|constructor] |].
  intros x Hx [<-|[]]. apply mem_In in Hx. congruence.
Qed.

Lemma find_enumerated (g : nat -> string) (us : list string) :
  NoDup us ->
  forall k i s,
    nth_error us i = Some s ->
    find (fun kv : string * string => String.eqb (fst kv) s)
         (map (fun '(j, t) => (t, g j)) (combine (seq k (List.length us)) us))
    = Some (s, g (k + i)%nat).
Proof.
  induction us as [|u us IH]; intros Hnd k i s Hi; [destruct i; discriminate|].
  apply NoDup_cons_iff in Hnd. destruct Hnd as [Hu Hnd].
  cbn [List.length seq combine map find fst].
  destruct i as [|i]; cbn [nth_error] in Hi.
  - injection Hi as ->. rewrite String.eqb_refl, Nat.add_0_r. reflexivity.
  - destruct (String.eqb_spec u s) as [->|_].
    + exfalso. apply Hu. now apply nth_error_In with i.
    + rewrite (IH Hnd (S k) i s Hi).
      replace (S k + i)%nat with (k + S i)%nat by lia. reflexivity.
Qed.

Lemma color_map_get (palette us : list string) (i : nat) (s default : string) :
  NoDup us -> nth_error us i = Some s ->
  dict_get (color_map palette us) s default
  = nth (i mod List.length palette) palette EmptyString.
Proof.
  intros Hnd Hi. unfold dict_get, color_map, enumerate.
  rewrite (find_enumerated (fun j => nth (j mod List.length palette) palette EmptyString)
             us Hnd 0 i s Hi).
  reflexivity.
Qed.

Lemma unique_styles_NoDup (placed_items : list item) : NoDup (unique_styles placed_items).
Proof. apply fromkeys_NoDup. constructor. Qed.

Lemma unique_styles_has (placed_items : list item) (it : item) :
  In it placed_items ->
  exists i, nth_error (unique_styles placed_items) i = Some (style it).
Proof.
  intro H. apply In_nth_error. unfold unique_styles. apply fromkeys_In.
  right. now apply in_map.
Qed.

Lemma palette_nth_inj (palette : list string) (i j : nat) :
  NoDup palette -> (0 < List.length palette)%nat ->
  (nth (i mod List.length palette) palette EmptyString
   = nth (j mod List.length palette) palette EmptyString
   <-> i mod List.length palette = j mod List.length palette).
Proof.
  intros Hnd Hlen. split; [|now intros ->].
  intro H. apply (proj1 (NoDup_nth palette EmptyString) Hnd);
    [apply Nat.mod_upper_bound; lia | apply Nat.mod_upper_bound; lia | exact H].
Qed.

Lemma COLORS_distinct : NoDup COLORS.
Proof.
  assert (H : nodup string_dec COLORS = COLORS) by (vm_compute; reflexivity).
  rewrite <- H. apply NoDup_nodup.
Qed.

Lemma colors_mpl_distinct : NoDup colors_mpl.
Proof.
  assert (H : nodup string_dec colors_mpl = colors_mpl) by (vm_compute; reflexivity).
  rewrite <- H. apply NoDup_nodup.
Qed.

(** *** The renaming of the columns *)


Lemma unique_not_code (c : string) : mem c unique_aliases = true -> mem c code_aliases = false.
Proof.
  intro H. apply mem_In in H. unfold unique_aliases in H. cbn [In] in H.
  repeat (destruct H as [<-|H]; [vm_compute; reflexivity|]). destruct H.
Qed.

Lemma unique_not_name (c : string) : mem c unique_aliases = true -> mem c name_aliases = false.
Proof.
  intro H. apply mem_In in H. unfold unique_aliases in H. cbn [In] in H.
  repeat (destruct H as [<-|H]; [vm_compute; reflexivity|]). destruct H.
Qed.

Lemma code_not_name (c : string) : mem c code_aliases = true -> mem c name_aliases = false.
Proof.
  intro H. apply mem_In in H. unfold code_aliases in H. cbn [In] in H.
  repeat (destruct H as [<-|H]; [vm_compute; reflexivity|]). destruct H.
Qed.

Lemma rename_step_typed (r : renaming) (col : string) :
  typed r -> typed (rename_step r col).
Proof.
  intro Ht. unfold rename_step.
  destruct (negb (found_u r) && mem col unique_aliases) eqn:E1;
    [|destruct (negb (found_i r) && mem col code_aliases) eqn:E2;
      [|destruct (negb (found_n r) && mem col name_aliases) eqn:E3; [|exact Ht]]];
    intros c t Hin; cbn [rmap] in Hin; apply in_app_iff in Hin;
    (destruct Hin as [Hin|[Hin|[]]]; [now apply Ht|]); injection Hin as <- <-.
  - left. apply andb_true_iff in E1. now split.
  - right; left. apply andb_true_iff in E2. now split.
  - right; right. apply andb_true_iff in E3. now split.
Qed.

Lemma rename_step_grows (r : renaming) (col : string) :
  exists d, rmap (rename_step r col) = rmap r ++ d
            /\ forall c t, In (c, t) d -> c = col.
Proof.
  unfold rename_step.
  destruct (negb (found_u r) && mem col unique_aliases);
    [|destruct (negb (found_i r) && mem col code_aliases);
      [|destruct (negb (found_n r) && mem col name_aliases)]]; cbn [rmap].
  1-3: eexists; split; [reflexivity|]; intros c t [H|[]]; now injection H as <- _.
  exists []. rewrite app_nil_r. split; [reflexivity | intros c t []].
Qed.

Lemma rename_step_flags (r : renaming) (col : string) :
  found_u (rename_step r col) = found_u r || mem col unique_aliases
  /\ found_i (rename_step r col) = found_i r || mem col code_aliases.
Proof.
  unfold rename_step.
  destruct (mem col unique_aliases) eqn:Mu.
  - rewrite (unique_not_code col Mu), (unique_not_name col Mu).
    destruct (found_u r) eqn:Fu, (found_i r) eqn:Fi, (found_n r) eqn:Fn;
      cbn; rewrite ?Fu, ?Fi; split; reflexivity.
  - destruct (mem col code_aliases) eqn:Mi.
    + rewrite (code_not_name col Mi).
      destruct (found_u r) eqn:Fu, (found_i r) eqn:Fi, (found_n r) eqn:Fn;
        cbn; rewrite ?Fu, ?Fi; split; reflexivity.
    + destruct (found_u r) eqn:Fu, (found_i r) eqn:Fi, (found_n r) eqn:Fn,
               (mem col name_aliases);
        cbn; rewrite ?Fu, ?Fi; split; reflexivity.
Qed.

(** What the loop over the columns establishes, from any state of it. *)
Lemma fold_rename (cols : list string) :
  forall r,
    typed r ->
    let r' := fold_left rename_step cols r in
    typed r'
    /\ found_u r' = found_u r || existsb (fun c => mem c unique_aliases) cols
    /\ found_i r' = found_i r || existsb (fun c => mem c code_aliases) cols
    /\ (exists d, rmap r' = rmap r ++ d /\ forall c t, In (c, t) d -> In c cols).
Proof.
  induction cols as [|col cols IH]; intros r Ht; cbn zeta; cbn [fold_left existsb].
  - rewrite !orb_false_r. repeat split; [exact Ht|].
    exists []. rewrite app_nil_r. split; [reflexivity | intros c t []].
  - destruct (IH (rename_step r col) (rename_step_typed r col Ht))
      as [Ht' [Hu [Hi [d [Hd Hk]]]]]. cbn zeta in *.
    destruct (rename_step_flags r col) as [Fu Fi].
    destruct (rename_step_grows r col) as [d0 [Hd0 Hk0]].
    split; [exact Ht'|]. split; [now rewrite Hu, Fu, orb_assoc|].
    split; [now rewrite Hi, Fi, orb_assoc|].
    exists (d0 ++ d). split; [now rewrite Hd, Hd0, app_assoc|].
    intros c t Hin. apply in_app_iff in Hin. destruct Hin as [Hin|Hin].
    + left. symmetry. exact (Hk0 c t Hin).
    + right. exact (Hk c t Hin).
Qed.

Lemma rename_step_flagged (r : renaming) (col : string) :
  flagged r -> flagged (rename_step r col).
Proof.
  intros [Hu Hi]. unfold rename_step, flagged.
  destruct (negb (found_u r) && mem col unique_aliases) eqn:E1;
    [|destruct (negb (found_i r) && mem col code_aliases) eqn:E2;
      [|destruct (negb (found_n r) && mem col name_aliases) eqn:E3; [|now split]]];
    cbn [rmap found_u found_i]; split; intro F;
    try (exists col; apply in_or_app; right; now left);
    try (destruct (Hu F) as [c Hc]; exists c; apply in_or_app; now left);
    try (destruct (Hi F) as [c Hc]; exists c; apply in_or_app; now left).
Qed.

Lemma fold_rename_flagged (cols : list string) :
  forall r, flagged r -> flagged (fold_left rename_step cols r).
Proof.
  induction cols as [|col cols IH]; intros r H; cbn [fold_left]; [exact H|].
  apply IH, rename_step_flagged, H.
Qed.

(** The first alias of the unique id is the column that is renamed. *)
Lemma fold_rename_first (cols : list string) :
  forall r c0,
    found_u r = false ->
    find (fun c => mem c unique_aliases) cols = Some c0 ->
    In (c0, "UNIQUE_ID"%string) (rmap (fold_left rename_step cols r)).
Proof.
  induction cols as [|col cols IH]; intros r c0 Fu Hf; cbn [find fold_left] in *;
    [discriminate|].
  destruct (mem col unique_aliases) eqn:Mu.
  - injection Hf as <-.
    assert (Hin : In (col, "UNIQUE_ID"%string) (rmap (rename_step r col))).
    { unfold rename_step. rewrite Fu, Mu. cbn [negb andb rmap].
      apply in_or_app. right. now left. }
    assert (Hg : forall cs r1, In (col, "UNIQUE_ID"%string) (rmap r1) ->
                   In (col, "UNIQUE_ID"%string) (rmap (fold_left rename_step cs r1))).
    { induction cs as [|x cs IHc]; intros r1 H1; cbn [fold_left]; [exact H1|].
      apply IHc. destruct (rename_step_grows r1 x) as [d [-> _]].
      apply in_or_app. now left. }
    now apply Hg.
  - apply IH; [|exact Hf].
    destruct (rename_step_flags r col) as [-> _]. now rewrite Fu, Mu.
Qed.

Lemma dict_get_found (d : list (string * string)) (c default : string) :
  (exists t, In (c, t) d) ->
  exists t, In (c, t) d /\ dict_get d c default = t.
Proof.
  intros [t Ht]. unfold dict_get.
  destruct (find (fun kv => String.eqb (fst kv) c) d) as [[k t']|] eqn:E.
  - apply find_some in E. destruct E as [Hin Hk]. cbn [fst] in Hk.
    apply String.eqb_eq in Hk. subst k. now exists t'.
  - exfalso. apply (find_none _ _ E) in Ht. cbn [fst] in Ht.
    now rewrite String.eqb_refl in Ht.
Qed.

Lemma dict_get_cases (d : list (string * string)) (c default : string) :
  (exists t, In (c, t) d /\ dict_get d c default = t)
  \/ dict_get d c default = default.
Proof.
  unfold dict_get.
  destruct (find (fun kv => String.eqb (fst kv) c) d) as [[k t']|] eqn:E.
  - left. apply find_some in E. destruct E as [Hin Hk]. cbn [fst] in Hk.
    apply String.eqb_eq in Hk. subst k. now exists t'.
  - now right.
Qed.

Lemma count_two {A : Type} (dec : forall x y : A, {x = y} + {x <> y})
    (f : string -> A) (v : A) (l : list string) (a b : string) :
  In a l -> In b l -> a <> b -> f a = v -> f b = v ->
  (2 <= count_occ dec (map f l) v)%nat.
Proof.
  intros Ha Hb Hab Fa Fb. induction l as [|x l IH]; [destruct Ha|].
  cbn [map count_occ].
  assert (Hone : forall y, In y l -> f y = v -> (1 <= count_occ dec (map f l) v)%nat).
  { intros y Hy Fy. apply count_occ_In. rewrite <- Fy. now apply in_map. }
  destruct Ha as [->|Ha], Hb as [->|Hb].
  - congruence.
  - rewrite Fa. destruct (dec v v); [|congruence]. specialize (Hone b Hb Fb). lia.
  - rewrite Fb. destruct (dec v v); [|congruence]. specialize (Hone a Ha Fa). lia.
  - specialize (IH Ha Hb). destruct (dec (f x) v); lia.
Qed.

End PageFacts.

(* ------------------------------------------------------------------ *)
(** ** The copy of the loop in the page script *)

Module InlineFacts.
Import Geometry Nesting Layout Page PyFacts RunFacts PartitionFacts MetricsFacts.

Section Copy.

Variable intersects : Polygon -> Polygon -> bool.
Variable returns : nat -> Inline.output -> bool.
Variable fw ml : Q.
Variable cancel_flag : option (nat -> bool).
Variable progress_cb : bool.
Hypothesis quiet : never_requested cancel_flag.

Lemma process_item_agrees (total idx : nat) (s : NestingAlgorithm * locals)
    (v : Inline.vars) (it : item) :
  Inline.agrees fw ml s v ->
  Inline.agrees fw ml (process_item intersects cancel_flag progress_cb total idx s it)
                (Inline.place_item intersects fw ml v it).
Proof.
  destruct s as [self l]. intros [Hp [Hu [Hpp [Hpb [Hfw Hml]]]]]. cbn [fst snd] in *.
  destruct (process_item_spec intersects cancel_flag progress_cb total idx self l it)
    as [_ [Hfw' [Hml' [_ H]]]]. cbn zeta in H, Hfw', Hml'.
  rewrite (orient_loop_quiet intersects cancel_flag _ _ _ _ _ _ _ quiet) in H.
  rewrite Hfw, Hml, Hpp, Hpb in H.
  unfold Inline.agrees, Inline.place_item. rewrite Hfw', Hml'.
  destruct (best_placement _) as [pl|];
    destruct H as [-> [-> [-> ->]]];
    cbn [Inline.current_placed Inline.current_unplaced Inline.sheet_polys Inline.sheet_bounds];
    rewrite ?Hp, ?Hu, ?Hpp, ?Hpb; repeat split; assumption.
Qed.

(** When the loop of the script comes to its end, its variables hold what
    the loop of [run] leaves. *)
Lemma loop_agrees (items : list item) :
  forall total total' idx s v n r,
    Inline.agrees fw ml s v ->
    Inline.loop intersects returns fw ml false total' idx items v n = Some r ->
    Inline.agrees fw ml (run_loop intersects cancel_flag progress_cb total idx items s)
                  (fst r).
Proof.
  induction items as [|it rest IH]; intros total total' idx s v n r Ha;
    cbn [run_loop Inline.loop].
  - intro H. injection H as <-. exact Ha.
  - assert (Hp := poll_quiet cancel_flag (polls (snd s)) quiet).
    destruct (poll cancel_flag (polls (snd s))) as [c n']. cbn in Hp. subst c.
    set (s1 := (fst s, mkLocals (placed_polys (snd s)) (placed_bounds (snd s)) n'
                                (progress (snd s)))).
    assert (Ha1 : Inline.agrees fw ml s1 v) by exact Ha.
    assert (Hstep := process_item_agrees total idx s1 v it Ha1).
    destruct (calc_metrics _ fw) as [[used_l eff]|]; [|discriminate].
    destruct (returns n _); [|discriminate].
    destruct ((S idx mod 5 =? 0)%nat || (S idx =? total')%nat).
    + destruct (returns (S n) _); [|discriminate]. now apply IH.
    + now apply IH.
Qed.

(** On a sheet of positive width the loop comes to its end when every
    call to the page library returns. *)
Lemma loop_finishes (items : list item) :
  0 < fw -> (forall k c, returns k c = true) ->
  forall total idx v n,
    exists r, Inline.loop intersects returns fw ml false total idx items v n = Some r.
Proof.
  intros Hw Hret. induction items as [|it rest IH]; intros total idx v n;
    cbn [Inline.loop]; [now eexists|].
  destruct (calc_metrics_defined
              (Inline.current_placed (Inline.place_item intersects fw ml v it))
              fw Hw) as [[used_l eff] ->].
  rewrite !Hret. destruct ((S idx mod 5 =? 0)%nat || (S idx =? total)%nat); apply IH.
Qed.

End Copy.
End InlineFacts.

(* ------------------------------------------------------------------ *)
(** ** Further properties of the engine and of the page script *)

Import Layout Page.
Import LowerBoundFacts DisplacementFacts PositionFacts WidthFacts OrderFacts RestFacts
       LogFacts AgainFacts MetricsFacts PageFacts InlineFacts.

(** X1.  The sort of [run] leaves the panels in descending order of their
    keys: no panel has a smaller key than one that comes after it. *)
Theorem sort_desc_descending (l : list item) :
  StronglySorted (fun a b => key_lt (sort_key a) (sort_key b) = false) (sort_desc l).
Proof.
  apply (fold_insert_descending l []). constructor.
Qed.

(** X2.  The sort is stable: panels with equal keys keep the order they had
    in the input. *)
Theorem sort_desc_stable (z : item) (l : list item) :
  filter (same_key z) (sort_desc l) = filter (same_key z) l.
Proof.
  apply (fold_insert_filter z l []). constructor.
Qed.

(** X3.  Sorting a list that is already in descending order of the keys
    leaves it as it is; so a second sort of the panels changes nothing. *)
Theorem sort_desc_idempotent (l : list item) :
  sort_desc (sort_desc l) = sort_desc l.
Proof.
  unfold sort_desc at 1. apply (fold_insert_sorted (sort_desc l) []). cbn [app].
  apply (fold_insert_descending l []). constructor.
Qed.

(** X4.  [run] does not clear the two result lists: on an object that
    already holds results it appends to them what a fresh object with the
    same panels and sheet yields, placed on an empty sheet again. *)
Theorem run_appends_to_results
    (intersects : Polygon -> Polygon -> bool) (cancel_flag : option (nat -> bool))
    (progress_cb : bool) (self : NestingAlgorithm) :
  let fresh := init (patterns self) (fabric_width self) (max_length self) in
  placed_items (fst (run intersects cancel_flag progress_cb self))
  = placed_items self ++ placed_of intersects cancel_flag progress_cb fresh
  /\ unplaced_items (fst (run intersects cancel_flag progress_cb self))
     = unplaced_items self ++ unplaced_of intersects cancel_flag progress_cb fresh.
Proof.
  cbn zeta. unfold placed_of, unplaced_of, run.
  cbn [patterns fabric_width max_length placed_items unplaced_items init].
  set (pats := sort_desc (patterns self)).
  destruct (run_loop_ahead intersects cancel_flag progress_cb
              (placed_items self) (unplaced_items self) pats (List.length pats) 0%nat
              (mkAlgo pats (fabric_width self) (max_length self)
                      (placed_items self) (unplaced_items self), mkLocals [] [] 0 [])
              (mkAlgo pats (fabric_width self) (max_length self) [] [], mkLocals [] [] 0 []))
    as [_ [_ [Hp [Hu _]]]].
  - unfold ahead. cbn. rewrite !app_nil_r. repeat split; reflexivity.
  - split; assumption.
Qed.

(** X5.  Compaction only moves a polygon to the left and down, by whole
    half-centimetre steps, and so never raises its score. *)
Theorem compaction_moves_left_and_down
    (intersects : Polygon -> Polygon -> bool) (pbs : list Bounds) (pps : list Polygon)
    (cp : Polygon) :
  exists a b : nat,
    moved_by cp (gravity intersects pbs pps cp) a b
    /\ score (gravity intersects pbs pps cp) <= score cp.
Proof.
  destruct (gravity_moved intersects pbs pps cp) as [a [b Hm]].
  exists a, b. split; [exact Hm|].
  destruct Hm as [_ [Hx [Hy _]]]. unfold score. rewrite Hx, Hy.
  assert (Ha := half_steps_nonneg a). assert (Hb := half_steps_nonneg b).
  set (da := inject_Z (Z.of_nat a) * (1 # 2)) in *.
  set (db := inject_Z (Z.of_nat b) * (1 # 2)) in *.
  assert (E : maxx (bounds cp) - da + (miny (bounds cp) - db) * (1 # 1000)
              == maxx (bounds cp) + miny (bounds cp) * (1 # 1000)
                 - (da + db * (1 # 1000))) by ring.
  rewrite E.
  assert (Hd : 0 <= da + db * (1 # 1000)).
  { assert (H0 : 0 + 0 <= da + db * (1 # 1000)).
    { apply Qplus_le_compat; [exact Ha|].
      apply Qmult_le_0_compat; [exact Hb | discriminate]. }
    exact H0. }
  apply Qle_minus_iff.
  assert (E2 : maxx (bounds cp) + miny (bounds cp) * (1 # 1000)
               + - (maxx (bounds cp) + miny (bounds cp) * (1 # 1000) - (da + db * (1 # 1000)))
               == da + db * (1 # 1000)) by ring.
  now rewrite E2.
Qed.

(** X7.  A placed polygon ends at most one scan step (3 cm) beyond
    [max_length].  (In exact arithmetic it ends less than one step beyond;
    the bound as stated is the one that survives the rounding of [x + w].) *)
Theorem placed_overshoot_at_most_one_step
    (intersects : Polygon -> Polygon -> bool) (cancel_flag : option (nat -> bool))
    (progress_cb : bool) (pats : list item) (fw ml : Q) :
  Forall (fun e => maxx (bounds (poly e)) <= ml + 3)
         (placed_of intersects cancel_flag progress_cb (init pats fw ml)).
Proof.
  eapply Forall_impl;
    [|apply (run_placed_candidates intersects cancel_flag progress_cb
               (fun fw ml _ cp => maxx (bounds cp) <= ml + 3))].
  - intros e [it [_ [_ [_ H]]]]. exact H.
  - intros fw' ml' pbs pps bs it v cp _ Hc.
    apply Qlt_le_weak. exact (candidate_overshoot _ _ _ _ _ _ _ _ _ _ Hc).
Qed.

(** X9.  In whatever lane, a placed polygon reaches at most half the width
    of the sheet beyond it: its upper bound is at most 1.5 times
    [fabric_width]. *)
Theorem placed_overshoot_below_half_width
    (intersects : Polygon -> Polygon -> bool) (cancel_flag : option (nat -> bool))
    (progress_cb : bool) (pats : list item) (fw ml : Q) :
  Forall (fun e => maxy (bounds (poly e)) <= fw * (3 # 2))
         (placed_of intersects cancel_flag progress_cb (init pats fw ml)).
Proof.
  eapply Forall_impl;
    [|apply (run_placed_candidates intersects cancel_flag progress_cb
               (fun fw _ _ cp => maxy (bounds cp) <= fw * (3 # 2)))].
  - intros e [it [_ [_ [_ H]]]]. exact H.
  - intros fw' ml' pbs pps bs it v cp _ Hc.
    exact (candidate_height_bound _ _ _ _ _ _ _ _ _ _ Hc).
Qed.

(** X10.  Every placed polygon is at rest where the compaction left it: with
    the polygons placed before it on the sheet, one more pass of the
    compaction loop moves it neither down nor to the left. *)
Theorem placed_polygons_at_rest
    (intersects : Polygon -> Polygon -> bool) (cancel_flag : option (nat -> bool))
    (progress_cb : bool) (pats : list item) (fw ml : Q) :
  each_settled intersects []
    (map poly (placed_of intersects cancel_flag progress_cb (init pats fw ml))).
Proof.
  unfold placed_of.
  assert (H : at_rest intersects (run intersects cancel_flag progress_cb (init pats fw ml))).
  { unfold run. apply run_loop_rest. unfold at_rest; cbn. now split; [|split]. }
  destruct H as [_ [Hp Hs]]. now rewrite <- Hp.
Qed.

(** X11.  A panel is placed only when one of its eight orientations is no
    longer than [max_length] and no higher than [fabric_width]. *)
Theorem placed_panels_fit
    (intersects : Polygon -> Polygon -> bool) (cancel_flag : option (nat -> bool))
    (progress_cb : bool) (pats : list item) (fw ml : Q) :
  Forall (fun e => exists it, In it pats /\ style e = style it /\ id e = id it
                              /\ fits fw ml (poly it) = true)
         (placed_of intersects cancel_flag progress_cb (init pats fw ml)).
Proof.
  apply (run_placed_candidates intersects cancel_flag progress_cb
           (fun fw ml it _ => fits fw ml (poly it) = true)).
  intros fw' ml' pbs pps bs it v cp Hv Hc. unfold candidate in Hc.
  destruct (search intersects fw' ml' pbs pps bs (start_y_of (style it) fw') (poly it) v)
    as [c|] eqn:E; [|discriminate].
  exact (search_fit _ _ _ _ _ _ _ _ _ _ Hv E).
Qed.

(** X12.  Without cancellation, a panel none of whose orientations fits the
    sheet ends in the list of unplaced panels, as the dict that was passed
    in. *)
Theorem unfit_panel_unplaced
    (intersects : Polygon -> Polygon -> bool) (cancel_flag : option (nat -> bool))
    (progress_cb : bool) (pats : list item) (fw ml : Q) (it : item) :
  never_requested cancel_flag ->
  In it pats ->
  fits fw ml (poly it) = false ->
  In it (unplaced_of intersects cancel_flag progress_cb (init pats fw ml)).
Proof.
  intros Hq Hin Hfit. unfold unplaced_of, run.
  apply run_loop_unfit; [exact Hq | | exact Hfit].
  cbn [patterns init]. apply (Permutation_in _ (Permutation_sym (sort_desc_perm pats))).
  exact Hin.
Qed.

Lemma unfit_panel_unplaced_witness :
  never_requested None
  /\ In (panel "2" (rect 7 7)) [panel "1" (rect 3 4); panel "2" (rect 7 7)]
  /\ fits 5 10 (rect 7 7) = false
  /\ In (panel "2" (rect 7 7))
        (unplaced_of poly_intersects None false
           (init [panel "1" (rect 3 4); panel "2" (rect 7 7)] 5 10)).
Proof.
  assert (Hq : never_requested None) by exact I.
  assert (Hin : In (panel "2" (rect 7 7)) [panel "1" (rect 3 4); panel "2" (rect 7 7)])
    by (right; left; reflexivity).
  assert (Hfit : fits 5 10 (poly (panel "2" (rect 7 7))) = false) by (vm_compute; reflexivity).
  split; [exact Hq|]. split; [exact Hin|]. split; [exact Hfit|].
  exact (unfit_panel_unplaced poly_intersects None false _ 5 10 _ Hq Hin Hfit).
Defined.

(** X13.  The two result lists take the panels in the order of the sort: the
    placed entries and the unplaced panels are each a subsequence of the
    sorted list, chosen by one mask over a beginning of it. *)
Theorem results_keep_sorted_order
    (intersects : Polygon -> Polygon -> bool) (cancel_flag : option (nat -> bool))
    (progress_cb : bool) (pats : list item) (fw ml : Q) :
  exists mask : list bool,
    (List.length mask <= List.length pats)%nat
    /\ map tag (placed_of intersects cancel_flag progress_cb (init pats fw ml))
       = map tag (pick true mask (sort_desc pats))
    /\ unplaced_of intersects cancel_flag progress_cb (init pats fw ml)
       = pick false mask (sort_desc pats).
Proof.
  unfold placed_of, unplaced_of, run. cbn [patterns init].
  destruct (run_loop_order intersects cancel_flag progress_cb (sort_desc pats)
              (List.length (sort_desc pats)) 0%nat
              (mkAlgo (sort_desc pats) fw ml [] [], mkLocals [] [] 0 []))
    as [mask [Hlen [Hp Hu]]].
  exists mask. rewrite (Permutation_length (sort_desc_perm pats)) in Hlen.
  split; [exact Hlen|]. split; [exact Hp | exact Hu].
Qed.

(** X14.  With a [progress_cb], the run calls it once for every panel it
    records, with the counts 1, 2, ... in turn, always with the number of
    panels, and each time with a beginning of the final list of placed
    entries. *)
Theorem progress_calls_follow_panels
    (intersects : Polygon -> Polygon -> bool) (cancel_flag : option (nat -> bool))
    (pats : list item) (fw ml : Q) :
  let r := run intersects cancel_flag true (init pats fw ml) in
  progress_ok (List.length pats) (placed_items (fst r)) (progress (snd r))
  /\ List.length (progress (snd r))
     = (List.length (placed_items (fst r)) + List.length (unplaced_items (fst r)))%nat.
Proof.
  cbn zeta. unfold run. cbn [patterns init fabric_width max_length placed_items unplaced_items].
  destruct (run_loop_progress intersects cancel_flag (sort_desc pats)
              (List.length (sort_desc pats)) 0%nat
              (mkAlgo (sort_desc pats) fw ml [] [], mkLocals [] [] 0 []))
    as [new [Hpr [Hidx [Htot [Hpre [_ Hlen]]]]]].
  cbn [snd progress app] in Hpr. rewrite Hpr.
  rewrite (Permutation_length (sort_desc_perm pats)) in Htot.
  split.
  - unfold progress_ok. split; [exact Hidx|]. split; [exact Htot | exact Hpre].
  - unfold recorded in Hlen. cbn [fst placed_items unplaced_items map app List.length] in Hlen.
    rewrite length_app, !length_map in Hlen. lia.
Qed.



(** X17.  For the placed list of a run on a sheet with [0 <= max_length],
    [calc_metrics] with a positive width does not divide by zero; the used
    length it reports lies between 0 and [max_length + 3.005], and the
    efficiency is not negative. *)
Theorem metrics_of_a_run
    (intersects : Polygon -> Polygon -> bool) (cancel_flag : option (nat -> bool))
    (progress_cb : bool) (pats : list item) (fw ml width : Q) :
  0 < width -> 0 <= ml ->
  exists used_l eff,
    calc_metrics (placed_of intersects cancel_flag progress_cb (init pats fw ml)) width
    = Some (used_l, eff)
    /\ 0 <= used_l /\ used_l <= ml + 3 + (1 # 200) /\ 0 <= eff.
Proof.
  intros Hw Hml.
  assert (Hbox : Forall (fun e => 0 <= maxx (bounds (poly e))
                                  /\ maxx (bounds (poly e)) < ml + 3)
                        (placed_of intersects cancel_flag progress_cb (init pats fw ml))).
  { assert (H1 := placed_lower_bounds intersects cancel_flag progress_cb pats fw ml).
    assert (H2 := run_placed_candidates intersects cancel_flag progress_cb
                    (fun _ ml _ cp => maxx (bounds cp) < ml + 3)
                    (fun fw' ml' pbs pps bs it v cp _ Hc =>
                       candidate_overshoot _ _ _ _ _ _ _ _ _ _ Hc) pats fw ml).
    rewrite Forall_forall in *. intros e He. split.
    - destruct (H1 e He) as [Hx _]. destruct (bounds_extent (poly e)) as [Hxx _].
      now apply Qle_trans with (minx (bounds (poly e))).
    - destruct (H2 e He) as [it [_ [_ [_ H]]]]. exact H. }
  destruct (placed_of intersects cancel_flag progress_cb (init pats fw ml)) as [|i rest].
  - exists 0, 0. cbn [calc_metrics]. split; [reflexivity|]. lra.
  - unfold calc_metrics.
    assert (Hused : 0 <= used_length i rest /\ used_length i rest < ml + 3).
    { inversion Hbox as [|? ? [Hi1 Hi2] Hrest]; subst. unfold used_length.
      apply list_max_between; [exact Hi1 | exact Hi2 |].
      apply Forall_map. exact Hrest. }
    destruct Hused as [Hu0 Hu1].
    assert (Hr := round2_bounds (used_length i rest)).
    assert (Hr0 := round2_nonneg (used_length i rest) Hu0).
    destruct (Py.Qlt_bool 0 (used_length i rest)) eqn:Epos.
    + apply Qlt_bool_iff in Epos.
      assert (Hden : 0 < used_length i rest * width).
      { assert (H0 : 0 * width < used_length i rest * width)
          by (apply Qmult_lt_compat_r; assumption).
        now rewrite Qmult_0_l in H0. }
      destruct (Qeq_bool (used_length i rest * width) 0) eqn:Ez.
      * apply Qeq_bool_iff in Ez. rewrite Ez in Hden. discriminate Hden.
      * eexists _, _. split; [reflexivity|].
        split; [exact Hr0|]. split; [lra|].
        apply round2_nonneg.
        apply Qmult_le_0_compat; [|discriminate].
        apply Qle_shift_div_l; [exact Hden|].
        rewrite Qmult_0_l. apply total_area_nonneg.
    + eexists _, _. split; [reflexivity|].
      split; [exact Hr0|]. split; [lra|]. apply round2_nonneg, Qle_refl.
Qed.

Lemma metrics_of_a_run_witness :
  0 < 4 /\ 0 <= 5
  /\ exists used_l eff,
       calc_metrics (placed_of poly_intersects None false (init two_rects 4 5)) 4
       = Some (used_l, eff)
       /\ 0 <= used_l /\ used_l <= 5 + 3 + (1 # 200) /\ 0 <= eff.
Proof.
  assert (Hw : 0 < 4) by reflexivity.
  assert (Hml : 0 <= 5) by discriminate.
  split; [exact Hw|]. split; [exact Hml|].
  exact (metrics_of_a_run poly_intersects None false two_rects 4 5 4 Hw Hml).
Defined.

(** X18.  The number of markers for a style is the least whole number of
    spreads of [layers] plies that covers the ordered quantity; for an order
    of at least one piece it lies between 1 and the quantity. *)
Theorem marker_qty_covers_order (oqty layers : Z) :
  (0 < layers)%Z -> (1 <= oqty)%Z ->
  exists m : Z,
    marker_qty oqty layers = Some m
    /\ (layers * (m - 1) < oqty <= layers * m)%Z
    /\ (1 <= m <= oqty)%Z.
Proof.
  intros Hl Ho. unfold marker_qty.
  destruct (Z.eqb_spec layers 0) as [E|_]; [lia|].
  exists (Qceiling (inject_Z oqty / inject_Z layers)).
  assert (H := ceil_div_bounds oqty layers Hl). cbn zeta in H.
  split; [reflexivity|]. split; [exact H|]. nia.
Qed.

Lemma marker_qty_covers_order_witness :
  (0 < 2)%Z /\ (1 <= 7)%Z
  /\ exists m : Z,
       marker_qty 7 2 = Some m
       /\ (2 * (m - 1) < 7 <= 2 * m)%Z
       /\ (1 <= m <= 7)%Z.
Proof.
  assert (Hl : (0 < 2)%Z) by lia.
  assert (Ho : (1 <= 7)%Z) by lia.
  split; [exact Hl|]. split; [exact Ho|].
  exact (marker_qty_covers_order 7 2 Hl Ho).
Defined.

(** X19.  With at least one ply and a quantity of at least one for every
    style, the expansion of the rows does not fail, and the list handed to
    the engine holds every row of the selected material at least once and
    nothing but these rows. *)
Theorem every_row_is_nested
    (rows : list item) (qty_values : list (string * Z)) (layers : Z) :
  (0 < layers)%Z ->
  (forall st, (1 <= qty_of qty_values st)%Z) ->
  exists l,
    patterns_to_nest rows qty_values layers = Some l
    /\ (forall row, In row rows -> In row l)
    /\ (forall x, In x l -> In x rows)
    /\ (List.length rows <= List.length l)%nat.
Proof.
  intros Hl Hq. induction rows as [|row rows IH]; cbn [patterns_to_nest].
  - exists []. repeat split; auto.
  - unfold marker_qty. destruct (Z.eqb_spec layers 0) as [E|_]; [lia|].
    set (m := Qceiling (inject_Z (qty_of qty_values (style row)) / inject_Z layers)).
    assert (Hm : (1 <= m)%Z).
    { assert (H := ceil_div_bounds (qty_of qty_values (style row)) layers Hl).
      cbn zeta in H. fold m in H. specialize (Hq (style row)). nia. }
    destruct IH as [l [-> [Hin [Hout Hlen]]]]. cbn [option_map].
    exists (repeat row (Z.to_nat m) ++ l).
    assert (Hn : exists n, Z.to_nat m = S n) by (exists (Z.to_nat m - 1)%nat; lia).
    destruct Hn as [n ->]. split; [reflexivity|]. split; [|split].
    + intros x [<-|Hx]; apply in_or_app; [left; now left | right; now apply Hin].
    + intros x Hx. apply in_app_iff in Hx. destruct Hx as [Hx|Hx].
      * left. symmetry. exact (repeat_spec _ _ _ Hx).
      * right. now apply Hout.
    + rewrite length_app, repeat_length. cbn [List.length]. lia.
Qed.

Lemma every_row_is_nested_witness :
  (0 < 2)%Z
  /\ (forall st, (1 <= qty_of [("S"%string, 7%Z)] st)%Z)
  /\ exists l,
       patterns_to_nest two_rects [("S"%string, 7%Z)] 2 = Some l
       /\ (forall row, In row two_rects -> In row l)
       /\ (forall x, In x l -> In x two_rects)
       /\ (List.length two_rects <= List.length l)%nat.
Proof.
  assert (Hl : (0 < 2)%Z) by lia.
  assert (Hq : forall st, (1 <= qty_of [("S"%string, 7%Z)] st)%Z).
  { intro st. unfold qty_of. cbn [find fst snd].
    destruct (String.eqb "S" st); cbn [snd]; lia. }
  split; [exact Hl|]. split; [exact Hq|].
  exact (every_row_is_nested two_rects [("S"%string, 7%Z)] 2 Hl Hq).
Defined.

(** X20.  [_init_state] leaves every value that the session already holds
    as it is and adds, behind them, the defaults of the keys that are
    missing; a second call changes nothing. *)
Theorem init_state_fills_gaps (session_state : state) :
  _init_state session_state
  = session_state
    ++ filter (fun kv => negb (contains session_state (fst kv))) defaults
  /\ _init_state (_init_state session_state) = _init_state session_state.
Proof.
  assert (Hform : forall s, _init_state s
                            = s ++ filter (fun kv => negb (contains s (fst kv))) defaults).
  { intro s. apply fill_closed_form, defaults_keys_distinct. }
  split; [apply Hform|].
  rewrite (Hform (_init_state session_state)).
  assert (Hnone : filter (fun kv => negb (contains (_init_state session_state) (fst kv)))
                         defaults = []).
  { assert (Hall : forall kv, In kv defaults ->
                     negb (contains (_init_state session_state) (fst kv)) = false).
    { intros kv Hkv. apply negb_false_iff. rewrite Hform, contains_app.
      destruct (contains session_state (fst kv)) eqn:E; [reflexivity|].
      cbn [orb]. apply contains_In. apply filter_In. split; [exact Hkv|].
      now rewrite E. }
    now apply filter_nothing. }
  now rewrite Hnone, app_nil_r.
Qed.

(** X21.  The chart and the PDF colour every placed entry from the palette:
    the styles are taken once each, in the order of their first entry, and
    the style at position [i] gets the colour [i % 8] of the palette; the
    fallback colours are never used. *)
Theorem style_colors_from_palette (placed_items : list item) :
  NoDup (unique_styles placed_items)
  /\ Forall (fun it =>
               exists i,
                 nth_error (unique_styles placed_items) i = Some (style it)
                 /\ fillcolor placed_items it = nth (i mod 8) COLORS EmptyString
                 /\ fc placed_items it = nth (i mod 8) colors_mpl EmptyString
                 /\ In (fillcolor placed_items it) COLORS
                 /\ In (fc placed_items it) colors_mpl)
            placed_items.
Proof.
  split; [apply unique_styles_NoDup|].
  apply Forall_forall. intros it Hit.
  destruct (unique_styles_has placed_items it Hit) as [i Hi].
  assert (Hf : fillcolor placed_items it = nth (i mod 8) COLORS EmptyString).
  { unfold fillcolor, style_color.
    now rewrite (color_map_get COLORS _ i (style it) _ (unique_styles_NoDup _) Hi). }
  assert (Hc : fc placed_items it = nth (i mod 8) colors_mpl EmptyString).
  { unfold fc, sc.
    now rewrite (color_map_get colors_mpl _ i (style it) _ (unique_styles_NoDup _) Hi). }
  assert (Hlt : (i mod 8 < 8)%nat) by (apply Nat.mod_upper_bound; lia).
  exists i. split; [exact Hi|]. split; [exact Hf|]. split; [exact Hc|]. split.
  - rewrite Hf. apply nth_In. exact Hlt.
  - rewrite Hc. apply nth_In. exact Hlt.
Qed.

(** X22.  Two styles of the chart share a colour exactly when their
    positions among the styles differ by a multiple of 8. *)
Theorem style_colors_collide_mod_eight
    (placed_items : list item) (i j : nat) (s t default : string) :
  nth_error (unique_styles placed_items) i = Some s ->
  nth_error (unique_styles placed_items) j = Some t ->
  (dict_get (style_color placed_items) s default
   = dict_get (style_color placed_items) t default
   <-> i mod 8 = j mod 8).
Proof.
  intros Hi Hj. unfold style_color.
  rewrite (color_map_get COLORS _ i s _ (unique_styles_NoDup _) Hi).
  rewrite (color_map_get COLORS _ j t _ (unique_styles_NoDup _) Hj).
  apply (palette_nth_inj COLORS i j COLORS_distinct). cbn. lia.
Qed.

Lemma style_colors_collide_mod_eight_witness :
  let placed := [mkItem "A" "1" (rect 1 1); mkItem "B" "2" (rect 1 1);
                 mkItem "A" "3" (rect 1 1)] in
  nth_error (unique_styles placed) 0 = Some "A"%string
  /\ nth_error (unique_styles placed) 1 = Some "B"%string
  /\ (dict_get (style_color placed) "A" "white" = dict_get (style_color placed) "B" "white"
      <-> 0 mod 8 = 1 mod 8)%nat.
Proof.
  cbn zeta.
  assert (Hi : nth_error (unique_styles [mkItem "A" "1" (rect 1 1); mkItem "B" "2" (rect 1 1);
                                         mkItem "A" "3" (rect 1 1)]) 0 = Some "A"%string)
    by reflexivity.
  assert (Hj : nth_error (unique_styles [mkItem "A" "1" (rect 1 1); mkItem "B" "2" (rect 1 1);
                                         mkItem "A" "3" (rect 1 1)]) 1 = Some "B"%string)
    by reflexivity.
  split; [exact Hi|]. split; [exact Hj|].
  exact (style_colors_collide_mod_eight _ 0 1 "A" "B" "white" Hi Hj).
Defined.

(** X23.  The header of the BOM passes the check for the two columns the
    merge needs exactly when it holds an alias of the unique id and an
    alias of the item code. *)
Theorem bom_accepted_iff_aliases (columns : list string) :
  accepted columns
  = existsb (fun c => mem c unique_aliases) columns
    && existsb (fun c => mem c code_aliases) columns.
Proof.
  unfold accepted, renamed, build_rmap.
  set (r0 := mkRenaming [] false false false).
  assert (Ht0 : typed r0) by (intros c t []).
  assert (Hf0 : flagged r0) by (split; intro F; discriminate F).
  destruct (fold_rename columns r0 Ht0) as [Ht [Hu [Hi [d [Hd Hk]]]]]. cbn zeta in *.
  assert (Hfl := fold_rename_flagged columns r0 Hf0).
  set (r := fold_left rename_step columns r0) in *.
  cbn [rmap found_u found_i r0 orb app] in Hu, Hi, Hd.
  destruct Hfl as [Hfu Hfi].
  assert (Hkeys : forall c t, In (c, t) (rmap r) -> In c columns).
  { intros c t H. rewrite Hd in H. exact (Hk c t H). }
  f_equal.
  - destruct (existsb (fun c => mem c unique_aliases) columns) eqn:E.
    + destruct (Hfu Hu) as [c0 Hc0].
      destruct (dict_get_found (rmap r) c0 c0 (ex_intro (fun t => In (c0, t) (rmap r)) _ Hc0)) as [t [Hin Hg]].
      apply mem_In. apply in_map_iff. exists c0. split; [|exact (Hkeys _ _ Hc0)].
      rewrite Hg.
      destruct (Ht _ _ Hc0) as [[_ M]|[[X _]|[X _]]]; try discriminate X.
      destruct (Ht _ _ Hin) as [[-> _]|[[_ M']|[_ M']]]; [reflexivity| |].
      * rewrite (unique_not_code c0 M) in M'. discriminate.
      * rewrite (unique_not_name c0 M) in M'. discriminate.
    + destruct (mem "UNIQUE_ID"%string (map (fun c => dict_get (rmap r) c c) columns)) eqn:M;
        [|reflexivity].
      apply mem_In, in_map_iff in M. destruct M as [c [Hg Hc]].
      assert (Hal : mem c unique_aliases = true).
      { destruct (dict_get_cases (rmap r) c c) as [[t [Hin Ht']]|Hdef].
        - rewrite Ht' in Hg. subst t.
          destruct (Ht _ _ Hin) as [[_ M]|[[X _]|[X _]]]; [exact M | discriminate X..].
        - rewrite Hdef in Hg. subst c. reflexivity. }
      assert (Hex : existsb (fun c => mem c unique_aliases) columns = true).
      { apply existsb_exists. now exists c. }
      congruence.
  - destruct (existsb (fun c => mem c code_aliases) columns) eqn:E.
    + destruct (Hfi Hi) as [c0 Hc0].
      destruct (dict_get_found (rmap r) c0 c0 (ex_intro (fun t => In (c0, t) (rmap r)) _ Hc0)) as [t [Hin Hg]].
      apply mem_In. apply in_map_iff. exists c0. split; [|exact (Hkeys _ _ Hc0)].
      rewrite Hg.
      destruct (Ht _ _ Hc0) as [[X _]|[[_ M]|[X _]]]; try discriminate X.
      destruct (Ht _ _ Hin) as [[_ M']|[[-> _]|[_ M']]]; [|reflexivity|].
      * rewrite (unique_not_code c0 M') in M. discriminate.
      * rewrite (code_not_name c0 M) in M'. discriminate.
    + destruct (mem "ITEM_CODE"%string (map (fun c => dict_get (rmap r) c c) columns)) eqn:M;
        [|reflexivity].
      apply mem_In, in_map_iff in M. destruct M as [c [Hg Hc]].
      assert (Hal : mem c code_aliases = true).
      { destruct (dict_get_cases (rmap r) c c) as [[t [Hin Ht']]|Hdef].
        - rewrite Ht' in Hg. subst t.
          destruct (Ht _ _ Hin) as [[X _]|[[_ M]|[X _]]]; [discriminate X | exact M | discriminate X].
        - rewrite Hdef in Hg. subst c. reflexivity. }
      assert (Hex : existsb (fun c => mem c code_aliases) columns = true).
      { apply existsb_exists. now exists c. }
      congruence.
Qed.

(** X24.  When the header holds a column named UNIQUE_ID behind another
    alias of the unique id, the renaming gives the name UNIQUE_ID to both:
    the renamed header holds it at least twice. *)
Theorem bom_rename_duplicates_unique_id (columns : list string) (c0 : string) :
  find (fun c => mem c unique_aliases) columns = Some c0 ->
  c0 <> "UNIQUE_ID"%string ->
  In "UNIQUE_ID"%string columns ->
  (2 <= count_occ string_dec (renamed columns) "UNIQUE_ID"%string)%nat.
Proof.
  intros Hfirst Hne Hin. unfold renamed, build_rmap.
  set (r0 := mkRenaming [] false false false).
  assert (Ht0 : typed r0) by (intros c t []).
  destruct (fold_rename columns r0 Ht0) as [Ht _]. cbn zeta in Ht.
  assert (Hc0 := fold_rename_first columns r0 c0 eq_refl Hfirst).
  set (r := fold_left rename_step columns r0) in *.
  apply (count_two string_dec (fun c => dict_get (rmap r) c c) "UNIQUE_ID"%string
           columns c0 "UNIQUE_ID"%string).
  - apply find_some in Hfirst. now destruct Hfirst.
  - exact Hin.
  - exact Hne.
  - destruct (dict_get_found (rmap r) c0 c0 (ex_intro (fun t => In (c0, t) (rmap r)) _ Hc0)) as [t [Hint ->]].
    destruct (Ht _ _ Hc0) as [[_ M]|[[X _]|[X _]]]; try discriminate X.
    destruct (Ht _ _ Hint) as [[-> _]|[[_ M']|[_ M']]]; [reflexivity| |].
    + rewrite (unique_not_code c0 M) in M'. discriminate.
    + rewrite (unique_not_name c0 M) in M'. discriminate.
  - destruct (dict_get_cases (rmap r) "UNIQUE_ID"%string "UNIQUE_ID"%string)
      as [[t [Hint ->]]|Hdef]; [|exact Hdef].
    destruct (Ht _ _ Hint) as [[-> _]|[[_ M']|[_ M']]]; [reflexivity| |];
      vm_compute in M'; discriminate M'.
Qed.

Lemma bom_rename_duplicates_unique_id_witness :
  let columns := ["PIECE UNIQUE"; "UNIQUE_ID"; "ITEM CODE"]%string in
  find (fun c => mem c unique_aliases) columns = Some "PIECE UNIQUE"%string
  /\ "PIECE UNIQUE"%string <> "UNIQUE_ID"%string
  /\ In "UNIQUE_ID"%string columns
  /\ (2 <= count_occ string_dec (renamed columns) "UNIQUE_ID"%string)%nat.
Proof.
  cbn zeta.
  assert (H1 : find (fun c => mem c unique_aliases)
                    ["PIECE UNIQUE"; "UNIQUE_ID"; "ITEM CODE"]%string
               = Some "PIECE UNIQUE"%string) by reflexivity.
  assert (H2 : "PIECE UNIQUE"%string <> "UNIQUE_ID"%string) by discriminate.
  assert (H3 : In "UNIQUE_ID"%string ["PIECE UNIQUE"; "UNIQUE_ID"; "ITEM CODE"]%string)
    by (right; left; reflexivity).
  split; [exact H1|]. split; [exact H2|]. split; [exact H3|].
  exact (bom_rename_duplicates_unique_id _ _ H1 H2 H3).
Defined.
